(** * fund-eye-client: the valuation refresh pipeline

    A shallow embedding of the main-process services of the client
    (valuation calculator, error handler, bounded batch executor, refresh
    orchestrator, update scheduler) together with the properties that the
    design document states about them.

    Modelling conventions.
    - A JavaScript [number] that carries a measured quantity (prices,
      percentages, delays in milliseconds) is an exact rational [Q] in the
      services that copy, compare and schedule; the arithmetic of the
      source is written with the same operators in the same order.
      Counters are [Z] or [nat].
    - The valuation calculator is the place where prices and percentages
      are multiplied and added up.  [Module Binary64] embeds it a second
      time with [number] as an IEEE-754 binary64 value, on the operations
      of the Standard Library's [SpecFloat] (round to nearest, ties to
      even), so that what it returns is what the source returns, rounding
      included.
    - A JavaScript string is a [string] of bytes (UTF-8).
    - A [Map<string, V>] is a [gmap string V]; arrays are lists.
    - Console logging is not modelled. *)

From Stdlib Require Import String Ascii List ZArith QArith Qminmax Qpower Lia Bool.
From Stdlib Require Import SpecFloat.
From stdpp Require Import gmap strings list pretty.

Import ListNotations.
Local Open Scope string_scope.
Local Open Scope list_scope.

(** ** Shared data types ([@shared/types]) *)

Module Holding.
Record t : Type := mk
  { stockCode : string
  ; stockName : string
  ; ratio : Q
  ; change : Q
  ; price : Q }.
End Holding.

Module StockQuote.
Record t : Type := mk
  { code : string
  ; name : string
  ; price : Q
  ; change : Q
  ; changeAmount : Q }.
End StockQuote.

Module FundDetail.
Record t : Type := mk
  { code : string
  ; name : string
  ; type : string
  ; netValue : Q
  ; netValueDate : string
  ; holdings : list Holding.t }.
End FundDetail.

Module Valuation.
Record t : Type := mk
  { estimatedValue : Q
  ; estimatedChange : Q
  ; updateTime : string
  ; isComplete : bool }.
End Valuation.

(** ** ValuationCalculator

    The calculator as the refresh pipeline carries its results, on exact
    rationals.  What is stated on this form is which holdings are matched,
    the completeness flag, and the result when nothing is added; the
    arithmetic itself is stated on [Binary64] below. *)

Module WeightedChange.
Record t : Type := mk
  { estimatedChange : Q
  ; isComplete : bool }.
End WeightedChange.

(** The [for (const holding of holdings)] loop of
    [calculateWeightedChange], with its two accumulators. *)
Fixpoint weightedChangeLoop (quoteMap : gmap string StockQuote.t)
    (holdings : list Holding.t) (totalChange : Q) (matchedCount : nat)
    : Q * nat :=
  match holdings with
  | [] => (totalChange, matchedCount)
  | holding :: rest =>
      match quoteMap !! Holding.stockCode holding with
      | Some quote =>
          weightedChangeLoop quoteMap rest
            (totalChange + StockQuote.change quote * (Holding.ratio holding / 100))%Q
            (S matchedCount)
      | None => weightedChangeLoop quoteMap rest totalChange matchedCount
      end
  end.

Definition calculateWeightedChange (holdings : list Holding.t)
    (quoteMap : gmap string StockQuote.t) : WeightedChange.t :=
  let '(totalChange, matchedCount) := weightedChangeLoop quoteMap holdings 0%Q 0%nat in
  {| WeightedChange.estimatedChange := totalChange
   ; WeightedChange.isComplete :=
       Nat.eqb matchedCount (length holdings) && Nat.ltb 0 (length holdings) |}.

Definition calculateEstimatedValue (netValue estimatedChange : Q) : Q :=
  (netValue * (1 + estimatedChange / 100))%Q.

(** [new Map()] filled by [quoteMap.set(quote.code, quote)] in list order:
    a later quote with the same code replaces an earlier one. *)
Definition quoteMapOf (quotes : list StockQuote.t) : gmap string StockQuote.t :=
  fold_left (fun m quote => <[StockQuote.code quote := quote]> m) quotes ∅.

(** [now] is the value of [new Date().toISOString()] at the call. *)
Definition calculateValuation (now : string) (fund : FundDetail.t)
    (quotes : list StockQuote.t) : Valuation.t :=
  let quoteMap := quoteMapOf quotes in
  let wc := calculateWeightedChange (FundDetail.holdings fund) quoteMap in
  let estimatedValue :=
    calculateEstimatedValue (FundDetail.netValue fund) (WeightedChange.estimatedChange wc) in
  {| Valuation.estimatedValue := estimatedValue
   ; Valuation.estimatedChange := WeightedChange.estimatedChange wc
   ; Valuation.updateTime := now
   ; Valuation.isComplete := WeightedChange.isComplete wc |}.

(** *** Specification-side notions for the weighted change *)

(** The holdings that have a quote in the map, in list order. *)
Definition matchedHoldings (quoteMap : gmap string StockQuote.t)
    (holdings : list Holding.t) : list (Holding.t * StockQuote.t) :=
  omap (fun h => pair h <$> quoteMap !! Holding.stockCode h) holdings.

Definition contribution (hq : Holding.t * StockQuote.t) : Q :=
  (StockQuote.change (snd hq) * (Holding.ratio (fst hq) / 100))%Q.

Definition Qsum (l : list Q) : Q := fold_right Qplus 0%Q l.

(** ** ValuationCalculator on IEEE-754 numbers *)

Module Binary64.

(** A JavaScript [number]: a binary64 value, with its two zeros, its
    infinities and NaN. *)
Definition number : Type := spec_float.

Definition prec : Z := 53.
Definition emax : Z := 1024.

(** [x + y], [x * y] and [x / y] on numbers. *)
Definition add : number -> number -> number := SFadd prec emax.
Definition mul : number -> number -> number := SFmul prec emax.
Definition div : number -> number -> number := SFdiv prec emax.

(** The value of an integer literal ([0] is the positive zero). *)
Definition ofZ (z : Z) : number := binary_normalize prec emax z 0 false.

(** The value of the decimal literal [m / 10^e], for [|m| < 2^53] and
    [e <= 22]: both are binary64 values, so that the quotient is the
    binary64 value nearest to the decimal. *)
Definition ofDecimal (m : Z) (e : nat) : number :=
  div (ofZ m) (ofZ (10 ^ Z.of_nat e)).

(** The binary64 values next below and next above. *)
Definition pred : number -> number := SFpred prec emax.
Definition succ : number -> number := SFsucc prec emax.

Module Holding.
Record t : Type := mk
  { stockCode : string
  ; stockName : string
  ; ratio : number
  ; change : number
  ; price : number }.
End Holding.

Module StockQuote.
Record t : Type := mk
  { code : string
  ; name : string
  ; price : number
  ; change : number
  ; changeAmount : number }.
End StockQuote.

Module FundDetail.
Record t : Type := mk
  { code : string
  ; name : string
  ; type : string
  ; netValue : number
  ; netValueDate : string
  ; holdings : list Holding.t }.
End FundDetail.

Module Valuation.
Record t : Type := mk
  { estimatedValue : number
  ; estimatedChange : number
  ; updateTime : string
  ; isComplete : bool }.
End Valuation.

Module WeightedChange.
Record t : Type := mk
  { estimatedChange : number
  ; isComplete : bool }.
End WeightedChange.

(** The [for (const holding of holdings)] loop of
    [calculateWeightedChange]:
    [totalChange += quote.change * (holding.ratio / 100)] and
    [matchedCount++] for a holding whose code the map has, nothing for the
    others. *)
Fixpoint weightedChangeLoop (quoteMap : gmap string StockQuote.t)
    (holdings : list Holding.t) (totalChange : number) (matchedCount : nat)
    : number * nat :=
  match holdings with
  | [] => (totalChange, matchedCount)
  | holding :: rest =>
      match quoteMap !! Holding.stockCode holding with
      | Some quote =>
          weightedChangeLoop quoteMap rest
            (add totalChange
                 (mul (StockQuote.change quote)
                      (div (Holding.ratio holding) (ofZ 100))))
            (S matchedCount)
      | None => weightedChangeLoop quoteMap rest totalChange matchedCount
      end
  end.

Definition calculateWeightedChange (holdings : list Holding.t)
    (quoteMap : gmap string StockQuote.t) : WeightedChange.t :=
  let '(totalChange, matchedCount) :=
    weightedChangeLoop quoteMap holdings (ofZ 0) 0%nat in
  {| WeightedChange.estimatedChange := totalChange
   ; WeightedChange.isComplete :=
       Nat.eqb matchedCount (length holdings) && Nat.ltb 0 (length holdings) |}.

(** [netValue * (1 + estimatedChange / 100)] *)
Definition calculateEstimatedValue (netValue estimatedChange : number) : number :=
  mul netValue (add (ofZ 1) (div estimatedChange (ofZ 100))).

Definition quoteMapOf (quotes : list StockQuote.t) : gmap string StockQuote.t :=
  fold_left (fun m quote => <[StockQuote.code quote := quote]> m) quotes ∅.

Definition calculateValuation (now : string) (fund : FundDetail.t)
    (quotes : list StockQuote.t) : Valuation.t :=
  let quoteMap := quoteMapOf quotes in
  let wc := calculateWeightedChange (FundDetail.holdings fund) quoteMap in
  let estimatedValue :=
    calculateEstimatedValue (FundDetail.netValue fund) (WeightedChange.estimatedChange wc) in
  {| Valuation.estimatedValue := estimatedValue
   ; Valuation.estimatedChange := WeightedChange.estimatedChange wc
   ; Valuation.updateTime := now
   ; Valuation.isComplete := WeightedChange.isComplete wc |}.

(** *** Specification-side notions *)

(** The holdings that have a quote in the map, each with its quote, in
    list order. *)
Definition matchedHoldings (quoteMap : gmap string StockQuote.t)
    (holdings : list Holding.t) : list (Holding.t * StockQuote.t) :=
  omap (fun h => pair h <$> quoteMap !! Holding.stockCode h) holdings.

(** [quote.change * (holding.ratio / 100)] *)
Definition contribution (hq : Holding.t * StockQuote.t) : number :=
  mul (StockQuote.change (snd hq)) (div (Holding.ratio (fst hq)) (ofZ 100)).

(** The sum of a list of numbers: the terms are added to [0] one after
    the other in list order, every addition rounded, as in
    [terms.reduce((sum, term) => sum + term, 0)].  Addition of numbers is
    not associative, so the order is part of the notion. *)
Definition sum (terms : list number) : number := fold_left add terms (ofZ 0).

(** Sample data: the two holdings of the design document's example
    (weights 60 and 40, changes +2.0 and -1.0), and three holdings of
    weights 1, 7 and 92 whose quotes all show +10. *)
Definition holding (stockCode : string) (ratio : Z) : Holding.t :=
  Holding.mk stockCode stockCode (ofZ ratio) (ofZ 0) (ofZ 0).

Definition quote (code : string) (change : Z) : StockQuote.t :=
  StockQuote.mk code code (ofZ 10) (ofZ change) (ofZ 0).

Definition designHoldings : list Holding.t := [holding "A" 60; holding "B" 40].
Definition designQuotes : list StockQuote.t := [quote "A" 2; quote "B" (-1)].

Definition unevenHoldings : list Holding.t :=
  [holding "A" 1; holding "B" 7; holding "C" 92].
Definition unevenQuotes : list StockQuote.t :=
  [quote "A" 10; quote "B" 10; quote "C" 10].

End Binary64.

(** ** Strings *)

(** [sub] occurs in [s] at position 0. *)
Fixpoint startsWith (s sub : string) {struct sub} : bool :=
  match sub, s with
  | EmptyString, _ => true
  | String _ _, EmptyString => false
  | String c sub', String d s' => if Ascii.eqb c d then startsWith s' sub' else false
  end.

(** [s.includes(sub)]: [sub] occurs in [s] at some position. *)
Fixpoint includes (s sub : string) : bool :=
  if startsWith s sub then true
  else match s with
       | EmptyString => false
       | String _ rest => includes rest sub
       end.

(** The declarative reading of "the message contains [sub]". *)
Definition Contains (s sub : string) : Prop :=
  exists before after : string, s = (before ++ sub ++ after)%string.

(** An instance of [String.prototype.toLowerCase] on the ASCII letters;
    the error handler below is stated for an arbitrary case mapping. *)
Definition asciiLower (c : ascii) : ascii :=
  let n := nat_of_ascii c in
  if (Nat.leb 65 n && Nat.leb n 90)%bool then ascii_of_nat (n + 32) else c.

Fixpoint asciiToLowerCase (s : string) : string :=
  match s with
  | EmptyString => EmptyString
  | String c rest => String (asciiLower c) (asciiToLowerCase rest)
  end.

(** ** Error handler ([services/error-handler]) *)

Inductive ErrorType : Type := NETWORK | PARSE | STORAGE | NOT_FOUND | UNKNOWN.

(** A JavaScript [Error] object: either one that is not an instance of
    [AppError], of which the code reads only [message], or an [AppError]
    (possibly of a subclass, told apart by [name]). *)
Inductive Error : Type :=
| PlainError (message : string)
| AppErr (a : AppError)
with AppError : Type :=
| mkAppError (name message : string) (type : ErrorType) (retryable : bool)
             (originalError : option Error).

Module AppErrorFields.
Definition name (a : AppError) : string := let '(mkAppError n _ _ _ _) := a in n.
Definition message (a : AppError) : string := let '(mkAppError _ m _ _ _) := a in m.
Definition type (a : AppError) : ErrorType := let '(mkAppError _ _ t _ _) := a in t.
Definition retryable (a : AppError) : bool := let '(mkAppError _ _ _ r _) := a in r.
Definition originalError (a : AppError) : option Error :=
  let '(mkAppError _ _ _ _ o) := a in o.
End AppErrorFields.

Definition errorMessage (e : Error) : string :=
  match e with
  | PlainError m => m
  | AppErr a => AppErrorFields.message a
  end.

(** [new AppError(message, type, retryable, originalError)] and subclasses. *)
Definition newAppError (message : string) (type : ErrorType) (retryable : bool)
    (originalError : option Error) : AppError :=
  mkAppError "AppError" message type retryable originalError.

Definition NetworkError (message : string) (originalError : option Error) : AppError :=
  mkAppError "NetworkError" message NETWORK true originalError.

Definition ParseError (message : string) (originalError : option Error) : AppError :=
  mkAppError "ParseError" message PARSE false originalError.

Definition StorageError (message : string) (originalError : option Error) : AppError :=
  mkAppError "StorageError" message STORAGE true originalError.

Definition NotFoundError (message : string) : AppError :=
  mkAppError "NotFoundError" message NOT_FOUND false None.

Module ErrorState.
Record t : Type := mk
  { type : ErrorType
  ; message : string
  ; retryable : bool
  ; timestamp : string
  ; retryCount : Z }.
End ErrorState.

Module RetryConfig.
Record t : Type := mk
  { maxRetries : Z
  ; baseDelay : Q
  ; maxDelay : Q
  ; backoffMultiplier : Q }.

(** [Partial<RetryConfig>] *)
Record partial : Type := mkPartial
  { maxRetries' : option Z
  ; baseDelay' : option Q
  ; maxDelay' : option Q
  ; backoffMultiplier' : option Q }.
End RetryConfig.

Definition DEFAULT_RETRY_CONFIG : RetryConfig.t :=
  {| RetryConfig.maxRetries := 3
   ; RetryConfig.baseDelay := 1000
   ; RetryConfig.maxDelay := 10000
   ; RetryConfig.backoffMultiplier := 2 |}.

(** The constructor's [{ ...DEFAULT_RETRY_CONFIG, ...config }]. *)
Definition newRetryConfig (config : RetryConfig.partial) : RetryConfig.t :=
  {| RetryConfig.maxRetries :=
       default (RetryConfig.maxRetries DEFAULT_RETRY_CONFIG) (RetryConfig.maxRetries' config)
   ; RetryConfig.baseDelay :=
       default (RetryConfig.baseDelay DEFAULT_RETRY_CONFIG) (RetryConfig.baseDelay' config)
   ; RetryConfig.maxDelay :=
       default (RetryConfig.maxDelay DEFAULT_RETRY_CONFIG) (RetryConfig.maxDelay' config)
   ; RetryConfig.backoffMultiplier :=
       default (RetryConfig.backoffMultiplier DEFAULT_RETRY_CONFIG)
               (RetryConfig.backoffMultiplier' config) |}.

Definition maxHistorySize : nat := 100.

(** What an operation can throw: an [Error], or any other value, of which
    the handler uses only [String(value)]. *)
Inductive Thrown : Type :=
| ThrownError (e : Error)
| ThrownValue (asString : string).

(** A settled promise. *)
Inductive Settled (T : Type) : Type :=
| Fulfilled (value : T)
| Rejected (reason : Thrown).
Arguments Fulfilled {T} value.
Arguments Rejected {T} reason.

(** How a call of [withRetry] ends.  [ThrowsNull] is the final
    [throw lastError] with [lastError] still [null]; [OutOfFuel] is the
    model's own answer when the loop is cut short. *)
Inductive Completion (T : Type) : Type :=
| Returns (value : T)
| Throws (e : Error)
| ThrowsNull
| OutOfFuel.
Arguments Returns {T} value.
Arguments Throws {T} e.
Arguments ThrowsNull {T}.
Arguments OutOfFuel {T}.

(** What [withRetry] does to the outside, in order. *)
Inductive RetryEvent : Type :=
| Attempt
| Sleep (ms : Q).

Module RetryRun.
Record t (T : Type) : Type := mk
  { completion : Completion T
  ; errorHistory : list ErrorState.t
  ; events : list RetryEvent }.
Arguments mk {T}.
Arguments completion {T}.
Arguments errorHistory {T}.
Arguments events {T}.
End RetryRun.

(** [error instanceof Error ? error : new Error(String(error))] *)
Definition asError (error : Thrown) : Error :=
  match error with
  | ThrownError e => e
  | ThrownValue s => PlainError s
  end.

Definition calculateDelay (config : RetryConfig.t) (retryCount : Z) : Q :=
  let delay :=
    (RetryConfig.baseDelay config
     * Qpower (RetryConfig.backoffMultiplier config) (retryCount - 1))%Q in
  Qmin delay (RetryConfig.maxDelay config).

(** [AppError.toErrorState], with [now] for [new Date().toISOString()]. *)
Definition toErrorState (now : string) (error : AppError) : ErrorState.t :=
  {| ErrorState.type := AppErrorFields.type error
   ; ErrorState.message := AppErrorFields.message error
   ; ErrorState.retryable := AppErrorFields.retryable error
   ; ErrorState.timestamp := now
   ; ErrorState.retryCount := 0 |}.

Definition recordError (now : string) (errorHistory : list ErrorState.t)
    (error : AppError) (retryCount : Z) : list ErrorState.t :=
  let base := toErrorState now error in
  let errorState :=
    {| ErrorState.type := ErrorState.type base
     ; ErrorState.message := ErrorState.message base
     ; ErrorState.retryable := ErrorState.retryable base
     ; ErrorState.timestamp := ErrorState.timestamp base
     ; ErrorState.retryCount := retryCount |} in
  let pushed := errorHistory ++ [errorState] in
  if Nat.ltb maxHistorySize (length pushed) then tail pushed else pushed.

Section ErrorHandler.

(** [String.prototype.toLowerCase] *)
Variable toLowerCase : string -> string.

Definition getNetworkErrorMessage (error : Error) : string :=
  let message := toLowerCase (errorMessage error) in
  if includes message "timeout" then "网络连接超时，请检查网络状态"
  else if includes message "econnrefused" then "无法连接到服务器，请稍后重试"
  else if includes message "enotfound" then "无法解析服务器地址，请检查网络连接"
  else "网络连接异常，请检查网络状态".

Definition normalizeError (error : Error) : AppError :=
  match error with
  | AppErr a => a
  | PlainError errMessage =>
      let message := toLowerCase errMessage in
      if includes message "network"
         || includes message "timeout"
         || includes message "econnrefused"
         || includes message "enotfound"
         || includes message "socket"
         || includes message "fetch"
      then NetworkError (getNetworkErrorMessage error) (Some error)
      else if includes message "parse" || includes message "json"
              || includes message "syntax"
      then ParseError "数据解析失败" (Some error)
      else if includes message "storage" || includes message "file"
              || includes message "permission"
      then StorageError "存储操作失败" (Some error)
      else if includes message "not found" || includes message "未找到"
      then NotFoundError errMessage
      else newAppError errMessage UNKNOWN false (Some error)
  end.

(** The message of the error thrown when the retries are used up. *)
Definition exhaustedMessage (config : RetryConfig.t) (context : string)
    (appError : AppError) : string :=
  (context ++ " 失败，已重试 " ++ pretty (RetryConfig.maxRetries config)
           ++ " 次: " ++ AppErrorFields.message appError)%string.

(** The [while (retryCount <= this.config.maxRetries)] loop.
    [fn n] is how the [n]-th invocation of the wrapped operation settles
    (counting from 0); [invocations] counts the invocations made so far;
    [now] is the clock reading at the time an error is recorded. *)
Fixpoint withRetryLoop {T : Type} (fuel : nat) (config : RetryConfig.t)
    (fn : nat -> Settled T) (context now : string)
    (lastError : option Error) (retryCount : Z) (invocations : nat)
    (errorHistory : list ErrorState.t) (events : list RetryEvent)
    : RetryRun.t T :=
  if (retryCount <=? RetryConfig.maxRetries config)%Z then
    match fuel with
    | O => RetryRun.mk OutOfFuel errorHistory events
    | S fuel' =>
        match fn invocations with
        | Fulfilled value =>
            RetryRun.mk (Returns value) errorHistory (events ++ [Attempt])
        | Rejected error =>
            let lastError := asError error in
            let appError := normalizeError lastError in
            if negb (AppErrorFields.retryable appError) then
              RetryRun.mk (Throws (AppErr appError))
                (recordError now errorHistory appError retryCount)
                (events ++ [Attempt])
            else
              let retryCount := (retryCount + 1)%Z in
              if (retryCount >? RetryConfig.maxRetries config)%Z then
                RetryRun.mk
                  (Throws (AppErr (newAppError
                                     (exhaustedMessage config context appError)
                                     (AppErrorFields.type appError) false
                                     (Some lastError))))
                  (recordError now errorHistory appError (retryCount - 1))
                  (events ++ [Attempt])
              else
                let delay := calculateDelay config retryCount in
                withRetryLoop fuel' config fn context now (Some lastError)
                  retryCount (S invocations) errorHistory
                  (events ++ [Attempt; Sleep delay])
        end
    end
  else
    RetryRun.mk
      (match lastError with Some e => Throws e | None => ThrowsNull end)
      errorHistory events.

(** [ErrorHandler.withRetry] on a handler whose history is
    [errorHistory].  The loop body runs at most [maxRetries + 1] times. *)
Definition withRetry {T : Type} (config : RetryConfig.t)
    (errorHistory : list ErrorState.t) (fn : nat -> Settled T)
    (context now : string) : RetryRun.t T :=
  withRetryLoop (Z.to_nat (RetryConfig.maxRetries config + 1)) config fn
    context now None 0%Z 0%nat errorHistory [].

End ErrorHandler.

(** ** Bounded batch executor ([services/ipc-handler], [batchExecute]) *)

Definition MAX_CONCURRENT_REQUESTS : nat := 5.

(** How the promise returned by [batchExecute] behaves.  A rejection keeps
    no reason: [Promise.all] rejects with the reason of whichever operation
    of the chunk rejects first in time, which is outside this model.
    [BatchPending] is the model's answer when the loop is cut short. *)
Inductive BatchResult (R : Type) : Type :=
| BatchResolved (results : list R)
| BatchRejected
| BatchPending.
Arguments BatchResolved {R} results.
Arguments BatchRejected {R}.
Arguments BatchPending {R}.

(** [items.slice(i, j)] for [0 <= i <= j]. *)
Definition slice {T : Type} (items : list T) (i j : nat) : list T :=
  take (j - i) (drop i items).

(** [await Promise.all(batch.map(fn))], where [fn item = None] stands for
    an operation whose promise rejects. *)
Definition promiseAll {T R : Type} (fn : T -> option R) (batch : list T)
    : option (list R) :=
  mapM fn batch.

(** The [for (let i = 0; i < items.length; i += concurrency)] loop. *)
Fixpoint batchExecuteLoop {T R : Type} (fuel : nat) (items : list T)
    (fn : T -> option R) (concurrency : nat) (i : nat) (results : list R)
    : BatchResult R :=
  if Nat.ltb i (length items) then
    match fuel with
    | O => BatchPending
    | S fuel' =>
        let batch := slice items i (i + concurrency) in
        match promiseAll fn batch with
        | Some batchResults =>
            batchExecuteLoop fuel' items fn concurrency (i + concurrency)
              (results ++ batchResults)
        | None => BatchRejected
        end
    end
  else BatchResolved results.

(** With [concurrency >= 1] the body runs at most [items.length] times. *)
Definition batchExecute {T R : Type} (items : list T) (fn : T -> option R)
    (concurrency : nat) : BatchResult R :=
  batchExecuteLoop (length items) items fn concurrency 0 [].

(** The sequential counterpart:
    [for (const item of items) results.push(await fn(item))]. *)
Fixpoint sequentialMap {T R : Type} (items : list T) (fn : T -> option R)
    (results : list R) : BatchResult R :=
  match items with
  | [] => BatchResolved results
  | item :: rest =>
      match fn item with
      | Some r => sequentialMap rest fn (results ++ [r])
      | None => BatchRejected
      end
  end.

(** ** Refresh orchestrator ([IPCHandler.updateAllValuations]) *)

Module Fund.
Record t : Type := mk
  { code : string
  ; name : string
  ; netValue : Q
  ; netValueDate : string
  ; estimatedValue : Q
  ; estimatedChange : Q
  ; updateTime : string
  ; isRealValue : option bool
  ; holdings : list Holding.t }.
End Fund.

(** The object resolved by [fundFetcher.getFundValuation]. *)
Module FundValuation.
Record t : Type := mk
  { netValue : Q
  ; netValueDate : string
  ; estimatedValue : Q
  ; estimatedChange : Q
  ; updateTime : string
  ; isRealValue : bool
  ; isTradingDay : bool }.
End FundValuation.

(** Calls made to the collaborators during one refresh, in order. *)
Inductive RefreshEvent : Type :=
| GetFundValuation (code : string)
| GetStockQuotes (codes : list string)
| SaveWatchlist (funds : list Fund.t).

Inductive RefreshCompletion : Type :=
| RefreshReturns (funds : list Fund.t)
| RefreshThrows (reason : Thrown)
| RefreshBatchRejected
| RefreshPending.

Module RefreshRun.
Record t : Type := mk
  { completion : RefreshCompletion
  ; events : list RefreshEvent }.
End RefreshRun.

(** [allStockCodes.add(code)] on an insertion-ordered [Set]. *)
Definition setAdd (s : list string) (x : string) : list string :=
  if decide (x ∈ s) then s else s ++ [x].

(** [Array.from(allStockCodes)] after the two nested loops. *)
Definition collectStockCodes (watchlist : list Fund.t) : list string :=
  fold_left
    (fun acc fund =>
       fold_left (fun acc holding => setAdd acc (Holding.stockCode holding))
                 (Fund.holdings fund) acc)
    watchlist [].

(** [new Map(quotes.map((q) => [q.code, q]))] *)
Definition newQuoteMap (quotes : list StockQuote.t) : gmap string StockQuote.t :=
  fold_left (fun m entry => <[fst entry := snd entry]> m)
            (map (fun q => (StockQuote.code q, q)) quotes) ∅.

(** [{ ...h, change: quote?.change ?? h.change, price: quote?.price ?? h.price }] *)
Definition updateHolding (quoteMap : gmap string StockQuote.t) (h : Holding.t)
    : Holding.t :=
  let quote := quoteMap !! Holding.stockCode h in
  {| Holding.stockCode := Holding.stockCode h
   ; Holding.stockName := Holding.stockName h
   ; Holding.ratio := Holding.ratio h
   ; Holding.change :=
       match quote with Some q => StockQuote.change q | None => Holding.change h end
   ; Holding.price :=
       match quote with Some q => StockQuote.price q | None => Holding.price h end |}.

(** The callback of [watchlist.map((fund, index) => ...)], with
    [fundValuation = valuations[index]]. *)
Definition mergeFund (now : string) (quoteMap : gmap string StockQuote.t)
    (hasStockQuotes : bool) (fund : Fund.t)
    (fundValuation : option FundValuation.t) : Fund.t :=
  let updatedHoldings :=
    if hasStockQuotes then map (updateHolding quoteMap) (Fund.holdings fund)
    else Fund.holdings fund in
  match fundValuation with
  | Some fundValuation =>
      {| Fund.code := Fund.code fund
       ; Fund.name := Fund.name fund
       ; Fund.netValue :=
           if FundValuation.isRealValue fundValuation
           then FundValuation.netValue fundValuation else Fund.netValue fund
       ; Fund.netValueDate :=
           if FundValuation.isRealValue fundValuation
           then FundValuation.netValueDate fundValuation else Fund.netValueDate fund
       ; Fund.estimatedValue := FundValuation.estimatedValue fundValuation
       ; Fund.estimatedChange := FundValuation.estimatedChange fundValuation
       ; Fund.updateTime := FundValuation.updateTime fundValuation
       ; Fund.isRealValue := Some (FundValuation.isRealValue fundValuation)
       ; Fund.holdings := updatedHoldings |}
  | None =>
      if hasStockQuotes then
        let fundQuotes :=
          omap (fun h => quoteMap !! Holding.stockCode h) (Fund.holdings fund) in
        let calculatedValuation :=
          calculateValuation now
            {| FundDetail.code := Fund.code fund
             ; FundDetail.name := Fund.name fund
             ; FundDetail.type := ""
             ; FundDetail.netValue := Fund.netValue fund
             ; FundDetail.netValueDate := Fund.netValueDate fund
             ; FundDetail.holdings := Fund.holdings fund |}
            fundQuotes in
        {| Fund.code := Fund.code fund
         ; Fund.name := Fund.name fund
         ; Fund.netValue := Fund.netValue fund
         ; Fund.netValueDate := Fund.netValueDate fund
         ; Fund.estimatedValue := Valuation.estimatedValue calculatedValuation
         ; Fund.estimatedChange := Valuation.estimatedChange calculatedValuation
         ; Fund.updateTime := Valuation.updateTime calculatedValuation
         ; Fund.isRealValue := Some false
         ; Fund.holdings := updatedHoldings |}
      else fund
  end.

(** [watchlist.map((fund, index) => ...)] reading [valuations[index]];
    an index past the end of [valuations] reads [undefined].  [now index]
    is the clock reading while the fund at [index] is merged. *)
Fixpoint mergeFunds (now : nat -> string) (quoteMap : gmap string StockQuote.t)
    (hasStockQuotes : bool) (watchlist : list Fund.t)
    (valuations : list (option FundValuation.t)) (index : nat) : list Fund.t :=
  match watchlist with
  | [] => []
  | fund :: rest =>
      mergeFund (now index) quoteMap hasStockQuotes fund (mjoin (valuations !! index))
      :: mergeFunds now quoteMap hasStockQuotes rest valuations (S index)
  end.

(** [valuations.some((v) => v?.isTradingDay)] *)
Definition someTradingDay (valuations : list (option FundValuation.t)) : bool :=
  existsb (fun v => match v with
                    | Some v => FundValuation.isTradingDay v
                    | None => false
                    end) valuations.

Section RefreshOrchestrator.

(** What [fundFetcher.getFundValuation(code)] resolves to in this cycle;
    the fetcher catches its own failures and resolves to [null]. *)
Variable getFundValuation : string -> option FundValuation.t.

(** What the quote request of [stockFetcher.getStockQuotes] yields for a
    non-empty code list, after its own retries ([[]] on failure). *)
Variable requestQuotes : list string -> list StockQuote.t.

(** [storage.saveWatchlist(funds)]: [None] when it returns, [Some reason]
    when it throws.  The storage service is a collaborator. *)
Variable saveWatchlist : list Fund.t -> option Thrown.

(** [new Date().toISOString()] as read by the valuation calculator while
    the fund at the given index is merged. *)
Variable now : nat -> string.

Definition getStockQuotes (codes : list string) : list StockQuote.t :=
  match codes with
  | [] => []
  | _ => requestQuotes codes
  end.

(** [watchlist] is what [storage.getWatchlist()] returned. *)
Definition updateAllValuations (watchlist : list Fund.t) : RefreshRun.t :=
  if Nat.eqb (length watchlist) 0 then RefreshRun.mk (RefreshReturns []) []
  else
    let fetched := map (fun fund => GetFundValuation (Fund.code fund)) watchlist in
    match batchExecute watchlist
            (fun fund => Some (getFundValuation (Fund.code fund)))
            MAX_CONCURRENT_REQUESTS with
    | BatchRejected => RefreshRun.mk RefreshBatchRejected fetched
    | BatchPending => RefreshRun.mk RefreshPending fetched
    | BatchResolved valuations =>
        let isTradingDay := someTradingDay valuations in
        if negb isTradingDay then RefreshRun.mk (RefreshReturns watchlist) fetched
        else
          let allStockCodes := collectStockCodes watchlist in
          let quotes := getStockQuotes allStockCodes in
          let quoteMap := newQuoteMap quotes in
          let hasStockQuotes := Nat.ltb 0 (length quotes) in
          let updatedFunds :=
            mergeFunds now quoteMap hasStockQuotes watchlist valuations 0 in
          let events :=
            fetched ++ [GetStockQuotes allStockCodes; SaveWatchlist updatedFunds] in
          match saveWatchlist updatedFunds with
          | Some reason => RefreshRun.mk (RefreshThrows reason) events
          | None => RefreshRun.mk (RefreshReturns updatedFunds) events
          end
    end.

End RefreshOrchestrator.

(** ** Update scheduler ([services/update-scheduler]) *)

Module SchedulerConfig.
Record t : Type := mk
  { updateInterval : Q
  ; maxRetries : Z
  ; retryDelay : Q }.
End SchedulerConfig.

Definition DEFAULT_CONFIG : SchedulerConfig.t :=
  {| SchedulerConfig.updateInterval := 60000
   ; SchedulerConfig.maxRetries := 3
   ; SchedulerConfig.retryDelay := 2000 |}.

Module SchedulerStatus.
Record t : Type := mk
  { isRunning : bool
  ; lastUpdateTime : option string
  ; lastError : option string
  ; consecutiveErrors : Z }.
End SchedulerStatus.

Definition initialStatus : SchedulerStatus.t :=
  {| SchedulerStatus.isRunning := false
   ; SchedulerStatus.lastUpdateTime := None
   ; SchedulerStatus.lastError := None
   ; SchedulerStatus.consecutiveErrors := 0 |}.

(** The part of a [Date] that the scheduler reads: [getDay()] (0 is
    Sunday, 6 is Saturday), [getHours()], [getMinutes()], [getSeconds()]
    and [toISOString()]. *)
Module JsDate.
Record t : Type := mk
  { day : Z
  ; hours : Z
  ; minutes : Z
  ; seconds : Z
  ; iso : string }.
End JsDate.

Definition isMarketOpen (now : JsDate.t) : bool :=
  let day := JsDate.day now in
  let hours := JsDate.hours now in
  let minutes := JsDate.minutes now in
  let time := (hours * 60 + minutes)%Z in
  if ((day =? 0) || (day =? 6))%Z then false
  else
    let morningStart := (9 * 60 + 30)%Z in
    let morningEnd := (11 * 60 + 30)%Z in
    let afternoonStart := (13 * 60)%Z in
    let afternoonEnd := (15 * 60)%Z in
    ((morningStart <=? time) && (time <=? morningEnd)
     || (afternoonStart <=? time) && (time <=? afternoonEnd))%Z.

(** What the scheduler does to the outside: the two notifications handed
    to the IPC handler for the renderer, and the one-shot timer
    [setTimeout(() => this.executeUpdate(), ms)]. *)
Inductive SchedulerEffect : Type :=
| SendValuationUpdate (funds : list Fund.t)
| SendError (error : string)
| SetTimeout (ms : Q).

(** [error instanceof Error ? error.message : '未知错误'] *)
Definition updateErrorMessage (error : Thrown) : string :=
  match error with
  | ThrownError e => errorMessage e
  | ThrownValue _ => "未知错误"
  end.

Definition handleUpdateError (config : SchedulerConfig.t)
    (status : SchedulerStatus.t) (error : Thrown)
    : SchedulerStatus.t * list SchedulerEffect :=
  let errorMessage := updateErrorMessage error in
  let status :=
    {| SchedulerStatus.isRunning := SchedulerStatus.isRunning status
     ; SchedulerStatus.lastUpdateTime := SchedulerStatus.lastUpdateTime status
     ; SchedulerStatus.lastError := Some errorMessage
     ; SchedulerStatus.consecutiveErrors :=
         (SchedulerStatus.consecutiveErrors status + 1)%Z |} in
  if (SchedulerStatus.consecutiveErrors status <? SchedulerConfig.maxRetries config)%Z
  then (status, [SetTimeout (SchedulerConfig.retryDelay config)])
  else (status,
        [SendError ("网络连接异常，请检查网络后重试 (" ++ errorMessage ++ ")")%string]).

(** One call of [executeUpdate(force)].  [now] is the clock read by the
    market-hours check, [cycle] is how the awaited
    [ipcHandler.updateAllValuations()] settles, and [finishedAt] is
    [new Date().toISOString()] read after it. *)
Definition executeUpdate (config : SchedulerConfig.t) (status : SchedulerStatus.t)
    (force : bool) (now : JsDate.t) (cycle : Settled (list Fund.t))
    (finishedAt : string) : SchedulerStatus.t * list SchedulerEffect :=
  if negb force && negb (isMarketOpen now) then (status, [])
  else
    match cycle with
    | Fulfilled updatedFunds =>
        ({| SchedulerStatus.isRunning := SchedulerStatus.isRunning status
          ; SchedulerStatus.lastUpdateTime := Some finishedAt
          ; SchedulerStatus.lastError := None
          ; SchedulerStatus.consecutiveErrors := 0 |},
         [SendValuationUpdate updatedFunds])
    | Rejected error => handleUpdateError config status error
    end.

(** One refresh cycle as the scheduler sees it. *)
Module Cycle.
Record t : Type := mk
  { force : bool
  ; now : JsDate.t
  ; outcome : Settled (list Fund.t)
  ; finishedAt : string }.
End Cycle.

(** Successive calls of [executeUpdate], one after the other, with the
    effects of all of them in order. *)
Fixpoint runCycles (config : SchedulerConfig.t) (status : SchedulerStatus.t)
    (cycles : list Cycle.t) : SchedulerStatus.t * list SchedulerEffect :=
  match cycles with
  | [] => (status, [])
  | c :: rest =>
      let '(status1, effects1) :=
        executeUpdate config status (Cycle.force c) (Cycle.now c)
                      (Cycle.outcome c) (Cycle.finishedAt c) in
      let '(status2, effects2) := runCycles config status1 rest in
      (status2, effects1 ++ effects2)
  end.

(** A cycle that ran (forced, or inside trading hours) and whose refresh
    failed. *)
Definition failedCycle (c : Cycle.t) : bool :=
  (Cycle.force c || isMarketOpen (Cycle.now c))
  && match Cycle.outcome c with Rejected _ => true | Fulfilled _ => false end.

(** A cycle that ran and whose refresh succeeded. *)
Definition successfulCycle (c : Cycle.t) : bool :=
  (Cycle.force c || isMarketOpen (Cycle.now c))
  && match Cycle.outcome c with Rejected _ => false | Fulfilled _ => true end.

Definition isSendError (e : SchedulerEffect) : bool :=
  match e with SendError _ => true | _ => false end.

Definition isSetTimeout (e : SchedulerEffect) : bool :=
  match e with SetTimeout _ => true | _ => false end.

(** Clock readings compared as (hour, minute) pairs. *)
Definition ClockLe (h1 m1 h2 m2 : Z) : Prop :=
  (h1 < h2 \/ (h1 = h2 /\ m1 <= m2))%Z.

(** The reading of [now] lies between [h1:m1] and [h2:m2], both included. *)
Definition WithinWindow (now : JsDate.t) (h1 m1 h2 m2 : Z) : Prop :=
  ClockLe h1 m1 (JsDate.hours now) (JsDate.minutes now)
  /\ ClockLe (JsDate.hours now) (JsDate.minutes now) h2 m2.

(** The ranges that [getDay], [getHours], [getMinutes] and [getSeconds]
    guarantee. *)
Definition ValidDate (now : JsDate.t) : Prop :=
  (0 <= JsDate.day now <= 6 /\ 0 <= JsDate.hours now <= 23
   /\ 0 <= JsDate.minutes now <= 59 /\ 0 <= JsDate.seconds now <= 59)%Z.

Definition clockAt (day hours minutes : Z) : JsDate.t :=
  JsDate.mk day hours minutes 0 "".

(** *** Specification-side notions for the error classifier *)

Definition networkWords : list string :=
  ["network"; "timeout"; "econnrefused"; "enotfound"; "socket"; "fetch"].
Definition parseWords : list string := ["parse"; "json"; "syntax"].
Definition storageWords : list string := ["storage"; "file"; "permission"].
Definition notFoundWords : list string := ["not found"; "未找到"].

(** The message contains one of the words. *)
Definition ContainsAny (s : string) (words : list string) : Prop :=
  exists w, In w words /\ Contains s w.

(** The categories in the order in which the classifier looks at them,
    each with its words and its retryability. *)
Definition classificationOrder : list (ErrorType * list string * bool) :=
  [ (NETWORK, networkWords, true)
  ; (PARSE, parseWords, false)
  ; (STORAGE, storageWords, true)
  ; (NOT_FOUND, notFoundWords, false) ].

(** The categories of which the message contains a word, in that order. *)
Definition matchingCategories (message : string)
    : list (ErrorType * list string * bool) :=
  List.filter (fun c => existsb (includes message) (snd (fst c))) classificationOrder.

(** The kind and retryability of the first category, or the default. *)
Definition firstMatch (message : string) : ErrorType * bool :=
  match matchingCategories message with
  | (kind, _, retry) :: _ => (kind, retry)
  | [] => (UNKNOWN, false)
  end.

Definition classification (a : AppError) : ErrorType * bool :=
  (AppErrorFields.type a, AppErrorFields.retryable a).

(** *** Specification-side notions for the retry executor *)

(** The attempt failed with an error that the classifier calls retryable. *)
Definition retryableFailure (toLowerCase : string -> string) {T : Type}
    (s : Settled T) : bool :=
  match s with
  | Fulfilled _ => false
  | Rejected x => AppErrorFields.retryable (normalizeError toLowerCase (asError x))
  end.

(** [n] failed attempts, numbered from [k], each followed by its delay. *)
Definition retrySteps (config : RetryConfig.t) (k n : nat) : list RetryEvent :=
  flat_map (fun i => [Attempt; Sleep (calculateDelay config (Z.of_nat i + 1))])
           (seq k n).

Definition isAttempt (e : RetryEvent) : bool :=
  match e with Attempt => true | Sleep _ => false end.

Definition isSleep (e : RetryEvent) : bool :=
  match e with Attempt => false | Sleep _ => true end.

Definition attemptsMade (events : list RetryEvent) : nat :=
  length (List.filter isAttempt events).

Definition sleepsMade (events : list RetryEvent) : nat :=
  length (List.filter isSleep events).

(** The entry that [recordError] appends. *)
Definition recordedState (now : string) (error : AppError) (retryCount : Z)
    : ErrorState.t :=
  {| ErrorState.type := AppErrorFields.type error
   ; ErrorState.message := AppErrorFields.message error
   ; ErrorState.retryable := AppErrorFields.retryable error
   ; ErrorState.timestamp := now
   ; ErrorState.retryCount := retryCount |}.

(** An operation that always fails with the same plain error. *)
Definition alwaysFails (message : string) : nat -> Settled unit :=
  fun _ => Rejected (ThrownError (PlainError message)).

(** *** Specification-side notions for the batch executor *)

(** The outcome of a batch in terms of [mapM], the map over the whole
    list that fails as soon as one operation fails; [results] are the
    results already collected. *)
Definition settle {R : Type} (results : list R) (rest : option (list R))
    : BatchResult R :=
  match rest with
  | Some rs => BatchResolved (results ++ rs)
  | None => BatchRejected
  end.

(** *** Specification-side notions for the refresh orchestrator *)

(** A fetcher that has nothing for any fund, a quote request that yields
    nothing, and a storage that accepts every save. *)
Definition noValuation : string -> option FundValuation.t := fun _ => None.
Definition noQuotes : list string -> list StockQuote.t := fun _ => [].
Definition saveSucceeds : list Fund.t -> option Thrown := fun _ => None.
Definition fixedClock : nat -> string := fun _ => "2026-01-05T02:00:00.000Z".

Definition sampleFund (code : string) : Fund.t :=
  {| Fund.code := code
   ; Fund.name := "sample"
   ; Fund.netValue := 1.5
   ; Fund.netValueDate := "2026-01-02"
   ; Fund.estimatedValue := 1.512
   ; Fund.estimatedChange := 0.8
   ; Fund.updateTime := "2026-01-02 15:00"
   ; Fund.isRealValue := None
   ; Fund.holdings := [Holding.mk "600000" "bank" 60 2 10] |}.

(** A fetcher that reports a live session for the fund "000001" only. *)
Definition onlyFirstValued (code : string) : option FundValuation.t :=
  if String.eqb code "000001"
  then Some (FundValuation.mk 1.5 "2026-01-02" 1.52 1.3 "2026-01-05 10:00" false true)
  else None.

(** *** Specification-side notions for the scheduler *)

(** The text of the notification sent when no retry is scheduled. *)
Definition terminalErrorMessage (error : Thrown) : string :=
  ("网络连接异常，请检查网络后重试 (" ++ updateErrorMessage error ++ ")")%string.

(** What a failed cycle does once it has brought the counter to [count]. *)
Definition failureEffect (config : SchedulerConfig.t) (count : Z) (c : Cycle.t)
    : SchedulerEffect :=
  if (count <? SchedulerConfig.maxRetries config)%Z
  then SetTimeout (SchedulerConfig.retryDelay config)
  else SendError (match Cycle.outcome c with
                  | Rejected error => terminalErrorMessage error
                  | Fulfilled _ => ""
                  end).

(** The effects of failed cycles that bring the counter to [count + 1],
    [count + 2], and so on. *)
Fixpoint failureEffects (config : SchedulerConfig.t) (count : Z)
    (cycles : list Cycle.t) : list SchedulerEffect :=
  match cycles with
  | [] => []
  | c :: rest =>
      failureEffect config (count + 1) c :: failureEffects config (count + 1) rest
  end.

(** A forced cycle whose refresh fails with the given message. *)
Definition failingCycle (message : string) : Cycle.t :=
  {| Cycle.force := true
   ; Cycle.now := clockAt 0 3 0
   ; Cycle.outcome := Rejected (ThrownError (PlainError message))
   ; Cycle.finishedAt := "2026-01-04T03:00:01.000Z" |}.

(** A cycle inside trading hours whose refresh succeeds with no fund. *)
Definition passingCycle : Cycle.t :=
  {| Cycle.force := false
   ; Cycle.now := clockAt 1 10 0
   ; Cycle.outcome := Fulfilled []
   ; Cycle.finishedAt := "2026-01-05T02:00:01.000Z" |}.

(** *** Further notions for the error handler *)

(** [getLastError()]: the newest entry of the history, or [null]. *)
Definition getLastError (errorHistory : list ErrorState.t) : option ErrorState.t :=
  last errorHistory.

(** How an [async] function that only awaits [withRetry] settles.  A thrown
    [null] is a value that is not an [Error], with [String(null)] for its
    text; the last case never arises. *)
Definition settledOf {T : Type} (c : Completion T) : Settled T :=
  match c with
  | Returns value => Fulfilled value
  | Throws e => Rejected (ThrownError e)
  | ThrowsNull => Rejected (ThrownValue "null")
  | OutOfFuel => Rejected (ThrownValue "")
  end.

(** An operation that fails [n] times with a plain error and then gives
    [value]. *)
Definition failsThenSucceeds {T : Type} (n : nat) (message : string) (value : T)
    : nat -> Settled T :=
  fun i => if Nat.ltb i n then Rejected (ThrownError (PlainError message))
           else Fulfilled value.

(** The four texts that a network error can carry. *)
Definition networkMessages : list string :=
  [ "网络连接超时，请检查网络状态"; "无法连接到服务器，请稍后重试"
  ; "无法解析服务器地址，请检查网络连接"; "网络连接异常，请检查网络状态" ].

(** *** Further notions for the valuation calculator *)

(** The last quote of the list that carries the given code. *)
Definition lastQuoteFor (code : string) (quotes : list StockQuote.t)
    : option StockQuote.t :=
  last (List.filter (fun q => String.eqb (StockQuote.code q) code) quotes).

(** *** Further notions for the batch executor *)

(** The loop of [batchExecute] once more, with the chunks that it starts
    recorded in order. *)
Fixpoint batchExecuteTrace {T R : Type} (fuel : nat) (items : list T)
    (fn : T -> option R) (concurrency : nat) (i : nat) (results : list R)
    (started : list (list T)) : BatchResult R * list (list T) :=
  if Nat.ltb i (length items) then
    match fuel with
    | O => (BatchPending, started)
    | S fuel' =>
        let batch := slice items i (i + concurrency) in
        match promiseAll fn batch with
        | Some batchResults =>
            batchExecuteTrace fuel' items fn concurrency (i + concurrency)
              (results ++ batchResults) (started ++ [batch])
        | None => (BatchRejected, started ++ [batch])
        end
    end
  else (BatchResolved results, started).

Definition batchExecuteStarted {T R : Type} (items : list T) (fn : T -> option R)
    (concurrency : nat) : list (list T) :=
  snd (batchExecuteTrace (length items) items fn concurrency 0 [] []).

(** The consecutive chunks of [size] items of a list (the last one may be
    shorter); [fuel] bounds their number. *)
Fixpoint chunksFrom {T : Type} (fuel size : nat) (l : list T) : list (list T) :=
  match fuel with
  | O => []
  | S fuel' =>
      match l with
      | [] => []
      | _ => take size l :: chunksFrom fuel' size (drop size l)
      end
  end.

Definition chunks {T : Type} (size : nat) (l : list T) : list (list T) :=
  chunksFrom (length l) size l.

(** The chunks up to and including the first one in which an operation
    fails; all of them if none fails. *)
Fixpoint startedChunks {T R : Type} (fn : T -> option R) (chs : list (list T))
    : list (list T) :=
  match chs with
  | [] => []
  | b :: rest =>
      match mapM fn b with
      | Some _ => b :: startedChunks fn rest
      | None => [b]
      end
  end.

(** *** Further notions for the refresh orchestrator *)

(** What identifies a holding, and a fund with its holdings: the parts
    that no refresh is meant to touch. *)
Definition holdingIdentity (h : Holding.t) : string * string * Q :=
  (Holding.stockCode h, Holding.stockName h, Holding.ratio h).

Definition fundIdentity (fund : Fund.t) : string * string * list (string * string * Q) :=
  (Fund.code fund, Fund.name fund, map holdingIdentity (Fund.holdings fund)).

Definition isSaveWatchlist (e : RefreshEvent) : bool :=
  match e with SaveWatchlist _ => true | _ => false end.

Definition isGetStockQuotes (e : RefreshEvent) : bool :=
  match e with GetStockQuotes _ => true | _ => false end.

(** Some fund of the list has a valuation that reports a live session. *)
Definition SomeLiveSession (getFundValuation : string -> option FundValuation.t)
    (watchlist : list Fund.t) : Prop :=
  exists fund v, In fund watchlist
                 /\ getFundValuation (Fund.code fund) = Some v
                 /\ FundValuation.isTradingDay v = true.

(** A quote request that answers with one quote for "600000". *)
Definition oneQuote : list string -> list StockQuote.t :=
  fun _ => [StockQuote.mk "600000" "bank" 11 3 0.3].

(** *** The scheduler's life cycle ([start], [stop], [updateConfig]) *)

(** The scheduler object: [intervalId] is the handle of the periodic
    timer, a number here. *)
Module Scheduler.
Record t : Type := mk
  { config : SchedulerConfig.t
  ; intervalId : option nat
  ; status : SchedulerStatus.t }.
End Scheduler.

(** What [start] and [stop] do to the outside: [this.executeUpdate()]
    launched without being awaited, [setInterval] returning the handle
    [id], and [clearInterval(id)]. *)
Inductive TimerEffect : Type :=
| LaunchUpdate
| SetInterval (id : nat) (ms : Q)
| ClearInterval (id : nat).

Definition setRunning (status : SchedulerStatus.t) (running : bool)
    : SchedulerStatus.t :=
  {| SchedulerStatus.isRunning := running
   ; SchedulerStatus.lastUpdateTime := SchedulerStatus.lastUpdateTime status
   ; SchedulerStatus.lastError := SchedulerStatus.lastError status
   ; SchedulerStatus.consecutiveErrors := SchedulerStatus.consecutiveErrors status |}.

(** [start()]; [freshId] is the handle that [setInterval] returns.  The
    update that it launches suspends at its first [await] before it
    touches the status, so that [start] itself changes [isRunning] and
    [intervalId] only. *)
Definition start (freshId : nat) (s : Scheduler.t) : Scheduler.t * list TimerEffect :=
  if SchedulerStatus.isRunning (Scheduler.status s) then (s, [])
  else
    ({| Scheduler.config := Scheduler.config s
      ; Scheduler.intervalId := Some freshId
      ; Scheduler.status := setRunning (Scheduler.status s) true |},
     [LaunchUpdate;
      SetInterval freshId (SchedulerConfig.updateInterval (Scheduler.config s))]).

(** [stop()] *)
Definition stop (s : Scheduler.t) : Scheduler.t * list TimerEffect :=
  if negb (SchedulerStatus.isRunning (Scheduler.status s)) then (s, [])
  else
    ({| Scheduler.config := Scheduler.config s
      ; Scheduler.intervalId := None
      ; Scheduler.status := setRunning (Scheduler.status s) false |},
     match Scheduler.intervalId s with
     | Some id => [ClearInterval id]
     | None => []
     end).

(** [Partial<SchedulerConfig>] and [{ ...this.config, ...config }] *)
Module PartialSchedulerConfig.
Record t : Type := mk
  { updateInterval : option Q
  ; maxRetries : option Z
  ; retryDelay : option Q }.
End PartialSchedulerConfig.

Definition mergeSchedulerConfig (base : SchedulerConfig.t)
    (config : PartialSchedulerConfig.t) : SchedulerConfig.t :=
  {| SchedulerConfig.updateInterval :=
       default (SchedulerConfig.updateInterval base)
               (PartialSchedulerConfig.updateInterval config)
   ; SchedulerConfig.maxRetries :=
       default (SchedulerConfig.maxRetries base)
               (PartialSchedulerConfig.maxRetries config)
   ; SchedulerConfig.retryDelay :=
       default (SchedulerConfig.retryDelay base)
               (PartialSchedulerConfig.retryDelay config) |}.

(** [new UpdateScheduler(config)] *)
Definition newScheduler (config : PartialSchedulerConfig.t) : Scheduler.t :=
  {| Scheduler.config := mergeSchedulerConfig DEFAULT_CONFIG config
   ; Scheduler.intervalId := None
   ; Scheduler.status := initialStatus |}.

(** [updateConfig(config)] *)
Definition updateConfig (freshId : nat) (config : PartialSchedulerConfig.t)
    (s : Scheduler.t) : Scheduler.t * list TimerEffect :=
  let wasRunning := SchedulerStatus.isRunning (Scheduler.status s) in
  let '(s1, effects1) := if wasRunning then stop s else (s, []) in
  let s2 :=
    {| Scheduler.config := mergeSchedulerConfig (Scheduler.config s1) config
     ; Scheduler.intervalId := Scheduler.intervalId s1
     ; Scheduler.status := Scheduler.status s1 |} in
  let '(s3, effects3) := if wasRunning then start freshId s2 else (s2, []) in
  (s3, effects1 ++ effects3).

(** A call made on the scheduler from outside. *)
Inductive SchedulerCall : Type :=
| CallStart (freshId : nat)
| CallStop
| CallUpdateConfig (freshId : nat) (config : PartialSchedulerConfig.t).

Definition call (c : SchedulerCall) (s : Scheduler.t) : Scheduler.t * list TimerEffect :=
  match c with
  | CallStart freshId => start freshId s
  | CallStop => stop s
  | CallUpdateConfig freshId config => updateConfig freshId config s
  end.

Fixpoint calls (cs : list SchedulerCall) (s : Scheduler.t)
    : Scheduler.t * list TimerEffect :=
  match cs with
  | [] => (s, [])
  | c :: rest =>
      let '(s1, effects1) := call c s in
      let '(s2, effects2) := calls rest s1 in
      (s2, effects1 ++ effects2)
  end.

(** The periodic timers that a sequence of effects leaves armed. *)
Fixpoint armedTimers (effects : list TimerEffect) (armed : list nat) : list nat :=
  match effects with
  | [] => armed
  | LaunchUpdate :: rest => armedTimers rest armed
  | SetInterval id _ :: rest => armedTimers rest (armed ++ [id])
  | ClearInterval id :: rest =>
      armedTimers rest (List.filter (fun x => negb (Nat.eqb x id)) armed)
  end.

(** The cycles that were not skipped by the market-hours check. *)
Definition ranCycle (c : Cycle.t) : bool :=
  Cycle.force c || isMarketOpen (Cycle.now c).

(** The status shows an error exactly while the failure counter is
    positive. *)
Definition StatusConsistent (status : SchedulerStatus.t) : Prop :=
  (0 <= SchedulerStatus.consecutiveErrors status)%Z
  /\ (SchedulerStatus.lastError status = None
      <-> SchedulerStatus.consecutiveErrors status = 0%Z).

(** The periodic timer is armed exactly while the scheduler runs, and it
    is the only one armed. *)
Definition TimerConsistent (s : Scheduler.t) (armed : list nat) : Prop :=
  armed = match Scheduler.intervalId s with Some id => [id] | None => [] end
  /\ (SchedulerStatus.isRunning (Scheduler.status s) = true
      <-> is_Some (Scheduler.intervalId s)).

(** ** Stock quote fetcher ([StockFetcher]) *)

(** One entry of [data.diff]: [f2], [f3], [f4] are [Some] when the field
    is a number; [f12], [f14] are [Some] when the field is present. *)
Module QuoteItem.
Record t : Type := mk
  { f2 : option Q
  ; f3 : option Q
  ; f4 : option Q
  ; f12 : option string
  ; f14 : option string }.
End QuoteItem.

(** [x || ''] on a string that may be absent: the empty string is falsy. *)
Definition orEmpty (x : option string) : string := default "" x.

Definition quoteOfItem (item : QuoteItem.t) : StockQuote.t :=
  {| StockQuote.code := orEmpty (QuoteItem.f12 item)
   ; StockQuote.name := orEmpty (QuoteItem.f14 item)
   ; StockQuote.price := default 0%Q (QuoteItem.f2 item)
   ; StockQuote.change := default 0%Q (QuoteItem.f3 item)
   ; StockQuote.changeAmount := default 0%Q (QuoteItem.f4 item) |}.

(** The [for (const item of data.data.diff)] loop inside its [try]: an
    entry that is [null] makes the property access throw, and what was
    pushed before it is returned. *)
Fixpoint parseQuoteItems (items : list (option QuoteItem.t)) (quotes : list StockQuote.t)
    : list StockQuote.t :=
  match items with
  | [] => quotes
  | None :: _ => quotes
  | Some item :: rest => parseQuoteItems rest (quotes ++ [quoteOfItem item])
  end.

(** [parseQuotes(response.data)]: [diff] is [Some] when [data.data.diff]
    is an array, [None] in every other case (no body, no [data], no
    [diff], something that cannot be iterated). *)
Definition parseQuotes (diff : option (list (option QuoteItem.t))) : list StockQuote.t :=
  match diff with
  | None => []
  | Some items => parseQuoteItems items []
  end.

Definition isDigit (c : ascii) : bool :=
  let n := nat_of_ascii c in Nat.leb 48 n && Nat.leb n 57.

(** [code.replace(/[^\d]/g, '')] *)
Fixpoint cleanCode (code : string) : string :=
  match code with
  | EmptyString => EmptyString
  | String c rest => if isDigit c then String c (cleanCode rest) else cleanCode rest
  end.

Definition formatSecId (code : string) : string :=
  let cleanCode := cleanCode code in
  if startsWith cleanCode "6" then ("1." ++ cleanCode)%string
  else if startsWith cleanCode "0" || startsWith cleanCode "3"
  then ("0." ++ cleanCode)%string
  else if startsWith cleanCode "4" || startsWith cleanCode "8"
  then ("0." ++ cleanCode)%string
  else ("0." ++ cleanCode)%string.

(** [codes.map(...).join(',')] *)
Definition joinSecIds (codes : list string) : string :=
  String.concat "," (map formatSecId codes).

(** How [axios.get] ends: with the body of the answer, or by throwing. *)
Inductive HttpResult (A : Type) : Type :=
| HttpOk (data : A)
| HttpFailed.
Arguments HttpOk {A} data.
Arguments HttpFailed {A}.

Inductive FetcherEvent : Type :=
| HttpGet (secids : string)
| Wait (ms : Q).

Definition stockMaxRetries : nat := 2.

(** The [for (let attempt = 0; attempt <= this.maxRetries; attempt++)]
    loop; [request attempt secids] is how the request of that attempt
    ends. *)
Fixpoint quoteAttempts (fuel : nat)
    (request : nat -> string -> HttpResult (option (list (option QuoteItem.t))))
    (secids : string) (attempt : nat) (events : list FetcherEvent)
    : list StockQuote.t * list FetcherEvent :=
  if Nat.leb attempt stockMaxRetries then
    match fuel with
    | O => ([], events)
    | S fuel' =>
        match request attempt secids with
        | HttpOk data => (parseQuotes data, events ++ [HttpGet secids])
        | HttpFailed =>
            let isLastAttempt := Nat.eqb attempt stockMaxRetries in
            if isLastAttempt
            then quoteAttempts fuel' request secids (S attempt)
                               (events ++ [HttpGet secids])
            else quoteAttempts fuel' request secids (S attempt)
                               (events ++ [HttpGet secids; Wait 1000])
        end
    end
  else ([], events).

(** [StockFetcher.getStockQuotes(codes)] *)
Definition fetchStockQuotes
    (request : nat -> string -> HttpResult (option (list (option QuoteItem.t))))
    (codes : list string) : list StockQuote.t * list FetcherEvent :=
  if Nat.eqb (length codes) 0 then ([], [])
  else quoteAttempts (S stockMaxRetries) request (joinSecIds codes) 0 [].

Definition isHttpGet (e : FetcherEvent) : bool :=
  match e with HttpGet _ => true | Wait _ => false end.

(** The quotes of the entries that come before the first [null] one. *)
Fixpoint itemsBeforeNull (items : list (option QuoteItem.t)) : list QuoteItem.t :=
  match items with
  | Some item :: rest => item :: itemsBeforeNull rest
  | _ => []
  end.

(** ** Fund fetcher ([FundFetcher]) *)

(** The object inside [jsonpgz(...)]; a field is [None] when it is absent
    (or, for the two dates, empty). *)
Module JsonpData.
Record t : Type := mk
  { dwjz : option string
  ; gsz : option string
  ; gszzl : option string
  ; jzrq : option string
  ; gztime : option string }.
End JsonpData.

(** One entry of [Datas] in the answer of the search, with the two fields
    of [FundBaseInfo] that are read. *)
Module SearchItem.
Record t : Type := mk
  { CODE : string
  ; NAME : string
  ; CATEGORY : Z
  ; SHORTNAME : option string
  ; FTYPE : option string }.
End SearchItem.

(** [a || b] on strings: the empty string is falsy. *)
Definition orElse (a b : string) : string :=
  match a with EmptyString => b | _ => a end.

Section FundFetcher.

(** [parseFloat]: [None] stands for [NaN]. *)
Variable parseFloat : string -> option Q.

(** [parseFloat(field) || 0] *)
Definition floatOr0 (field : option string) : Q :=
  match field with
  | Some s => default 0%Q (parseFloat s)
  | None => 0%Q
  end.

(** The object that [getFundValuation] builds from the parsed data;
    [today] is [new Date().toISOString().split('T')[0]] and [nowIso] is
    [new Date().toISOString()]. *)
Definition valuationOfData (today nowIso : string) (data : JsonpData.t)
    : FundValuation.t :=
  let netValueDate := orEmpty (JsonpData.jzrq data) in
  let gztime := orEmpty (JsonpData.gztime data) in
  let isRealValue := String.eqb netValueDate today in
  let isTradingDay := startsWith gztime today in
  {| FundValuation.netValue := floatOr0 (JsonpData.dwjz data)
   ; FundValuation.netValueDate := netValueDate
   ; FundValuation.estimatedValue :=
       if isRealValue then floatOr0 (JsonpData.dwjz data)
       else floatOr0 (JsonpData.gsz data)
   ; FundValuation.estimatedChange := floatOr0 (JsonpData.gszzl data)
   ; FundValuation.updateTime := orElse gztime nowIso
   ; FundValuation.isRealValue := isRealValue
   ; FundValuation.isTradingDay := isTradingDay |}.

(** [getFundValuation(code)]: the answer is [HttpOk (Some data)] when the
    request succeeds and its body holds [jsonpgz(...)] with an object that
    parses; everything else ends in [null]. *)
Definition fetchFundValuation (today nowIso : string)
    (response : HttpResult (option JsonpData.t)) : option FundValuation.t :=
  match response with
  | HttpOk (Some data) => Some (valuationOfData today nowIso data)
  | HttpOk None => None
  | HttpFailed => None
  end.

End FundFetcher.

(** [parseSearchResult(data, targetCode)], from the parsed answer:
    [datas] is [None] when the answer does not parse or has no [Datas].
    The result is the code, the name and the type of the fund. *)
Definition parseSearchResult (datas : option (list SearchItem.t)) (targetCode : string)
    : option (string * string * string) :=
  match datas with
  | None => None
  | Some [] => None
  | Some items =>
      match List.find (fun item => String.eqb (SearchItem.CODE item) targetCode
                                   && Z.eqb (SearchItem.CATEGORY item) 700) items with
      | None => None
      | Some fund =>
          Some (SearchItem.CODE fund,
                orElse (SearchItem.NAME fund) (orElse (orEmpty (SearchItem.SHORTNAME fund)) ""),
                orElse (orEmpty (SearchItem.FTYPE fund)) "混合型")
      end
  end.

(** [getFundDetail(code)]: [response] is how the search request ends,
    [netValueInfo] is what [fetchNetValue] gives and [holdings] what
    [fetchHoldings] gives (neither of the two throws). *)
Definition getFundDetail (code : string)
    (response : HttpResult (option (list SearchItem.t)))
    (netValueInfo : Q * string) (holdings : list Holding.t) : Settled FundDetail.t :=
  let basicInfo :=
    match response with
    | HttpFailed => None
    | HttpOk datas =>
        match parseSearchResult datas code with
        | None => None
        | Some (fundCode, name, type) =>
            Some (fundCode, name, type, fst netValueInfo, snd netValueInfo)
        end
    end in
  match basicInfo with
  | None => Rejected (ThrownError (PlainError ("未找到基金: " ++ code)%string))
  | Some (fundCode, name, type, netValue, netValueDate) =>
      Fulfilled {| FundDetail.code := fundCode
                 ; FundDetail.name := name
                 ; FundDetail.type := type
                 ; FundDetail.netValue := netValue
                 ; FundDetail.netValueDate := netValueDate
                 ; FundDetail.holdings := holdings |}
  end.

(** A [parseFloat] for the examples: it knows two strings. *)
Definition sampleParseFloat (s : string) : option Q :=
  if String.eqb s "1.5230" then Some 1.523%Q
  else if String.eqb s "1.5300" then Some 1.53%Q
  else None.

(** ** IPC handlers ([IPCHandler]) *)

Module IPCResult.
Record t (T : Type) : Type := mk
  { success : bool
  ; data : option T
  ; error : option string }.
Arguments mk {T}.
Arguments success {T}.
Arguments data {T}.
Arguments error {T}.
End IPCResult.

Definition ipcOk {T : Type} (data : option T) : IPCResult.t T :=
  IPCResult.mk true data None.

Definition ipcFail {T : Type} (error : string) : IPCResult.t T :=
  IPCResult.mk false None (Some error).

(** [error instanceof Error ? error.message : fallback] *)
Definition catchMessage (fallback : string) (error : Thrown) : string :=
  match error with
  | ThrownError e => errorMessage e
  | ThrownValue _ => fallback
  end.

(** Calls made to the collaborators by a handler, in order. *)
Inductive HandlerEvent : Type :=
| LoadWatchlist
| FetchDetail (code : string)
| FetchValuation (code : string)
| FetchQuotes (codes : list string)
| StoreWatchlist (funds : list Fund.t).

(** [watchlist.findIndex((f) => f.code === code)], [None] for [-1]. *)
Fixpoint findIndex (code : string) (watchlist : list Fund.t) : option nat :=
  match watchlist with
  | [] => None
  | f :: rest =>
      if String.eqb (Fund.code f) code then Some 0%nat
      else S <$> findIndex code rest
  end.

(** [watchlist.splice(index, 1)]: the list without the entry at [index]. *)
Definition splice1 (index : nat) (watchlist : list Fund.t) : list Fund.t :=
  take index watchlist ++ drop (S index) watchlist.

(** [{ ...h, change: quote?.change ?? 0, price: quote?.price ?? 0 }] *)
Definition initialHolding (quoteMap : gmap string StockQuote.t) (h : Holding.t)
    : Holding.t :=
  let quote := quoteMap !! Holding.stockCode h in
  {| Holding.stockCode := Holding.stockCode h
   ; Holding.stockName := Holding.stockName h
   ; Holding.ratio := Holding.ratio h
   ; Holding.change := match quote with Some q => StockQuote.change q | None => 0%Q end
   ; Holding.price := match quote with Some q => StockQuote.price q | None => 0%Q end |}.

(** The fund object that [handleFundAdd] creates. *)
Definition newFund (now : string) (fundDetail : FundDetail.t)
    (fundValuation : option FundValuation.t) (quotes : list StockQuote.t) : Fund.t :=
  let quoteMap := newQuoteMap quotes in
  let updatedHoldings := map (initialHolding quoteMap) (FundDetail.holdings fundDetail) in
  match fundValuation with
  | Some fundValuation =>
      {| Fund.code := FundDetail.code fundDetail
       ; Fund.name := FundDetail.name fundDetail
       ; Fund.netValue := FundValuation.netValue fundValuation
       ; Fund.netValueDate := FundValuation.netValueDate fundValuation
       ; Fund.estimatedValue := FundValuation.estimatedValue fundValuation
       ; Fund.estimatedChange := FundValuation.estimatedChange fundValuation
       ; Fund.updateTime := FundValuation.updateTime fundValuation
       ; Fund.isRealValue := Some (FundValuation.isRealValue fundValuation)
       ; Fund.holdings := updatedHoldings |}
  | None =>
      let valuation := calculateValuation now fundDetail quotes in
      {| Fund.code := FundDetail.code fundDetail
       ; Fund.name := FundDetail.name fundDetail
       ; Fund.netValue := FundDetail.netValue fundDetail
       ; Fund.netValueDate := FundDetail.netValueDate fundDetail
       ; Fund.estimatedValue := Valuation.estimatedValue valuation
       ; Fund.estimatedChange := Valuation.estimatedChange valuation
       ; Fund.updateTime := Valuation.updateTime valuation
       ; Fund.isRealValue := None
       ; Fund.holdings := updatedHoldings |}
  end.

Section Handlers.

(** [storage.getWatchlist()] and [storage.saveWatchlist(funds)]; the
    storage service is a collaborator, and either call may throw. *)
Variable getWatchlist : Settled (list Fund.t).
Variable saveWatchlist : list Fund.t -> option Thrown.

(** What the fetchers give in this call: [fundFetcher.getFundDetail] may
    throw, the other two do not. *)
Variable fetchDetail : string -> Settled FundDetail.t.
Variable fetchValuation : string -> option FundValuation.t.
Variable fetchQuotes : list string -> list StockQuote.t.

(** [new Date().toISOString()] as read by the valuation calculator. *)
Variable now : string.

Definition handleFundAdd (code : string) : IPCResult.t Fund.t * list HandlerEvent :=
  match getWatchlist with
  | Rejected error => (ipcFail (catchMessage "添加基金失败" error), [LoadWatchlist])
  | Fulfilled watchlist =>
      if existsb (fun f => String.eqb (Fund.code f) code) watchlist
      then (ipcFail "该基金已在自选列表中", [LoadWatchlist])
      else
        match fetchDetail code with
        | Rejected error =>
            (ipcFail (catchMessage "添加基金失败" error),
             [LoadWatchlist; FetchDetail code])
        | Fulfilled fundDetail =>
            let fundValuation := fetchValuation code in
            let stockCodes := map Holding.stockCode (FundDetail.holdings fundDetail) in
            let quotes := fetchQuotes stockCodes in
            let fund := newFund now fundDetail fundValuation quotes in
            let saved := watchlist ++ [fund] in
            let events :=
              [LoadWatchlist; FetchDetail code; FetchValuation code;
               FetchQuotes stockCodes; StoreWatchlist saved] in
            match saveWatchlist saved with
            | Some error => (ipcFail (catchMessage "添加基金失败" error), events)
            | None => (ipcOk (Some fund), events)
            end
        end
  end.

Definition handleFundRemove (code : string) : IPCResult.t unit * list HandlerEvent :=
  match getWatchlist with
  | Rejected error => (ipcFail (catchMessage "删除基金失败" error), [LoadWatchlist])
  | Fulfilled watchlist =>
      match findIndex code watchlist with
      | None => (ipcFail "该基金不在自选列表中", [LoadWatchlist])
      | Some index =>
          let saved := splice1 index watchlist in
          match saveWatchlist saved with
          | Some error =>
              (ipcFail (catchMessage "删除基金失败" error),
               [LoadWatchlist; StoreWatchlist saved])
          | None => (ipcOk None, [LoadWatchlist; StoreWatchlist saved])
          end
      end
  end.

End Handlers.

(** What a handler saved, if it saved. *)
Definition storedBy (events : list HandlerEvent) : option (list Fund.t) :=
  last (omap (fun e => match e with StoreWatchlist funds => Some funds | _ => None end)
             events).

Definition fundCodes (watchlist : list Fund.t) : list string :=
  map Fund.code watchlist.

(** A detail fetch that always finds a fund with one holding. *)
Definition sampleDetail (code : string) : FundDetail.t :=
  {| FundDetail.code := code
   ; FundDetail.name := "sample"
   ; FundDetail.type := "混合型"
   ; FundDetail.netValue := 1.5
   ; FundDetail.netValueDate := "2026-01-02"
   ; FundDetail.holdings := [Holding.mk "600000" "bank" 60 0 0] |}.

Definition detailFound : string -> Settled FundDetail.t :=
  fun code => Fulfilled (sampleDetail code).

(** * Properties *)

(** ** Valuation calculator *)

Lemma weightedChangeLoop_spec (quoteMap : gmap string StockQuote.t)
    (holdings : list Holding.t) :
  forall (totalChange : Q) (matchedCount : nat),
    let r := weightedChangeLoop quoteMap holdings totalChange matchedCount in
    (fst r == totalChange + Qsum (map contribution (matchedHoldings quoteMap holdings)))%Q
    /\ snd r = (matchedCount + length (matchedHoldings quoteMap holdings))%nat.
Proof.
  induction holdings as [|holding rest IH]; intros totalChange matchedCount; cbn.
  - split; [ring | lia].
  - unfold matchedHoldings in *; cbn.
    destruct (quoteMap !! Holding.stockCode holding) as [quote|] eqn:Hq; cbn.
    + destruct (IH (totalChange
                    + StockQuote.change quote * (Holding.ratio holding / 100))%Q
                   (S matchedCount)) as [Ht Hc].
      split.
      * rewrite Ht. unfold Qsum, contribution; cbn. ring.
      * rewrite Hc. lia.
    + apply IH.
Qed.

Lemma matchedHoldings_length_le (quoteMap : gmap string StockQuote.t)
    (holdings : list Holding.t) :
  (length (matchedHoldings quoteMap holdings) <= length holdings)%nat.
Proof.
  unfold matchedHoldings.
  induction holdings as [|h rest IH]; cbn; [lia|].
  destruct (quoteMap !! Holding.stockCode h); cbn; lia.
Qed.

(** Every pair of [matchedHoldings] is a holding together with the quote
    that the map has for its code, and every holding with a quote occurs. *)
Lemma matchedHoldings_elem (quoteMap : gmap string StockQuote.t)
    (holdings : list Holding.t) (h : Holding.t) (q : StockQuote.t) :
  (h, q) ∈ matchedHoldings quoteMap holdings
  <-> h ∈ holdings /\ quoteMap !! Holding.stockCode h = Some q.
Proof.
  unfold matchedHoldings. rewrite list_elem_of_omap. split.
  - intros (h' & Hin & Hf).
    destruct (quoteMap !! Holding.stockCode h') as [q'|] eqn:Hq; cbn in Hf; [|discriminate].
    injection Hf as -> ->. auto.
  - intros [Hin Hq]. exists h. split; [assumption|]. rewrite Hq. reflexivity.
Qed.

(** *** The calculator on IEEE-754 numbers *)

(** From any state of its two accumulators, the loop adds the
    contributions of the matched holdings to [totalChange] one after the
    other, in list order, and counts them. *)
Lemma binary64_loop_spec (quoteMap : gmap string Binary64.StockQuote.t)
    (holdings : list Binary64.Holding.t) :
  forall (totalChange : Binary64.number) (matchedCount : nat),
    Binary64.weightedChangeLoop quoteMap holdings totalChange matchedCount
    = (fold_left Binary64.add
         (map Binary64.contribution (Binary64.matchedHoldings quoteMap holdings))
         totalChange,
       (matchedCount + length (Binary64.matchedHoldings quoteMap holdings))%nat).
Proof.
  unfold Binary64.matchedHoldings.
  induction holdings as [|holding rest IH]; intros totalChange matchedCount.
  - cbn. f_equal. lia.
  - cbn [Binary64.weightedChangeLoop omap list_omap].
    destruct (quoteMap !! Binary64.Holding.stockCode holding) as [quote|] eqn:Hq.
    + rewrite IH. cbn [fmap option_fmap option_map map fold_left length].
      f_equal. lia.
    + rewrite IH. reflexivity.
Qed.

(** The pairs of [matchedHoldings] are the holdings that have a quote in
    the map, each with the quote the map has for its code. *)
Lemma binary64_matchedHoldings_elem (quoteMap : gmap string Binary64.StockQuote.t)
    (holdings : list Binary64.Holding.t) (h : Binary64.Holding.t)
    (q : Binary64.StockQuote.t) :
  (h, q) ∈ Binary64.matchedHoldings quoteMap holdings
  <-> h ∈ holdings /\ quoteMap !! Binary64.Holding.stockCode h = Some q.
Proof.
  unfold Binary64.matchedHoldings. rewrite list_elem_of_omap. split.
  - intros (h' & Hin & Hf).
    destruct (quoteMap !! Binary64.Holding.stockCode h') as [q'|] eqn:Hq;
      cbn in Hf; [|discriminate].
    injection Hf as -> ->. auto.
  - intros [Hin Hq]. exists h. split; [assumption|]. rewrite Hq. reflexivity.
Qed.

(** C1.  On JavaScript numbers (IEEE-754 binary64), for every holdings
    list and every quote map, [calculateWeightedChange] returns as
    [estimatedChange] the sum, over the holdings that have a quote in the
    map, of [quote.change * (holding.ratio / 100)]: the terms are added to
    [0] in list order, each operation rounded as the source's is.
    [isComplete] holds exactly when the number of matched holdings is the
    length of the list and the list is not empty; the empty list gives [0]
    and [false]; and [calculateEstimatedValue netValue estimatedChange] is
    [netValue * (1 + estimatedChange / 100)]. *)
Theorem calculateWeightedChange_spec (holdings : list Binary64.Holding.t)
    (quoteMap : gmap string Binary64.StockQuote.t)
    (netValue estimatedChange : Binary64.number) :
  let r := Binary64.calculateWeightedChange holdings quoteMap in
  let matched := Binary64.matchedHoldings quoteMap holdings in
  (forall h q, (h, q) ∈ matched
               <-> h ∈ holdings /\ quoteMap !! Binary64.Holding.stockCode h = Some q)
  /\ Binary64.WeightedChange.estimatedChange r
     = Binary64.sum (map Binary64.contribution matched)
  /\ (Binary64.WeightedChange.isComplete r = true
      <-> length matched = length holdings /\ (0 < length holdings)%nat)
  /\ Binary64.calculateWeightedChange [] quoteMap
     = {| Binary64.WeightedChange.estimatedChange := Binary64.ofZ 0
        ; Binary64.WeightedChange.isComplete := false |}
  /\ Binary64.calculateEstimatedValue netValue estimatedChange
     = Binary64.mul netValue
         (Binary64.add (Binary64.ofZ 1)
            (Binary64.div estimatedChange (Binary64.ofZ 100))).
Proof.
  cbn zeta. unfold Binary64.calculateWeightedChange.
  rewrite binary64_loop_spec.
  cbn [Binary64.WeightedChange.estimatedChange Binary64.WeightedChange.isComplete].
  split; [|split; [|split; [|split]]].
  - intros h q. apply binary64_matchedHoldings_elem.
  - reflexivity.
  - rewrite andb_true_iff, Nat.eqb_eq, Nat.ltb_lt. lia.
  - reflexivity.
  - reflexivity.
Qed.

(** The worked example of the design document: weights 60 and 40 with
    changes +2.0 and -1.0 on a net value of 1.5.  The two terms are 1.2 and
    -0.4 and their sum is the number next below 0.8, which prints as
    0.7999999999999999; the estimated value is the number nearest to
    1.512, and the result is complete. *)
Example weighted_change_example :
  let v :=
    Binary64.calculateValuation "t1"
      (Binary64.FundDetail.mk "000001" "sample" "" (Binary64.ofDecimal 15 1)
                              "2026-01-02" Binary64.designHoldings)
      Binary64.designQuotes in
  Binary64.Valuation.estimatedChange v = Binary64.pred (Binary64.ofDecimal 8 1)
  /\ Binary64.Valuation.estimatedChange v <> Binary64.ofDecimal 8 1
  /\ Binary64.Valuation.estimatedChange v
     = S754_finite false 7205759403792793 (-53)
  /\ Binary64.Valuation.estimatedValue v = Binary64.ofDecimal 1512 3
  /\ Binary64.Valuation.isComplete v = true.
Proof. vm_compute. repeat split. discriminate. Qed.

(** Three holdings of which two have a quote: only those two count and the
    result is flagged incomplete. *)
Example partial_quotes_example :
  let holdings :=
    [Binary64.holding "A" 50; Binary64.holding "B" 30; Binary64.holding "C" 20] in
  let quotes := [Binary64.quote "A" 2; Binary64.quote "C" 5] in
  let r := Binary64.calculateWeightedChange holdings (Binary64.quoteMapOf quotes) in
  Binary64.WeightedChange.estimatedChange r = Binary64.ofZ 2
  /\ Binary64.WeightedChange.isComplete r = false.
Proof. vm_compute. repeat split. Qed.

(** The order of the holdings matters, and rounding can carry the result
    past every quote: with weights 1, 7 and 92 and every quote at +10 the
    weighted change is the number next above 10 (10.000000000000002); with
    the same holdings in the opposite order it is 10. *)
Example rounding_example :
  let quoteMap := Binary64.quoteMapOf Binary64.unevenQuotes in
  Binary64.WeightedChange.estimatedChange
    (Binary64.calculateWeightedChange Binary64.unevenHoldings quoteMap)
  = Binary64.succ (Binary64.ofZ 10)
  /\ Binary64.WeightedChange.estimatedChange
       (Binary64.calculateWeightedChange (rev Binary64.unevenHoldings) quoteMap)
     = Binary64.ofZ 10.
Proof. vm_compute. repeat split. Qed.

(** ** Market-hours gate *)

Lemma isMarketOpen_minutes (now : JsDate.t) :
  isMarketOpen now = true
  <-> (JsDate.day now <> 0 /\ JsDate.day now <> 6
       /\ (570 <= JsDate.hours now * 60 + JsDate.minutes now <= 690
           \/ 780 <= JsDate.hours now * 60 + JsDate.minutes now <= 900))%Z.
Proof.
  unfold isMarketOpen. cbn zeta.
  destruct (Z.eqb_spec (JsDate.day now) 0) as [H0|H0];
    destruct (Z.eqb_spec (JsDate.day now) 6) as [H6|H6]; cbn [orb];
    try (split; [discriminate | lia]).
  rewrite orb_true_iff, !andb_true_iff, !Z.leb_le. lia.
Qed.

(** C9.  The gate is closed on Saturday and Sunday; on the other days it
    is open exactly when the clock reading lies in 09:30-11:30 or in
    13:00-15:00, the four end points included.  Monday 10:00 and Friday
    14:59 are open; Monday 12:00, Saturday 10:00 and Friday 15:01 are
    closed. *)
Theorem isMarketOpen_spec (now : JsDate.t) (Hvalid : ValidDate now) :
  (isMarketOpen now = true
   <-> (JsDate.day now <> 0 /\ JsDate.day now <> 6
        /\ (WithinWindow now 9 30 11 30 \/ WithinWindow now 13 0 15 0))%Z)
  /\ isMarketOpen (clockAt 1 10 0) = true
  /\ isMarketOpen (clockAt 1 12 0) = false
  /\ isMarketOpen (clockAt 6 10 0) = false
  /\ isMarketOpen (clockAt 5 14 59) = true
  /\ isMarketOpen (clockAt 5 15 1) = false.
Proof.
  split; [|repeat split].
  rewrite isMarketOpen_minutes.
  unfold ValidDate in Hvalid. unfold WithinWindow, ClockLe. lia.
Qed.

Lemma isMarketOpen_spec_witness :
  ValidDate (JsDate.mk 5 11 30 59 "2026-01-02T03:30:59.000Z")
  /\ isMarketOpen (JsDate.mk 5 11 30 59 "2026-01-02T03:30:59.000Z") = true.
Proof.
  assert (Hvalid : ValidDate (JsDate.mk 5 11 30 59 "2026-01-02T03:30:59.000Z"))
    by (unfold ValidDate; cbn; lia).
  split; [exact Hvalid|].
  apply (proj1 (isMarketOpen_spec _ Hvalid)).
  split; [cbn; lia|]. split; [cbn; lia|].
  left. unfold WithinWindow, ClockLe. cbn. lia.
Defined.

(** ** Strings *)

Lemma append_String (c : ascii) (s t : string) :
  (String c s ++ t)%string = String c (s ++ t)%string.
Proof. reflexivity. Qed.

Lemma append_empty (t : string) : ("" ++ t)%string = t.
Proof. reflexivity. Qed.

Lemma startsWith_app (s sub : string) :
  startsWith s sub = true <-> exists after, s = (sub ++ after)%string.
Proof.
  revert s. induction sub as [|c sub IH]; intros s; cbn [startsWith].
  - split; [intros _; exists s; reflexivity | reflexivity].
  - destruct s as [|d s].
    + split; [discriminate | intros [after H]; discriminate].
    + destruct (Ascii.eqb_spec c d) as [->|Hne].
      * rewrite IH. split; intros [after H]; exists after;
          rewrite append_String in *; congruence.
      * split; [discriminate|].
        intros [after H]. rewrite append_String in H. congruence.
Qed.

(** [includes] decides [Contains]. *)
Lemma includes_Contains (s sub : string) :
  includes s sub = true <-> Contains s sub.
Proof.
  unfold Contains. induction s as [|c s IH]; cbn [includes].
  - destruct (startsWith "" sub) eqn:Hp.
    + split; [intros _ | reflexivity].
      apply startsWith_app in Hp as [after Hp]. exists "", after. exact Hp.
    + split; [discriminate|]. intros (before & after & H).
      destruct before as [|d before].
      * rewrite append_empty in H.
        assert (startsWith "" sub = true) by (apply startsWith_app; eauto).
        congruence.
      * rewrite append_String in H. discriminate.
  - destruct (startsWith (String c s) sub) eqn:Hp.
    + split; [intros _ | reflexivity].
      apply startsWith_app in Hp as [after Hp]. exists "", after. exact Hp.
    + rewrite IH. split.
      * intros (before & after & H). exists (String c before), after.
        rewrite append_String. congruence.
      * intros (before & after & H). destruct before as [|d before].
        -- rewrite append_empty in H.
           assert (startsWith (String c s) sub = true)
             by (apply startsWith_app; eauto).
           congruence.
        -- rewrite append_String in H. injection H as _ H. eauto.
Qed.

Lemma existsb_ContainsAny (s : string) (words : list string) :
  existsb (includes s) words = true <-> ContainsAny s words.
Proof.
  unfold ContainsAny. rewrite existsb_exists.
  split; intros (w & Hin & H); exists w; split; auto; apply includes_Contains; auto.
Qed.

(** ** Error classifier *)

Section ErrorClassifier.

Variable toLowerCase : string -> string.

(** The classifier as one cascade over the four word lists. *)
Lemma normalizeError_cascade (m : string) :
  normalizeError toLowerCase (PlainError m) =
  let message := toLowerCase m in
  if existsb (includes message) networkWords
  then NetworkError (getNetworkErrorMessage toLowerCase (PlainError m))
                    (Some (PlainError m))
  else if existsb (includes message) parseWords
  then ParseError "数据解析失败" (Some (PlainError m))
  else if existsb (includes message) storageWords
  then StorageError "存储操作失败" (Some (PlainError m))
  else if existsb (includes message) notFoundWords
  then NotFoundError m
  else newAppError m UNKNOWN false (Some (PlainError m)).
Proof.
  unfold normalizeError, networkWords, parseWords, storageWords, notFoundWords.
  cbn [existsb]. rewrite !orb_false_r, !orb_assoc. reflexivity.
Qed.

Lemma firstMatch_cascade (message : string) :
  firstMatch message =
  if existsb (includes message) networkWords then (NETWORK, true)
  else if existsb (includes message) parseWords then (PARSE, false)
  else if existsb (includes message) storageWords then (STORAGE, true)
  else if existsb (includes message) notFoundWords then (NOT_FOUND, false)
  else (UNKNOWN, false).
Proof.
  unfold firstMatch, matchingCategories, classificationOrder.
  cbn [List.filter fst snd].
  destruct (existsb (includes message) networkWords); [reflexivity|].
  destruct (existsb (includes message) parseWords); [reflexivity|].
  destruct (existsb (includes message) storageWords); [reflexivity|].
  destruct (existsb (includes message) notFoundWords); reflexivity.
Qed.

Lemma classification_firstMatch (m : string) :
  classification (normalizeError toLowerCase (PlainError m))
  = firstMatch (toLowerCase m).
Proof.
  rewrite normalizeError_cascade, firstMatch_cascade. cbn zeta.
  destruct (existsb (includes (toLowerCase m)) networkWords); [reflexivity|].
  destruct (existsb (includes (toLowerCase m)) parseWords); [reflexivity|].
  destruct (existsb (includes (toLowerCase m)) storageWords); [reflexivity|].
  destruct (existsb (includes (toLowerCase m)) notFoundWords); reflexivity.
Qed.

(** C3.  An error that is already an [AppError] is returned as it is, so
    classifying twice is classifying once.  Any other error is classified
    on its lower-cased message: network and retryable if it contains
    "network", "timeout", "econnrefused", "enotfound", "socket" or
    "fetch"; else parse and not retryable if it contains "parse", "json"
    or "syntax"; else storage and retryable if it contains "storage",
    "file" or "permission"; else not-found and not retryable if it
    contains "not found" or its Chinese equivalent; else unknown and not
    retryable. *)
Theorem normalizeError_spec (error : Error) :
  (forall a, error = AppErr a -> normalizeError toLowerCase error = a)
  /\ normalizeError toLowerCase (AppErr (normalizeError toLowerCase error))
     = normalizeError toLowerCase error
  /\ (forall m, error = PlainError m ->
      let message := toLowerCase m in
      let kind := classification (normalizeError toLowerCase error) in
      (ContainsAny message networkWords -> kind = (NETWORK, true))
      /\ (~ ContainsAny message networkWords ->
          ContainsAny message parseWords -> kind = (PARSE, false))
      /\ (~ ContainsAny message networkWords ->
          ~ ContainsAny message parseWords ->
          ContainsAny message storageWords -> kind = (STORAGE, true))
      /\ (~ ContainsAny message networkWords ->
          ~ ContainsAny message parseWords ->
          ~ ContainsAny message storageWords ->
          ContainsAny message notFoundWords -> kind = (NOT_FOUND, false))
      /\ (~ ContainsAny message networkWords ->
          ~ ContainsAny message parseWords ->
          ~ ContainsAny message storageWords ->
          ~ ContainsAny message notFoundWords -> kind = (UNKNOWN, false))).
Proof.
  split; [|split].
  - intros a ->. reflexivity.
  - reflexivity.
  - intros m ->. cbn zeta.
    rewrite classification_firstMatch, firstMatch_cascade.
    rewrite <- !existsb_ContainsAny.
    destruct (existsb (includes (toLowerCase m)) networkWords);
      destruct (existsb (includes (toLowerCase m)) parseWords);
      destruct (existsb (includes (toLowerCase m)) storageWords);
      destruct (existsb (includes (toLowerCase m)) notFoundWords);
      repeat split; intros; congruence.
Qed.

Lemma matchingCategories_In (message : string)
    (c : ErrorType * list string * bool) :
  In c (matchingCategories message)
  <-> In c classificationOrder /\ ContainsAny message (snd (fst c)).
Proof.
  unfold matchingCategories. rewrite List.filter_In, existsb_ContainsAny.
  reflexivity.
Qed.

(** C10.  When the lower-cased message contains words of several
    categories, the kind is that of the first category, in the order
    network, parse, storage, not-found, of which it contains a word; a
    message with both "fetch" and "json" is a retryable network error. *)
Theorem normalizeError_first_match (m : string) :
  let message := toLowerCase m in
  let kind := classification (normalizeError toLowerCase (PlainError m)) in
  kind = firstMatch message
  /\ (forall c, In c (matchingCategories message)
                <-> In c classificationOrder /\ ContainsAny message (snd (fst c)))
  /\ map (fun c => fst (fst c)) classificationOrder
     = [NETWORK; PARSE; STORAGE; NOT_FOUND]
  /\ (Contains message "fetch" -> Contains message "json" -> kind = (NETWORK, true)).
Proof.
  cbn zeta. split; [|split; [|split]].
  - apply classification_firstMatch.
  - intros c. apply matchingCategories_In.
  - reflexivity.
  - intros Hfetch _.
    rewrite classification_firstMatch, firstMatch_cascade.
    assert (H : existsb (includes (toLowerCase m)) networkWords = true).
    { apply existsb_ContainsAny. exists "fetch". split; [|exact Hfetch].
      unfold networkWords. cbn. tauto. }
    rewrite H. reflexivity.
Qed.

End ErrorClassifier.

Lemma normalizeError_spec_witness :
  classification
    (normalizeError asciiToLowerCase (PlainError "Unexpected token < in JSON"))
  = (PARSE, false).
Proof.
  pose proof (normalizeError_spec asciiToLowerCase
                (PlainError "Unexpected token < in JSON")) as (_ & _ & H).
  destruct (H "Unexpected token < in JSON" eq_refl) as (_ & Hparse & _).
  apply Hparse.
  - intros Hc. apply existsb_ContainsAny in Hc. vm_compute in Hc. discriminate.
  - apply existsb_ContainsAny. vm_compute. reflexivity.
Defined.

Lemma normalizeError_first_match_witness :
  classification
    (normalizeError asciiToLowerCase (PlainError "Failed to fetch JSON payload"))
  = (NETWORK, true).
Proof.
  destruct (normalizeError_first_match asciiToLowerCase
              "Failed to fetch JSON payload") as (_ & _ & _ & H).
  apply H; apply includes_Contains; vm_compute; reflexivity.
Defined.

(** ** Retry executor *)

Lemma recordError_last (now : string) (errorHistory : list ErrorState.t)
    (error : AppError) (retryCount : Z) :
  last (recordError now errorHistory error retryCount)
  = Some (recordedState now error retryCount).
Proof.
  unfold recordError, toErrorState.
  cbn [ErrorState.type ErrorState.message ErrorState.retryable ErrorState.timestamp].
  fold (recordedState now error retryCount).
  set (st := recordedState now error retryCount).
  destruct (Nat.ltb maxHistorySize (length (errorHistory ++ [st]))) eqn:Hlt.
  - apply Nat.ltb_lt in Hlt. destruct errorHistory as [|e0 rest].
    + cbn in Hlt. unfold maxHistorySize in Hlt. lia.
    + cbn [tail app]. apply last_snoc.
  - apply last_snoc.
Qed.

Lemma retrySteps_snoc (config : RetryConfig.t) (k n : nat) :
  retrySteps config k (S n)
  = retrySteps config k n
    ++ [Attempt; Sleep (calculateDelay config (Z.of_nat (k + n) + 1))].
Proof.
  unfold retrySteps. rewrite seq_S, flat_map_app. cbn [flat_map].
  rewrite app_nil_r. reflexivity.
Qed.

Lemma retrySteps_length (config : RetryConfig.t) (k n : nat) :
  length (retrySteps config k n) = (2 * n)%nat.
Proof.
  induction n as [|n IH]; [reflexivity|].
  rewrite retrySteps_snoc, length_app, IH. cbn. lia.
Qed.

Lemma retrySteps_counts (config : RetryConfig.t) (k n : nat) :
  attemptsMade (retrySteps config k n) = n
  /\ sleepsMade (retrySteps config k n) = n.
Proof.
  unfold attemptsMade, sleepsMade.
  induction n as [|n [IHa IHs]]; [split; reflexivity|].
  rewrite retrySteps_snoc, !List.filter_app, !length_app, IHa, IHs. cbn. lia.
Qed.

(** In a run of retry steps the [i]-th attempt is at position [2 i] and
    the delay that follows it at position [2 i + 1]. *)
Lemma retrySteps_lookup (config : RetryConfig.t) (n i : nat) :
  (i < n)%nat ->
  retrySteps config 0 n !! (2 * i)%nat = Some Attempt
  /\ retrySteps config 0 n !! (2 * i + 1)%nat
     = Some (Sleep (calculateDelay config (Z.of_nat i + 1))).
Proof.
  induction n as [|n IH]; [lia|]. intros Hi.
  rewrite retrySteps_snoc.
  destruct (decide (i < n)%nat) as [Hlt|Hge].
  - destruct (IH Hlt) as [Ha Hs].
    rewrite !lookup_app_l by (rewrite retrySteps_length; lia). auto.
  - assert (i = n) as -> by lia.
    rewrite !lookup_app_r by (rewrite retrySteps_length; lia).
    rewrite retrySteps_length.
    replace (2 * n - 2 * n)%nat with 0%nat by lia.
    replace (2 * n + 1 - 2 * n)%nat with 1%nat by lia.
    cbn. auto.
Qed.

Section RetryExecutor.

Variable toLowerCase : string -> string.
Variable T : Type.
Variable config : RetryConfig.t.
Variable fn : nat -> Settled T.
Variables context now : string.

Let maxRetries := RetryConfig.maxRetries config.
Let loop := @withRetryLoop toLowerCase T.

(** One turn of the loop that ends with the value of the operation. *)
Lemma loop_fulfilled fuel lastError (k : nat) history events value :
  (Z.of_nat k <= maxRetries)%Z ->
  fn k = Fulfilled value ->
  loop (S fuel) config fn context now lastError (Z.of_nat k) k history events
  = RetryRun.mk (Returns value) history (events ++ [Attempt]).
Proof.
  intros Hk Hfn. unfold loop. cbn [withRetryLoop].
  apply Z.leb_le in Hk. fold maxRetries. rewrite Hk, Hfn. reflexivity.
Qed.

(** One turn that ends with an error that is not retryable. *)
Lemma loop_not_retryable fuel lastError (k : nat) history events reason :
  (Z.of_nat k <= maxRetries)%Z ->
  fn k = Rejected reason ->
  AppErrorFields.retryable (normalizeError toLowerCase (asError reason)) = false ->
  loop (S fuel) config fn context now lastError (Z.of_nat k) k history events
  = RetryRun.mk
      (Throws (AppErr (normalizeError toLowerCase (asError reason))))
      (recordError now history (normalizeError toLowerCase (asError reason))
                   (Z.of_nat k))
      (events ++ [Attempt]).
Proof.
  intros Hk Hfn Hr. unfold loop. cbn [withRetryLoop].
  apply Z.leb_le in Hk. fold maxRetries. rewrite Hk, Hfn, Hr. reflexivity.
Qed.

(** The last turn, when the error is retryable but no retry is left. *)
Lemma loop_exhausted fuel lastError (k : nat) history events reason :
  Z.of_nat k = maxRetries ->
  fn k = Rejected reason ->
  AppErrorFields.retryable (normalizeError toLowerCase (asError reason)) = true ->
  loop (S fuel) config fn context now lastError (Z.of_nat k) k history events
  = let appError := normalizeError toLowerCase (asError reason) in
    RetryRun.mk
      (Throws (AppErr (newAppError (exhaustedMessage config context appError)
                                   (AppErrorFields.type appError) false
                                   (Some (asError reason)))))
      (recordError now history appError maxRetries)
      (events ++ [Attempt]).
Proof.
  intros Hk Hfn Hr. unfold loop. cbn [withRetryLoop]. fold maxRetries.
  rewrite Hk, Z.leb_refl, Hfn, Hr. cbn [negb].
  replace (maxRetries + 1 >? maxRetries)%Z with true
    by (symmetry; apply Z.gtb_lt; lia).
  cbn zeta. replace (maxRetries + 1 - 1)%Z with maxRetries by lia.
  reflexivity.
Qed.

(** One turn that ends with a delay and goes round again. *)
Lemma loop_retry fuel lastError (k : nat) history events reason :
  (Z.of_nat k < maxRetries)%Z ->
  fn k = Rejected reason ->
  AppErrorFields.retryable (normalizeError toLowerCase (asError reason)) = true ->
  loop (S fuel) config fn context now lastError (Z.of_nat k) k history events
  = loop fuel config fn context now (Some (asError reason))
         (Z.of_nat (S k)) (S k) history
         (events ++ [Attempt; Sleep (calculateDelay config (Z.of_nat k + 1))]).
Proof.
  intros Hk Hfn Hr. unfold loop. cbn [withRetryLoop]. fold maxRetries.
  replace (Z.of_nat k <=? maxRetries)%Z with true
    by (symmetry; apply Z.leb_le; lia).
  rewrite Hfn, Hr. cbn [negb].
  replace (Z.of_nat k + 1 >? maxRetries)%Z with false
    by (symmetry; rewrite Z.gtb_ltb; apply Z.ltb_ge; lia).
  replace (Z.of_nat (S k)) with (Z.of_nat k + 1)%Z by lia.
  reflexivity.
Qed.

(** [n] retryable failures in a row, with retries left after them, take
    the loop through [n] turns. *)
Lemma loop_retry_prefix (n : nat) :
  forall fuel lastError (k : nat) history events,
    (Z.of_nat (k + n) <= maxRetries)%Z ->
    (forall i, (k <= i < k + n)%nat -> retryableFailure toLowerCase (fn i) = true) ->
    exists lastError',
      loop (n + fuel) config fn context now lastError (Z.of_nat k) k history events
      = loop fuel config fn context now lastError' (Z.of_nat (k + n)) (k + n)
             history (events ++ retrySteps config k n).
Proof.
  induction n as [|n IH]; intros fuel lastError k history events Hmax Hfail.
  - exists lastError. unfold retrySteps. cbn [seq flat_map].
    rewrite app_nil_r, Nat.add_0_r. reflexivity.
  - assert (Hk : retryableFailure toLowerCase (fn k) = true) by (apply Hfail; lia).
    unfold retryableFailure in Hk.
    destruct (fn k) as [value|reason] eqn:Hfn; [discriminate|].
    cbn [Nat.add]. rewrite (loop_retry _ _ _ _ _ reason) by (auto; lia).
    destruct (IH fuel (Some (asError reason)) (S k) history
                 (events ++ [Attempt; Sleep (calculateDelay config (Z.of_nat k + 1))]))
      as [lastError' Heq]; [lia | intros i Hi; apply Hfail; lia |].
    exists lastError'. rewrite Heq.
    replace (S k + n)%nat with (k + S n)%nat by lia.
    f_equal. rewrite <- app_assoc. f_equal.
Qed.

Lemma retrySteps_cons (k n : nat) :
  retrySteps config k (S n)
  = [Attempt; Sleep (calculateDelay config (Z.of_nat k + 1))]
    ++ retrySteps config (S k) n.
Proof. reflexivity. Qed.

(** Whatever the operation does, a call that enters the loop makes some
    retry steps and ends on an attempt; it never runs out of fuel. *)
Lemma loop_shape (fuel : nat) :
  forall lastError (k : nat) history events,
    (Z.of_nat k <= maxRetries)%Z ->
    (maxRetries + 1 - Z.of_nat k <= Z.of_nat fuel)%Z ->
    let run :=
      loop fuel config fn context now lastError (Z.of_nat k) k history events in
    exists n,
      (Z.of_nat (k + n) <= maxRetries)%Z
      /\ RetryRun.events run = events ++ retrySteps config k n ++ [Attempt]
      /\ RetryRun.completion run <> OutOfFuel.
Proof.
  induction fuel as [|fuel IH]; intros lastError k history events Hk Hfuel run;
    [lia|].
  subst run. destruct (fn k) as [value|reason] eqn:Hfn.
  - rewrite (loop_fulfilled _ _ _ _ _ value) by auto.
    exists 0%nat. cbn. split; [lia|]. split; [reflexivity | discriminate].
  - destruct (AppErrorFields.retryable (normalizeError toLowerCase (asError reason)))
      eqn:Hr.
    + destruct (Z.eq_dec (Z.of_nat k) maxRetries) as [Heq|Hne].
      * rewrite (loop_exhausted _ _ _ _ _ reason) by auto.
        exists 0%nat. cbn. split; [lia|]. split; [reflexivity | discriminate].
      * rewrite (loop_retry _ _ _ _ _ reason) by (auto; lia).
        destruct (IH (Some (asError reason)) (S k) history
                     (events ++ [Attempt;
                                 Sleep (calculateDelay config (Z.of_nat k + 1))]))
          as (n & Hn & Hev & Hc); [lia | lia |].
        exists (S n). split; [lia|]. split; [|exact Hc].
        rewrite Hev, retrySteps_cons, <- !app_assoc. reflexivity.
    + rewrite (loop_not_retryable _ _ _ _ _ reason) by auto.
      exists 0%nat. cbn. split; [lia|]. split; [reflexivity | discriminate].
Qed.

Variable errorHistory : list ErrorState.t.

Let run := withRetry toLowerCase config errorHistory fn context now.

(** With a negative [maxRetries] the loop body never runs. *)
Lemma withRetry_negative :
  (maxRetries < 0)%Z ->
  run = RetryRun.mk ThrowsNull errorHistory [].
Proof.
  intros Hneg. subst run. unfold withRetry. fold maxRetries.
  replace (Z.to_nat (maxRetries + 1)) with 0%nat by lia.
  cbn [withRetryLoop]. fold maxRetries.
  replace (0 <=? maxRetries)%Z with false by (symmetry; apply Z.leb_gt; lia).
  reflexivity.
Qed.

Lemma withRetry_shape :
  (0 <= maxRetries)%Z ->
  exists n,
    (Z.of_nat n <= maxRetries)%Z
    /\ RetryRun.events run = retrySteps config 0 n ++ [Attempt].
Proof.
  intros Hmax. subst run. unfold withRetry.
  destruct (loop_shape (Z.to_nat (maxRetries + 1)) None 0 errorHistory [])
    as (n & Hn & Hev & _); [lia | lia |].
  exists n. split; [lia|]. exact Hev.
Qed.

(** [withRetry] always completes: the fuel given to the loop suffices. *)
Lemma withRetry_total : RetryRun.completion run <> OutOfFuel.
Proof.
  destruct (Z.lt_ge_cases maxRetries 0) as [Hneg|Hpos].
  - rewrite withRetry_negative by assumption. discriminate.
  - subst run. unfold withRetry.
    destruct (loop_shape (Z.to_nat (maxRetries + 1)) None 0 errorHistory [])
      as (n & _ & _ & Hc); [lia | lia |]. exact Hc.
Qed.

End RetryExecutor.

Section RetryProperties.

Variable toLowerCase : string -> string.
Variable T : Type.
Variable config : RetryConfig.t.
Variable errorHistory : list ErrorState.t.
Variable fn : nat -> Settled T.
Variables context now : string.

Let maxRetries := RetryConfig.maxRetries config.
Let run := withRetry toLowerCase config errorHistory fn context now.

(** A run that stops at attempt [j] on an error that is not retryable. *)
Lemma withRetry_not_retryable (j : nat) (reason : Thrown) :
  (Z.of_nat j <= maxRetries)%Z ->
  (forall i, (i < j)%nat -> retryableFailure toLowerCase (fn i) = true) ->
  fn j = Rejected reason ->
  AppErrorFields.retryable (normalizeError toLowerCase (asError reason)) = false ->
  run = RetryRun.mk
          (Throws (AppErr (normalizeError toLowerCase (asError reason))))
          (recordError now errorHistory
             (normalizeError toLowerCase (asError reason)) (Z.of_nat j))
          (retrySteps config 0 j ++ [Attempt]).
Proof.
  intros Hj Hfail Hfn Hr. subst run. unfold withRetry. fold maxRetries.
  replace (Z.to_nat (maxRetries + 1))
    with (j + S (Z.to_nat maxRetries - j))%nat by lia.
  destruct (loop_retry_prefix toLowerCase T config fn context now j
              (S (Z.to_nat maxRetries - j)) None 0 errorHistory [])
    as [lastError' Heq]; [cbn; lia | intros i Hi; apply Hfail; lia |].
  change (Z.of_nat 0) with 0%Z in Heq. rewrite Heq.
  change (0 + ?m)%nat with m. change ([] ++ ?l) with l.
  apply (loop_not_retryable toLowerCase T config fn context now); auto.
Qed.

(** A run in which every attempt fails with a retryable error. *)
Lemma withRetry_exhausted :
  (0 <= maxRetries)%Z ->
  (forall i, (Z.of_nat i <= maxRetries)%Z ->
             retryableFailure toLowerCase (fn i) = true) ->
  exists reason,
    fn (Z.to_nat maxRetries) = Rejected reason
    /\ let appError := normalizeError toLowerCase (asError reason) in
       run = RetryRun.mk
               (Throws (AppErr (newAppError
                                  (exhaustedMessage config context appError)
                                  (AppErrorFields.type appError) false
                                  (Some (asError reason)))))
               (recordError now errorHistory appError maxRetries)
               (retrySteps config 0 (Z.to_nat maxRetries) ++ [Attempt]).
Proof.
  intros Hmax Hfail.
  assert (Hlast : retryableFailure toLowerCase (fn (Z.to_nat maxRetries)) = true)
    by (apply Hfail; lia).
  unfold retryableFailure in Hlast.
  destruct (fn (Z.to_nat maxRetries)) as [value|reason] eqn:Hfn; [discriminate|].
  exists reason. split; [reflexivity|]. cbn zeta.
  subst run. unfold withRetry. fold maxRetries.
  replace (Z.to_nat (maxRetries + 1)) with (Z.to_nat maxRetries + 1)%nat by lia.
  destruct (loop_retry_prefix toLowerCase T config fn context now
              (Z.to_nat maxRetries) 1 None 0 errorHistory [])
    as [lastError' Heq]; [cbn; lia | intros i Hi; apply Hfail; lia |].
  change (Z.of_nat 0) with 0%Z in Heq. rewrite Heq.
  change (0 + ?m)%nat with m. change ([] ++ ?l) with l.
  apply (loop_exhausted toLowerCase T config fn context now); auto. lia.
Qed.

(** C2.  (a) If the attempt number [j] (counting from 0, after [j]
    retryable failures) fails with an error that the classifier does not
    call retryable, [withRetry] records that error and throws it as
    classified; the failed attempt is the last thing it does: no delay
    and no attempt follow.  (b) If every attempt fails with a retryable
    error, then after [maxRetries] failures, each followed by its delay
    and a retry, the failure of the last attempt makes [withRetry] record
    the error and throw an error, not retryable, of the same kind, whose
    message gives the context and [maxRetries] as the number of retries.
    (c) With [maxRetries = 0] exactly one attempt is made and no delay. *)
Theorem withRetry_spec :
  (forall (j : nat) (reason : Thrown),
      (Z.of_nat j <= maxRetries)%Z ->
      (forall i, (i < j)%nat -> retryableFailure toLowerCase (fn i) = true) ->
      fn j = Rejected reason ->
      AppErrorFields.retryable (normalizeError toLowerCase (asError reason)) = false ->
      let appError := normalizeError toLowerCase (asError reason) in
      RetryRun.completion run = Throws (AppErr appError)
      /\ RetryRun.errorHistory run
         = recordError now errorHistory appError (Z.of_nat j)
      /\ last (RetryRun.errorHistory run)
         = Some (recordedState now appError (Z.of_nat j))
      /\ RetryRun.events run = retrySteps config 0 j ++ [Attempt]
      /\ attemptsMade (RetryRun.events run) = S j
      /\ sleepsMade (RetryRun.events run) = j)
  /\ ((0 <= maxRetries)%Z ->
      (forall i, (Z.of_nat i <= maxRetries)%Z ->
                 retryableFailure toLowerCase (fn i) = true) ->
      exists reason,
        fn (Z.to_nat maxRetries) = Rejected reason
        /\ let appError := normalizeError toLowerCase (asError reason) in
           RetryRun.completion run
           = Throws (AppErr (newAppError
                               (context ++ " 失败，已重试 " ++ pretty maxRetries
                                ++ " 次: " ++ AppErrorFields.message appError)%string
                               (AppErrorFields.type appError) false
                               (Some (asError reason))))
           /\ last (RetryRun.errorHistory run)
              = Some (recordedState now appError maxRetries)
           /\ RetryRun.events run
              = retrySteps config 0 (Z.to_nat maxRetries) ++ [Attempt]
           /\ Z.of_nat (attemptsMade (RetryRun.events run)) = (maxRetries + 1)%Z
           /\ Z.of_nat (sleepsMade (RetryRun.events run)) = maxRetries)
  /\ (maxRetries = 0%Z ->
      RetryRun.events run = [Attempt]).
Proof.
  split; [|split].
  - intros j reason Hj Hfail Hfn Hr. cbn zeta.
    rewrite (withRetry_not_retryable j reason) by assumption.
    cbn [RetryRun.completion RetryRun.errorHistory RetryRun.events].
    split; [reflexivity|]. split; [reflexivity|].
    split; [apply recordError_last|]. split; [reflexivity|].
    destruct (retrySteps_counts config 0 j) as [Ha Hs].
    unfold attemptsMade, sleepsMade in *.
    rewrite !List.filter_app, !length_app, Ha, Hs. cbn. lia.
  - intros Hmax Hfail.
    destruct (withRetry_exhausted Hmax Hfail) as (reason & Hfn & Hrun).
    exists reason. split; [exact Hfn|]. cbn zeta in *. rewrite Hrun.
    cbn [RetryRun.completion RetryRun.errorHistory RetryRun.events].
    split; [reflexivity|]. split; [apply recordError_last|].
    split; [reflexivity|].
    destruct (retrySteps_counts config 0 (Z.to_nat maxRetries)) as [Ha Hs].
    unfold attemptsMade, sleepsMade in *.
    rewrite !List.filter_app, !length_app, Ha, Hs. cbn. lia.
  - intros Hzero.
    destruct (withRetry_shape toLowerCase T config fn context now errorHistory)
      as (n & Hn & Hev); [fold maxRetries; lia|].
    fold maxRetries in Hn. assert (n = 0%nat) as -> by lia. exact Hev.
Qed.

(** C4.  If the run makes a [(k+1)]-th attempt, [k >= 1], then what
    comes just before that attempt is a delay of
    [min (baseDelay * backoffMultiplier ^ (k - 1)) maxDelay]; with the
    default configuration the delays are 1000, 2000, 4000, 8000 and then
    10000. *)
Theorem retry_delay_spec (k : nat) :
  (1 <= k)%nat ->
  (k < attemptsMade (RetryRun.events run))%nat ->
  RetryRun.events run !! (2 * k)%nat = Some Attempt
  /\ attemptsMade (take (2 * k) (RetryRun.events run)) = k
  /\ RetryRun.events run !! (2 * k - 1)%nat
     = Some (Sleep (Qmin (RetryConfig.baseDelay config
                          * RetryConfig.backoffMultiplier config ^ (Z.of_nat k - 1))
                         (RetryConfig.maxDelay config)))
  /\ map (calculateDelay DEFAULT_RETRY_CONFIG) [1; 2; 3; 4; 5; 6]%Z
     = [1000; 2000; 4000; 8000; 10000; 10000]%Q.
Proof.
  intros Hk Hmade.
  destruct (Z.lt_ge_cases maxRetries 0) as [Hneg|Hpos].
  { subst run.
    rewrite (withRetry_negative toLowerCase T config fn context now errorHistory)
      in Hmade by assumption.
    cbn in Hmade. lia. }
  destruct (withRetry_shape toLowerCase T config fn context now errorHistory)
    as (n & Hn & Hev); [assumption|].
  fold run in Hev. rewrite Hev in *.
  destruct (retrySteps_counts config 0 n) as [Ha _].
  assert (Hkn : (k <= n)%nat).
  { unfold attemptsMade in *.
    rewrite List.filter_app, length_app, Ha in Hmade. cbn in Hmade. lia. }
  split; [|split; [|split]].
  - destruct (decide (k < n)%nat) as [Hlt|Hge].
    + rewrite lookup_app_l by (rewrite retrySteps_length; lia).
      apply retrySteps_lookup. assumption.
    + assert (k = n) as -> by lia.
      rewrite lookup_app_r by (rewrite retrySteps_length; lia).
      rewrite retrySteps_length, Nat.sub_diag. reflexivity.
  - replace n with (k + (n - k))%nat by lia.
    unfold retrySteps at 1. rewrite seq_app, flat_map_app.
    fold (retrySteps config 0 k). rewrite <- app_assoc.
    rewrite take_app_length' by (rewrite retrySteps_length; lia).
    apply retrySteps_counts.
  - rewrite lookup_app_l by (rewrite retrySteps_length; lia).
    destruct (retrySteps_lookup config n (k - 1)) as [_ Hs]; [lia|].
    replace (2 * (k - 1) + 1)%nat with (2 * k - 1)%nat in Hs by lia.
    rewrite Hs. unfold calculateDelay. cbn zeta.
    replace (Z.of_nat (k - 1) + 1 - 1)%Z with (Z.of_nat k - 1)%Z by lia.
    reflexivity.
  - vm_compute. reflexivity.
Qed.

End RetryProperties.

Lemma withRetry_spec_witness :
  RetryRun.events
    (withRetry asciiToLowerCase DEFAULT_RETRY_CONFIG []
       (alwaysFails "Unexpected token: cannot parse") "load" "2026-01-05T02:00:00Z")
  = [Attempt]
  /\ Z.of_nat
       (attemptsMade
          (RetryRun.events
             (withRetry asciiToLowerCase DEFAULT_RETRY_CONFIG []
                (alwaysFails "socket hang up") "load" "2026-01-05T02:00:00Z")))
     = 4%Z.
Proof.
  split.
  - destruct (withRetry_spec asciiToLowerCase unit DEFAULT_RETRY_CONFIG []
                (alwaysFails "Unexpected token: cannot parse") "load"
                "2026-01-05T02:00:00Z") as (Ha & _ & _).
    destruct (Ha 0%nat (ThrownError (PlainError "Unexpected token: cannot parse")))
      as (_ & _ & _ & Hev & _).
    + cbn. lia.
    + intros i Hi. lia.
    + reflexivity.
    + vm_compute. reflexivity.
    + exact Hev.
  - destruct (withRetry_spec asciiToLowerCase unit DEFAULT_RETRY_CONFIG []
                (alwaysFails "socket hang up") "load"
                "2026-01-05T02:00:00Z") as (_ & Hb & _).
    destruct Hb as (reason & _ & _ & _ & _ & Hattempts & _).
    + cbn. lia.
    + intros i _. vm_compute. reflexivity.
    + exact Hattempts.
Defined.

Lemma retry_delay_spec_witness :
  RetryRun.events
    (withRetry asciiToLowerCase DEFAULT_RETRY_CONFIG []
       (alwaysFails "socket hang up") "load" "2026-01-05T02:00:00Z") !! 3%nat
  = Some (Sleep (Qmin (1000 * 2 ^ (Z.of_nat 2 - 1)) 10000)).
Proof.
  destruct (retry_delay_spec asciiToLowerCase unit DEFAULT_RETRY_CONFIG []
              (alwaysFails "socket hang up") "load" "2026-01-05T02:00:00Z" 2)
    as (_ & _ & Hsleep & _).
  - lia.
  - vm_compute. lia.
  - exact Hsleep.
Defined.

(** ** Bounded batch executor *)

Section BatchExecutor.

Context {T R : Type}.
Variable fn : T -> option R.

Lemma mapM_app (a b : list T) :
  mapM fn (a ++ b)
  = match mapM fn a with
    | Some ra => match mapM fn b with
                 | Some rb => Some (ra ++ rb)
                 | None => None
                 end
    | None => None
    end.
Proof.
  induction a as [|x a IH]; cbn.
  - destruct (mapM fn b); reflexivity.
  - destruct (fn x) as [y|]; cbn; [|reflexivity].
    rewrite IH. destruct (mapM fn a); cbn; [|reflexivity].
    destruct (mapM fn b); reflexivity.
Qed.

Lemma sequentialMap_mapM (items : list T) :
  forall results, sequentialMap items fn results = settle results (mapM fn items).
Proof.
  induction items as [|item rest IH]; intros results; cbn.
  - rewrite app_nil_r. reflexivity.
  - destruct (fn item) as [r|]; cbn; [|reflexivity].
    rewrite IH. destruct (mapM fn rest); cbn; [|reflexivity].
    rewrite <- app_assoc. reflexivity.
Qed.

(** A chunk never holds more than [concurrency] items. *)
Lemma slice_length_le (items : list T) (i concurrency : nat) :
  (length (slice items i (i + concurrency)) <= concurrency)%nat.
Proof. unfold slice. rewrite length_take. lia. Qed.

Lemma batchExecuteLoop_mapM (items : list T) (concurrency : nat) :
  (1 <= concurrency)%nat ->
  forall fuel i results,
    (length items - i <= fuel)%nat ->
    batchExecuteLoop fuel items fn concurrency i results
    = settle results (mapM fn (drop i items)).
Proof.
  intros Hc. induction fuel as [|fuel IH]; intros i results Hfuel;
    cbn [batchExecuteLoop];
    destruct (Nat.ltb_spec i (length items)) as [Hlt|Hge]; try lia.
  - rewrite drop_ge by lia. cbn. rewrite app_nil_r. reflexivity.
  - unfold promiseAll, slice.
    replace (i + concurrency - i)%nat with concurrency by lia.
    rewrite <- (take_drop concurrency (drop i items)) at 2.
    rewrite mapM_app, drop_drop.
    destruct (mapM fn (take concurrency (drop i items))) as [batchResults|];
      [|reflexivity].
    rewrite IH by lia.
    destruct (mapM fn (drop (i + concurrency) items)); cbn; [|reflexivity].
    rewrite app_assoc. reflexivity.
  - rewrite drop_ge by lia. cbn. rewrite app_nil_r. reflexivity.
Qed.

(** With a ceiling of 0 the index never advances. *)
Lemma batchExecuteLoop_zero (items : list T) (fuel i : nat) (results : list R) :
  (i < length items)%nat ->
  batchExecuteLoop fuel items fn 0 i results = BatchPending.
Proof.
  intros Hlt. revert results.
  induction fuel as [|fuel IH]; intros results; cbn [batchExecuteLoop];
    destruct (Nat.ltb_spec i (length items)); try lia; [reflexivity|].
  unfold promiseAll, slice. replace (i + 0 - i)%nat with 0%nat by lia.
  rewrite take_0. cbn [mapM]. rewrite Nat.add_0_r. apply IH.
Qed.

Lemma batchExecute_settle (items : list T) (concurrency : nat) :
  (1 <= concurrency)%nat ->
  batchExecute items fn concurrency = settle [] (mapM fn items).
Proof.
  intros Hc. unfold batchExecute.
  rewrite (batchExecuteLoop_mapM items concurrency Hc) by lia.
  rewrite drop_0. reflexivity.
Qed.

(** C8.  For a ceiling of at least 1, [batchExecute] behaves as the
    sequential map of the operation over the items, and when it resolves
    the result has the length of the input and its [i]-th entry is what
    the operation gives for the [i]-th item. *)
Theorem batchExecute_spec (items : list T) (concurrency : nat) :
  (1 <= concurrency)%nat ->
  batchExecute items fn concurrency = sequentialMap items fn []
  /\ batchExecute items fn concurrency = settle [] (mapM fn items)
  /\ (forall results,
        batchExecute items fn concurrency = BatchResolved results ->
        length results = length items
        /\ forall i item, items !! i = Some item ->
                          exists r, fn item = Some r /\ results !! i = Some r).
Proof.
  intros Hc.
  pose proof (batchExecute_settle items concurrency Hc) as Hbatch.
  split; [|split].
  - rewrite Hbatch, sequentialMap_mapM. reflexivity.
  - exact Hbatch.
  - intros results Hres. rewrite Hbatch in Hres.
    destruct (mapM fn items) as [rs|] eqn:HmapM; [|discriminate].
    cbn in Hres. injection Hres as <-.
    apply mapM_Some in HmapM. split.
    + symmetry. eapply Forall2_length. exact HmapM.
    + intros i item Hi.
      destruct (Forall2_lookup_l _ _ _ _ _ HmapM Hi) as (r & Hr & Hfn).
      exists r. auto.
Qed.

End BatchExecutor.

Lemma batchExecute_spec_witness :
  batchExecute [1; 2; 3; 4; 5]%nat (fun n => Some (10 * n)%nat) 2
  = BatchResolved [10; 20; 30; 40; 50]%nat.
Proof.
  destruct (batchExecute_spec (fun n => Some (10 * n)%nat) [1; 2; 3; 4; 5]%nat 2)
    as (Hseq & _ & _).
  - lia.
  - rewrite Hseq. reflexivity.
Defined.

(** ** Refresh orchestrator *)

Lemma mapM_total {A B : Type} (g : A -> B) (l : list A) :
  mapM (fun x => Some (g x)) l = Some (map g l).
Proof.
  induction l as [|x l IH]; cbn; [reflexivity|]. rewrite IH. reflexivity.
Qed.

Lemma mergeFunds_length now quoteMap hasStockQuotes (watchlist : list Fund.t)
    valuations :
  forall index,
    length (mergeFunds now quoteMap hasStockQuotes watchlist valuations index)
    = length watchlist.
Proof.
  induction watchlist as [|fund rest IH]; intros index; cbn; [reflexivity|].
  rewrite IH. reflexivity.
Qed.

Lemma mergeFunds_lookup now quoteMap hasStockQuotes (watchlist : list Fund.t)
    valuations :
  forall index i fund,
    watchlist !! i = Some fund ->
    mergeFunds now quoteMap hasStockQuotes watchlist valuations index !! i
    = Some (mergeFund (now (index + i)%nat) quoteMap hasStockQuotes fund
                      (mjoin (valuations !! (index + i)%nat))).
Proof.
  induction watchlist as [|fund0 rest IH]; intros index i fund Hi; [discriminate|].
  destruct i as [|i]; cbn in *.
  - injection Hi as ->. rewrite Nat.add_0_r. reflexivity.
  - replace (index + S i)%nat with (S index + i)%nat by lia.
    apply IH. exact Hi.
Qed.

Lemma someTradingDay_false (valuations : list (option FundValuation.t)) :
  someTradingDay valuations = false
  <-> forall v, Some v ∈ valuations -> FundValuation.isTradingDay v = false.
Proof.
  unfold someTradingDay. induction valuations as [|v0 rest IH]; cbn.
  - split; [|reflexivity]. intros _ v Hv. inversion Hv.
  - rewrite orb_false_iff, IH. split.
    + intros [H0 Hrest] v Hv. apply elem_of_cons in Hv as [<-|Hv]; auto.
    + intros H. split.
      * destruct v0 as [v0|]; [|reflexivity]. apply H. left.
      * intros v Hv. apply H. right. exact Hv.
Qed.

Section RefreshProperties.

Variable getFundValuation : string -> option FundValuation.t.
Variable requestQuotes : list string -> list StockQuote.t.
Variable saveWatchlist : list Fund.t -> option Thrown.
Variable now : nat -> string.

Let refresh := updateAllValuations getFundValuation requestQuotes saveWatchlist now.
Let valuationsOf (watchlist : list Fund.t) : list (option FundValuation.t) :=
  map (fun fund => getFundValuation (Fund.code fund)) watchlist.
Let fetchedOf (watchlist : list Fund.t) : list RefreshEvent :=
  map (fun fund => GetFundValuation (Fund.code fund)) watchlist.

(** The batch of valuation requests resolves to one entry per fund. *)
Lemma valuations_resolved (watchlist : list Fund.t) :
  batchExecute watchlist (fun fund => Some (getFundValuation (Fund.code fund)))
               MAX_CONCURRENT_REQUESTS
  = BatchResolved (valuationsOf watchlist).
Proof.
  rewrite batchExecute_settle by (unfold MAX_CONCURRENT_REQUESTS; lia).
  rewrite mapM_total. reflexivity.
Qed.

(** The refresh when no valuation reports a live session. *)
Lemma refresh_not_trading (watchlist : list Fund.t) :
  watchlist <> [] ->
  someTradingDay (valuationsOf watchlist) = false ->
  refresh watchlist = RefreshRun.mk (RefreshReturns watchlist) (fetchedOf watchlist).
Proof.
  intros Hne Hday. subst refresh. unfold updateAllValuations.
  destruct watchlist as [|fund rest]; [congruence|].
  cbn [length Nat.eqb]. rewrite valuations_resolved, Hday. reflexivity.
Qed.

(** The refresh when some valuation reports a live session. *)
Lemma refresh_trading (watchlist : list Fund.t) :
  someTradingDay (valuationsOf watchlist) = true ->
  let allStockCodes := collectStockCodes watchlist in
  let quotes := getStockQuotes requestQuotes allStockCodes in
  let updatedFunds :=
    mergeFunds now (newQuoteMap quotes) (Nat.ltb 0 (length quotes)) watchlist
               (valuationsOf watchlist) 0 in
  refresh watchlist
  = RefreshRun.mk
      (match saveWatchlist updatedFunds with
       | Some reason => RefreshThrows reason
       | None => RefreshReturns updatedFunds
       end)
      (fetchedOf watchlist
       ++ [GetStockQuotes allStockCodes; SaveWatchlist updatedFunds]).
Proof.
  intros Hday. cbn zeta. subst refresh. unfold updateAllValuations.
  destruct watchlist as [|fund rest]; [discriminate|].
  cbn [length Nat.eqb]. rewrite valuations_resolved, Hday. cbn [negb].
  destruct (saveWatchlist _); reflexivity.
Qed.

(** C6.  For a tracked set that is not empty, if no valuation fetched in
    the cycle reports a live trading session (in particular if every
    fetch failed), the refresh returns the tracked set as it is; the only
    calls it makes are the valuation requests, one per fund: it asks for
    no quotes and saves nothing.  Refreshing the returned set again gives
    the same. *)
Theorem refresh_not_trading_spec (watchlist : list Fund.t) :
  watchlist <> [] ->
  (forall fund v, fund ∈ watchlist ->
                  getFundValuation (Fund.code fund) = Some v ->
                  FundValuation.isTradingDay v = false) ->
  RefreshRun.completion (refresh watchlist) = RefreshReturns watchlist
  /\ RefreshRun.events (refresh watchlist)
     = map (fun fund => GetFundValuation (Fund.code fund)) watchlist
  /\ (forall codes, GetStockQuotes codes ∉ RefreshRun.events (refresh watchlist))
  /\ (forall funds, SaveWatchlist funds ∉ RefreshRun.events (refresh watchlist))
  /\ (forall funds, RefreshRun.completion (refresh watchlist) = RefreshReturns funds ->
                    refresh funds = refresh watchlist).
Proof.
  intros Hne Hclosed.
  assert (Hday : someTradingDay (valuationsOf watchlist) = false).
  { apply someTradingDay_false. intros v Hv. subst valuationsOf.
    apply list_elem_of_fmap in Hv as (fund & Hv & Hin). eauto. }
  rewrite (refresh_not_trading watchlist Hne Hday).
  cbn [RefreshRun.completion RefreshRun.events].
  split; [reflexivity|]. split; [reflexivity|].
  split; [|split].
  - intros codes Hin. subst fetchedOf.
    apply list_elem_of_fmap in Hin as (fund & Heq & _). discriminate.
  - intros funds Hin. subst fetchedOf.
    apply list_elem_of_fmap in Hin as (fund & Heq & _). discriminate.
  - intros funds Heq. injection Heq as <-.
    apply (refresh_not_trading watchlist Hne Hday).
Qed.

(** C7.  If the quote request of the cycle yields no quote and the fund
    at index [i] has no primary valuation, then the set that the refresh
    produces has, at index [i], the very record it was given; the refresh
    returns that set unless saving it fails, in which case it throws what
    the storage threw. *)
Theorem refresh_stale_retained (watchlist : list Fund.t) (i : nat) (fund : Fund.t) :
  watchlist !! i = Some fund ->
  getFundValuation (Fund.code fund) = None ->
  getStockQuotes requestQuotes (collectStockCodes watchlist) = [] ->
  exists updatedFunds,
    updatedFunds !! i = Some fund
    /\ length updatedFunds = length watchlist
    /\ (RefreshRun.completion (refresh watchlist) = RefreshReturns updatedFunds
        \/ exists reason,
             saveWatchlist updatedFunds = Some reason
             /\ RefreshRun.completion (refresh watchlist) = RefreshThrows reason).
Proof.
  intros Hi Hval Hquotes.
  destruct (someTradingDay (valuationsOf watchlist)) eqn:Hday.
  - pose proof (refresh_trading watchlist Hday) as Hrun. cbn zeta in Hrun.
    rewrite Hquotes in Hrun. cbn [length Nat.ltb Nat.leb] in Hrun.
    set (updatedFunds := mergeFunds now (newQuoteMap []) false watchlist
                                    (valuationsOf watchlist) 0) in *.
    exists updatedFunds. split; [|split].
    + subst updatedFunds. rewrite (mergeFunds_lookup _ _ _ _ _ 0 i fund Hi).
      cbn [Nat.add]. subst valuationsOf. cbn beta.
      rewrite list_lookup_fmap, Hi. cbn. rewrite Hval. reflexivity.
    + apply mergeFunds_length.
    + rewrite Hrun. cbn [RefreshRun.completion].
      destruct (saveWatchlist updatedFunds) as [reason|]; [right|left]; eauto.
  - assert (Hne : watchlist <> []) by (intros ->; discriminate).
    exists watchlist. split; [exact Hi|]. split; [reflexivity|]. left.
    rewrite (refresh_not_trading watchlist Hne Hday). reflexivity.
Qed.

(** The refresh always completes, and the only failure it lets through
    is that of the storage. *)
Lemma refresh_completes (watchlist : list Fund.t) :
  (exists funds, RefreshRun.completion (refresh watchlist) = RefreshReturns funds)
  \/ (exists funds reason,
        saveWatchlist funds = Some reason
        /\ RefreshRun.completion (refresh watchlist) = RefreshThrows reason).
Proof.
  destruct watchlist as [|fund rest] eqn:Hw; [left; exists []; reflexivity|].
  rewrite <- Hw. assert (Hne : watchlist <> []) by (rewrite Hw; discriminate).
  destruct (someTradingDay (valuationsOf watchlist)) eqn:Hday.
  - pose proof (refresh_trading watchlist Hday) as Hrun. cbn zeta in Hrun.
    rewrite Hrun. cbn [RefreshRun.completion].
    destruct (saveWatchlist _) as [reason|] eqn:Hsave; [right|left]; eauto.
  - left. exists watchlist. rewrite (refresh_not_trading watchlist Hne Hday).
    reflexivity.
Qed.

End RefreshProperties.

Lemma refresh_not_trading_spec_witness :
  RefreshRun.completion
    (updateAllValuations noValuation noQuotes saveSucceeds fixedClock
       [sampleFund "000001"; sampleFund "000002"])
  = RefreshReturns [sampleFund "000001"; sampleFund "000002"].
Proof.
  destruct (refresh_not_trading_spec noValuation noQuotes saveSucceeds fixedClock
              [sampleFund "000001"; sampleFund "000002"]) as (Hret & _).
  - discriminate.
  - intros fund v _ Hv. discriminate.
  - exact Hret.
Defined.

Lemma refresh_stale_retained_witness :
  exists updatedFunds,
    updatedFunds !! 1%nat = Some (sampleFund "000002")
    /\ RefreshRun.completion
         (updateAllValuations onlyFirstValued noQuotes saveSucceeds fixedClock
            [sampleFund "000001"; sampleFund "000002"])
       = RefreshReturns updatedFunds.
Proof.
  destruct (refresh_stale_retained onlyFirstValued noQuotes saveSucceeds fixedClock
              [sampleFund "000001"; sampleFund "000002"] 1 (sampleFund "000002"))
    as (updatedFunds & Hi & _ & [Hret | (reason & Hsave & _)]).
  - reflexivity.
  - reflexivity.
  - reflexivity.
  - exists updatedFunds. split; assumption.
  - discriminate.
Defined.

(** In the cycle of the example above the first fund takes the numbers of
    its valuation and the second keeps its own; both are saved. *)
Example refresh_example :
  updateAllValuations onlyFirstValued noQuotes saveSucceeds fixedClock
    [sampleFund "000001"; sampleFund "000002"]
  = let merged :=
      [ {| Fund.code := "000001"
         ; Fund.name := "sample"
         ; Fund.netValue := 1.5
         ; Fund.netValueDate := "2026-01-02"
         ; Fund.estimatedValue := 1.52
         ; Fund.estimatedChange := 1.3
         ; Fund.updateTime := "2026-01-05 10:00"
         ; Fund.isRealValue := Some false
         ; Fund.holdings := [Holding.mk "600000" "bank" 60 2 10] |}
      ; sampleFund "000002" ] in
    RefreshRun.mk (RefreshReturns merged)
      [ GetFundValuation "000001"; GetFundValuation "000002"
      ; GetStockQuotes ["600000"]; SaveWatchlist merged ].
Proof. vm_compute. reflexivity. Qed.

(** ** Update scheduler *)

Section SchedulerProperties.

Variable config : SchedulerConfig.t.

Let maxRetries := SchedulerConfig.maxRetries config.
Let retryDelay := SchedulerConfig.retryDelay config.

(** A cycle that ran and failed: the counter goes up by one, the message
    is kept, and either a retry is scheduled or the error is sent. *)
Lemma executeUpdate_failed (status : SchedulerStatus.t) (c : Cycle.t) :
  failedCycle c = true ->
  executeUpdate config status (Cycle.force c) (Cycle.now c) (Cycle.outcome c)
                (Cycle.finishedAt c)
  = ({| SchedulerStatus.isRunning := SchedulerStatus.isRunning status
      ; SchedulerStatus.lastUpdateTime := SchedulerStatus.lastUpdateTime status
      ; SchedulerStatus.lastError :=
          match Cycle.outcome c with
          | Rejected error => Some (updateErrorMessage error)
          | Fulfilled _ => None
          end
      ; SchedulerStatus.consecutiveErrors :=
          (SchedulerStatus.consecutiveErrors status + 1)%Z |},
     [failureEffect config (SchedulerStatus.consecutiveErrors status + 1) c]).
Proof.
  unfold failedCycle, executeUpdate, handleUpdateError, failureEffect,
    terminalErrorMessage.
  intros H. apply andb_true_iff in H as [Hran Hout].
  destruct (Cycle.outcome c) as [funds|error]; [discriminate|].
  destruct (Cycle.force c); cbn [negb andb orb] in *.
  - cbn [SchedulerStatus.consecutiveErrors].
    destruct (_ <? _)%Z; reflexivity.
  - rewrite Hran. cbn [negb SchedulerStatus.consecutiveErrors].
    destruct (_ <? _)%Z; reflexivity.
Qed.

(** A cycle that ran and succeeded: the counter is reset, the time is
    recorded and the funds are sent. *)
Lemma executeUpdate_succeeded (status : SchedulerStatus.t) (c : Cycle.t) :
  successfulCycle c = true ->
  exists updatedFunds,
    Cycle.outcome c = Fulfilled updatedFunds
    /\ executeUpdate config status (Cycle.force c) (Cycle.now c) (Cycle.outcome c)
                     (Cycle.finishedAt c)
       = ({| SchedulerStatus.isRunning := SchedulerStatus.isRunning status
           ; SchedulerStatus.lastUpdateTime := Some (Cycle.finishedAt c)
           ; SchedulerStatus.lastError := None
           ; SchedulerStatus.consecutiveErrors := 0 |},
          [SendValuationUpdate updatedFunds]).
Proof.
  unfold successfulCycle, executeUpdate.
  intros H. apply andb_true_iff in H as [Hran Hout].
  destruct (Cycle.outcome c) as [funds|error]; [|discriminate].
  exists funds. split; [reflexivity|].
  destruct (Cycle.force c); cbn [negb andb orb] in *; [reflexivity|].
  rewrite Hran. reflexivity.
Qed.

(** A cycle outside trading hours that is not forced does nothing. *)
Lemma executeUpdate_gated (status : SchedulerStatus.t) now cycle finishedAt :
  isMarketOpen now = false ->
  executeUpdate config status false now cycle finishedAt = (status, []).
Proof. intros H. unfold executeUpdate. rewrite H. reflexivity. Qed.

(** A run of failed cycles. *)
Lemma runCycles_failed (cycles : list Cycle.t) :
  forall status,
    Forall (fun c => failedCycle c = true) cycles ->
    SchedulerStatus.consecutiveErrors (fst (runCycles config status cycles))
    = (SchedulerStatus.consecutiveErrors status + Z.of_nat (length cycles))%Z
    /\ snd (runCycles config status cycles)
       = failureEffects config (SchedulerStatus.consecutiveErrors status) cycles.
Proof.
  induction cycles as [|c rest IH]; intros status Hall.
  - cbn. split; [lia | reflexivity].
  - apply Forall_cons in Hall as [Hc Hrest].
    cbn [runCycles failureEffects]. rewrite (executeUpdate_failed status c Hc).
    match goal with
    | |- context [runCycles config ?st rest] =>
        specialize (IH st Hrest); destruct (runCycles config st rest) as [st2 eff2]
    end.
    cbn [fst snd SchedulerStatus.consecutiveErrors] in *.
    destruct IH as [Hcount Heff]. split.
    + rewrite Hcount. rewrite length_cons. lia.
    + rewrite Heff. reflexivity.
Qed.

(** Failures that keep the counter below [maxRetries] schedule retries. *)
Lemma failureEffects_below (cycles : list Cycle.t) :
  forall count,
    (count + Z.of_nat (length cycles) < maxRetries)%Z ->
    failureEffects config count cycles
    = replicate (length cycles) (SetTimeout retryDelay).
Proof.
  induction cycles as [|c rest IH]; intros count Hlt; [reflexivity|].
  cbn [failureEffects length replicate]. rewrite length_cons in Hlt.
  rewrite IH by lia. unfold failureEffect. fold maxRetries.
  replace (count + 1 <? maxRetries)%Z with true
    by (symmetry; apply Z.ltb_lt; lia).
  reflexivity.
Qed.

(** Failures that bring the counter to [maxRetries] schedule retries up
    to the last one, which sends the error instead. *)
Lemma failureEffects_reach (cycles : list Cycle.t) :
  forall count,
    cycles <> [] ->
    (count + Z.of_nat (length cycles) = maxRetries)%Z ->
    exists message,
      failureEffects config count cycles
      = replicate (length cycles - 1) (SetTimeout retryDelay) ++ [SendError message].
Proof.
  induction cycles as [|c rest IH]; intros count Hne Hreach; [congruence|].
  rewrite length_cons in Hreach. cbn [failureEffects].
  destruct rest as [|c2 rest2].
  - cbn [length] in *. cbn [failureEffects]. unfold failureEffect. fold maxRetries.
    replace (count + 1 <? maxRetries)%Z with false
      by (symmetry; apply Z.ltb_ge; lia).
    eexists. reflexivity.
  - destruct (IH (count + 1)%Z) as [message Heq]; [discriminate | lia |].
    exists message. rewrite Heq. unfold failureEffect at 1. fold maxRetries.
    replace (count + 1 <? maxRetries)%Z with true
      by (symmetry; apply Z.ltb_lt; rewrite length_cons in Hreach; lia).
    cbn [length]. replace (S (S (length rest2)) - 1)%nat
      with (S (S (length rest2) - 1)) by lia.
    reflexivity.
Qed.

Lemma filter_isSendError_timeouts (n : nat) (ms : Q) :
  List.filter isSendError (replicate n (SetTimeout ms)) = [].
Proof. induction n as [|n IH]; [reflexivity | exact IH]. Qed.

Lemma filter_isSetTimeout_timeouts (n : nat) (ms : Q) :
  List.filter isSetTimeout (replicate n (SetTimeout ms))
  = replicate n (SetTimeout ms).
Proof. induction n as [|n IH]; [reflexivity|]. cbn. f_equal. exact IH. Qed.

(** C5.  Start with no consecutive error and let [maxRetries] cycles
    fail one after the other.  Each failure adds one to
    [consecutiveErrors]; as long as the counter is below [maxRetries] each
    failure schedules a one-shot retry after [retryDelay] and sends
    nothing; the failure that brings the counter to [maxRetries] schedules
    no retry and sends the error, so that the whole run sends exactly one
    error notification.  A successful cycle after that resets the counter
    to 0 and records the time of the update. *)
Theorem scheduler_failures_spec (status : SchedulerStatus.t)
    (cycles : list Cycle.t) (next : Cycle.t) :
  SchedulerStatus.consecutiveErrors status = 0%Z ->
  Forall (fun c => failedCycle c = true) cycles ->
  cycles <> [] ->
  Z.of_nat (length cycles) = maxRetries ->
  successfulCycle next = true ->
  let after := runCycles config status cycles in
  let final :=
    executeUpdate config (fst after) (Cycle.force next) (Cycle.now next)
                  (Cycle.outcome next) (Cycle.finishedAt next) in
  (forall k, (k <= length cycles)%nat ->
             SchedulerStatus.consecutiveErrors
               (fst (runCycles config status (take k cycles)))
             = Z.of_nat k)
  /\ (forall k, (k < length cycles)%nat ->
                snd (runCycles config status (take k cycles))
                = replicate k (SetTimeout retryDelay))
  /\ (exists message,
        snd after
        = replicate (length cycles - 1) (SetTimeout retryDelay)
          ++ [SendError message])
  /\ length (List.filter isSendError (snd after)) = 1%nat
  /\ length (List.filter isSetTimeout (snd after)) = (length cycles - 1)%nat
  /\ SchedulerStatus.consecutiveErrors (fst after) = maxRetries
  /\ SchedulerStatus.consecutiveErrors (fst final) = 0%Z
  /\ SchedulerStatus.lastUpdateTime (fst final) = Some (Cycle.finishedAt next).
Proof.
  intros Hzero Hall Hne Hlen Hnext after final.
  assert (Hprefix : forall k, Forall (fun c => failedCycle c = true) (take k cycles))
    by (intros k; apply Forall_take; exact Hall).
  destruct (runCycles_failed cycles status Hall) as [Hcount Heff].
  fold after in Hcount, Heff. rewrite Hzero in Hcount, Heff.
  destruct (failureEffects_reach cycles 0) as [message Hreach]; [assumption | lia |].
  split; [|split; [|split; [|split; [|split; [|split; [|split]]]]]].
  - intros k Hk. destruct (runCycles_failed (take k cycles) status (Hprefix k))
      as [Hc _].
    rewrite Hc, Hzero, length_take. lia.
  - intros k Hk. destruct (runCycles_failed (take k cycles) status (Hprefix k))
      as [_ He].
    rewrite He, Hzero, failureEffects_below by (rewrite length_take; lia).
    rewrite length_take. f_equal. lia.
  - exists message. rewrite Heff. exact Hreach.
  - rewrite Heff, Hreach, List.filter_app, length_app.
    rewrite filter_isSendError_timeouts. reflexivity.
  - rewrite Heff, Hreach, List.filter_app, length_app.
    rewrite filter_isSetTimeout_timeouts, length_replicate. cbn. lia.
  - rewrite Hcount. lia.
  - subst final. destruct (executeUpdate_succeeded (fst after) next Hnext)
      as (funds & _ & ->). reflexivity.
  - subst final. destruct (executeUpdate_succeeded (fst after) next Hnext)
      as (funds & _ & ->). reflexivity.
Qed.

End SchedulerProperties.

Lemma scheduler_failures_spec_witness :
  length
    (List.filter isSendError
       (snd (runCycles DEFAULT_CONFIG initialStatus
               [failingCycle "timeout"; failingCycle "timeout";
                failingCycle "save failed"])))
  = 1%nat.
Proof.
  destruct (scheduler_failures_spec DEFAULT_CONFIG initialStatus
              [failingCycle "timeout"; failingCycle "timeout";
               failingCycle "save failed"] passingCycle)
    as (_ & _ & _ & Hone & _).
  - reflexivity.
  - repeat constructor.
  - discriminate.
  - reflexivity.
  - reflexivity.
  - exact Hone.
Defined.

(** With the default configuration three failures in a row schedule two
    retries and send one error; the success that follows resets the
    counter. *)
Example scheduler_example :
  runCycles DEFAULT_CONFIG initialStatus
    [failingCycle "timeout"; failingCycle "timeout"; failingCycle "save failed";
     passingCycle]
  = ({| SchedulerStatus.isRunning := false
      ; SchedulerStatus.lastUpdateTime := Some "2026-01-05T02:00:01.000Z"
      ; SchedulerStatus.lastError := None
      ; SchedulerStatus.consecutiveErrors := 0 |},
     [ SetTimeout 2000; SetTimeout 2000
     ; SendError "网络连接异常，请检查网络后重试 (save failed)"
     ; SendValuationUpdate [] ]).
Proof. vm_compute. reflexivity. Qed.

(** The counter is not reset by the notification: a failure that comes
    after it (at the next periodic tick, say) sends the error again. *)
Remark failure_after_terminal_error (config : SchedulerConfig.t)
    (status : SchedulerStatus.t) (c : Cycle.t) :
  failedCycle c = true ->
  (SchedulerConfig.maxRetries config
   <= SchedulerStatus.consecutiveErrors status)%Z ->
  exists message,
    snd (executeUpdate config status (Cycle.force c) (Cycle.now c)
                       (Cycle.outcome c) (Cycle.finishedAt c))
    = [SendError message].
Proof.
  intros Hfailed Hreached. rewrite (executeUpdate_failed config status c Hfailed).
  cbn [snd]. unfold failureEffect.
  replace (_ <? _)%Z with false by (symmetry; apply Z.ltb_ge; lia).
  eexists. reflexivity.
Qed.

(** * Further properties *)

(** ** Error history *)

Lemma recordError_cases (now : string) (errorHistory : list ErrorState.t)
    (error : AppError) (retryCount : Z) :
  recordError now errorHistory error retryCount
  = if Nat.ltb (length errorHistory) maxHistorySize
    then errorHistory ++ [recordedState now error retryCount]
    else tail (errorHistory ++ [recordedState now error retryCount]).
Proof.
  unfold recordError, toErrorState.
  cbn [ErrorState.type ErrorState.message ErrorState.retryable ErrorState.timestamp].
  fold (recordedState now error retryCount).
  rewrite length_app. cbn [length].
  destruct (Nat.ltb_spec maxHistorySize (length errorHistory + 1));
    destruct (Nat.ltb_spec (length errorHistory) maxHistorySize);
    try reflexivity; lia.
Qed.

Lemma recordError_length (now : string) (errorHistory : list ErrorState.t)
    (error : AppError) (retryCount : Z) :
  (length errorHistory <= maxHistorySize)%nat ->
  (length (recordError now errorHistory error retryCount) <= maxHistorySize)%nat.
Proof.
  intros Hlen. rewrite recordError_cases.
  destruct (Nat.ltb_spec (length errorHistory) maxHistorySize) as [Hlt|Hge].
  - rewrite length_app. cbn. lia.
  - destruct errorHistory as [|e0 rest]; cbn in *.
    + unfold maxHistorySize in *. lia.
    + rewrite length_app. cbn. lia.
Qed.

(** X1.  A history of at most 100 entries stays within 100 entries when
    an error is recorded: below the limit the new entry is appended; at
    the limit the oldest entry is dropped and the new one appended, the
    others keeping their order. *)
Theorem recordError_bounded_fifo (now : string) (errorHistory : list ErrorState.t)
    (error : AppError) (retryCount : Z) :
  (length errorHistory <= maxHistorySize)%nat ->
  let recorded := recordError now errorHistory error retryCount in
  (length recorded <= maxHistorySize)%nat
  /\ ((length errorHistory < maxHistorySize)%nat ->
      recorded = errorHistory ++ [recordedState now error retryCount])
  /\ (length errorHistory = maxHistorySize ->
      recorded = tail errorHistory ++ [recordedState now error retryCount])
  /\ getLastError recorded = Some (recordedState now error retryCount).
Proof.
  intros Hlen recorded. subst recorded.
  split; [apply recordError_length; assumption|].
  split; [|split].
  - intros Hlt. rewrite recordError_cases.
    apply Nat.ltb_lt in Hlt. rewrite Hlt. reflexivity.
  - intros Heq. rewrite recordError_cases.
    replace (Nat.ltb (length errorHistory) maxHistorySize) with false
      by (symmetry; apply Nat.ltb_ge; lia).
    destruct errorHistory as [|e0 rest]; [discriminate|]. reflexivity.
  - apply recordError_last.
Qed.

Lemma recordError_bounded_fifo_witness :
  recordError "t1" (replicate 100 (recordedState "t0" (NotFoundError "x") 0))
              (ParseError "数据解析失败" None) 2
  = replicate 99 (recordedState "t0" (NotFoundError "x") 0)
    ++ [recordedState "t1" (ParseError "数据解析失败" None) 2].
Proof.
  destruct (recordError_bounded_fifo "t1"
              (replicate 100 (recordedState "t0" (NotFoundError "x") 0))
              (ParseError "数据解析失败" None) 2) as (_ & _ & Hfull & _).
  - rewrite length_replicate. unfold maxHistorySize. lia.
  - rewrite Hfull; [reflexivity|]. rewrite length_replicate. reflexivity.
Defined.

(** ** Retry executor: how a run ends *)

Section RetryOutcome.

Variable toLowerCase : string -> string.
Variable T : Type.
Variable config : RetryConfig.t.
Variable fn : nat -> Settled T.
Variables context now : string.

Let maxRetries := RetryConfig.maxRetries config.

(** A call that enters the loop either returns a value and leaves the
    history alone, or records one error and throws an [AppError] that is
    not retryable. *)
Lemma loop_outcome (fuel : nat) :
  forall lastError (k : nat) history events,
    (Z.of_nat k <= maxRetries)%Z ->
    (maxRetries + 1 - Z.of_nat k <= Z.of_nat fuel)%Z ->
    let run :=
      withRetryLoop toLowerCase fuel config fn context now lastError
                    (Z.of_nat k) k history events in
    (exists value,
        RetryRun.completion run = Returns value
        /\ RetryRun.errorHistory run = history)
    \/ (exists thrown recorded retryCount,
          RetryRun.completion run = Throws (AppErr thrown)
          /\ AppErrorFields.retryable thrown = false
          /\ AppErrorFields.type thrown = AppErrorFields.type recorded
          /\ (Z.of_nat k <= retryCount <= maxRetries)%Z
          /\ RetryRun.errorHistory run
             = recordError now history recorded retryCount).
Proof.
  induction fuel as [|fuel IH]; intros lastError k history events Hk Hfuel run;
    [lia|].
  subst run. destruct (fn k) as [value|reason] eqn:Hfn.
  - rewrite (loop_fulfilled toLowerCase T config fn context now _ _ _ _ _ value)
      by auto.
    left. exists value. split; reflexivity.
  - destruct (AppErrorFields.retryable (normalizeError toLowerCase (asError reason)))
      eqn:Hr.
    + destruct (Z.eq_dec (Z.of_nat k) maxRetries) as [Heq|Hne].
      * rewrite (loop_exhausted toLowerCase T config fn context now _ _ _ _ _ reason)
          by auto.
        right.
        exists (newAppError
                  (exhaustedMessage config context
                     (normalizeError toLowerCase (asError reason)))
                  (AppErrorFields.type (normalizeError toLowerCase (asError reason)))
                  false (Some (asError reason))),
               (normalizeError toLowerCase (asError reason)), maxRetries.
        cbn. repeat split; try reflexivity; lia.
      * rewrite (loop_retry toLowerCase T config fn context now _ _ _ _ _ reason)
          by (auto; lia).
        destruct (IH (Some (asError reason)) (S k) history
                     (events ++ [Attempt;
                                 Sleep (calculateDelay config (Z.of_nat k + 1))]))
          as [(value & Hc & Hh) | (thrown & recorded & rc & Hc & Hnr & Hty & Hrc & Hh)];
          [lia | lia | left | right].
        -- exists value. auto.
        -- exists thrown, recorded, rc. repeat split; auto; lia.
    + rewrite (loop_not_retryable toLowerCase T config fn context now _ _ _ _ _ reason)
        by auto.
      right.
      exists (normalizeError toLowerCase (asError reason)),
             (normalizeError toLowerCase (asError reason)), (Z.of_nat k).
      cbn. repeat split; try reflexivity; try assumption; lia.
Qed.

Variable errorHistory : list ErrorState.t.

Let run := withRetry toLowerCase config errorHistory fn context now.

Lemma withRetry_outcome :
  (0 <= maxRetries)%Z ->
  (exists value,
      RetryRun.completion run = Returns value
      /\ RetryRun.errorHistory run = errorHistory)
  \/ (exists thrown recorded retryCount,
        RetryRun.completion run = Throws (AppErr thrown)
        /\ AppErrorFields.retryable thrown = false
        /\ AppErrorFields.type thrown = AppErrorFields.type recorded
        /\ (0 <= retryCount <= maxRetries)%Z
        /\ RetryRun.errorHistory run
           = recordError now errorHistory recorded retryCount).
Proof.
  intros Hmax. subst run. unfold withRetry.
  apply (loop_outcome (Z.to_nat (maxRetries + 1)) None 0 errorHistory []); lia.
Qed.

(** X2.  A call of [withRetry] keeps the history within its limit: it
    either leaves the history as it was or records exactly one error, with
    a retry count between 0 and [maxRetries]. *)
Theorem withRetry_history_bounded :
  (length errorHistory <= maxHistorySize)%nat ->
  (length (RetryRun.errorHistory run) <= maxHistorySize)%nat
  /\ (RetryRun.errorHistory run = errorHistory
      \/ exists recorded retryCount,
           (0 <= retryCount <= maxRetries)%Z
           /\ RetryRun.errorHistory run
              = recordError now errorHistory recorded retryCount).
Proof.
  intros Hlen.
  destruct (Z.lt_ge_cases maxRetries 0) as [Hneg|Hpos].
  - subst run.
    rewrite (withRetry_negative toLowerCase T config fn context now errorHistory)
      by assumption.
    cbn. split; [assumption | left; reflexivity].
  - destruct (withRetry_outcome Hpos)
      as [(value & _ & Hh) | (thrown & recorded & rc & _ & _ & _ & Hrc & Hh)];
      rewrite Hh.
    + split; [assumption | left; reflexivity].
    + split; [apply recordError_length; assumption|].
      right. exists recorded, rc. auto.
Qed.

(** X3.  If the attempt number [j] succeeds after [j] retryable failures,
    [withRetry] returns its value after [j] delays and records nothing:
    failures that a retry makes good leave no trace in the history. *)
Theorem withRetry_success_after_retries (j : nat) (value : T) :
  (Z.of_nat j <= maxRetries)%Z ->
  (forall i, (i < j)%nat -> retryableFailure toLowerCase (fn i) = true) ->
  fn j = Fulfilled value ->
  run = RetryRun.mk (Returns value) errorHistory
                    (retrySteps config 0 j ++ [Attempt]).
Proof.
  intros Hj Hfail Hfn. subst run. unfold withRetry. fold maxRetries.
  replace (Z.to_nat (maxRetries + 1))
    with (j + S (Z.to_nat maxRetries - j))%nat by lia.
  destruct (loop_retry_prefix toLowerCase T config fn context now j
              (S (Z.to_nat maxRetries - j)) None 0 errorHistory [])
    as [lastError' Heq]; [cbn; lia | intros i Hi; apply Hfail; lia |].
  change (Z.of_nat 0) with 0%Z in Heq. rewrite Heq.
  change (0 + ?m)%nat with m. change ([] ++ ?l) with l.
  apply (loop_fulfilled toLowerCase T config fn context now); auto.
Qed.

(** X4.  With [maxRetries] not negative, a call of [withRetry] either
    returns a value or throws an [AppError] that is not retryable and that
    the classifier returns as it is; it ends in no other way.  So a second
    [withRetry] (its [maxRetries] not negative either) around an operation
    that ends as the first call does makes one attempt and, when the first
    call throws, throws the same error: nesting does not multiply the
    attempts.  (With a negative [maxRetries] the call throws [null]
    instead, which is no [AppError].) *)
Theorem withRetry_throws_final (outerConfig : RetryConfig.t)
    (outerHistory : list ErrorState.t) (outerFn : nat -> Settled T)
    (outerContext outerNow : string) :
  (0 <= maxRetries)%Z ->
  (0 <= RetryConfig.maxRetries outerConfig)%Z ->
  outerFn 0%nat = settledOf (RetryRun.completion run) ->
  let outer :=
    withRetry toLowerCase outerConfig outerHistory outerFn outerContext outerNow in
  RetryRun.events outer = [Attempt]
  /\ ((exists value,
         RetryRun.completion run = Returns value
         /\ RetryRun.completion outer = Returns value)
      \/ (exists thrown,
            RetryRun.completion run = Throws (AppErr thrown)
            /\ AppErrorFields.retryable thrown = false
            /\ normalizeError toLowerCase (AppErr thrown) = thrown
            /\ RetryRun.completion outer = Throws (AppErr thrown))).
Proof.
  intros Hpos Hmax Houter outer.
  destruct (withRetry_outcome Hpos)
    as [(value & Hc & _) | (thrown & recorded & rc & Hc & Hnr & _)];
    rewrite Hc in Houter; cbn [settledOf] in Houter; subst outer.
  - assert (Hrun : withRetry toLowerCase outerConfig outerHistory outerFn
                             outerContext outerNow
                   = RetryRun.mk (Returns value) outerHistory [Attempt]).
    { unfold withRetry.
      replace (Z.to_nat (RetryConfig.maxRetries outerConfig + 1))
        with (S (Z.to_nat (RetryConfig.maxRetries outerConfig))) by lia.
      apply (loop_fulfilled toLowerCase T outerConfig outerFn outerContext outerNow
               (Z.to_nat (RetryConfig.maxRetries outerConfig)) None 0 outerHistory
               [] value);
        [exact Hmax | exact Houter]. }
    rewrite Hrun. split; [reflexivity|].
    left. exists value. split; [exact Hc | reflexivity].
  - rewrite (withRetry_not_retryable toLowerCase T outerConfig outerHistory outerFn
               outerContext outerNow 0 (ThrownError (AppErr thrown)));
      [| cbn; lia | intros i Hi; lia | exact Houter | exact Hnr].
    split; [reflexivity|].
    right. exists thrown. repeat split; [exact Hc | exact Hnr].
Qed.

(** X5.  With a negative [maxRetries] the operation is never called:
    [withRetry] throws [null] at once, records nothing and waits for
    nothing. *)
Theorem withRetry_negative_maxRetries :
  (maxRetries < 0)%Z ->
  run = RetryRun.mk ThrowsNull errorHistory []
  /\ attemptsMade (RetryRun.events run) = 0%nat.
Proof.
  intros Hneg. subst run.
  rewrite (withRetry_negative toLowerCase T config fn context now errorHistory)
    by assumption.
  split; reflexivity.
Qed.

End RetryOutcome.

Lemma withRetry_history_bounded_witness :
  (length
     (RetryRun.errorHistory
        (withRetry asciiToLowerCase DEFAULT_RETRY_CONFIG
           (replicate 100 (recordedState "t0" (NotFoundError "x") 0))
           (alwaysFails "permission denied") "save" "t1"))
   <= maxHistorySize)%nat.
Proof.
  apply (withRetry_history_bounded asciiToLowerCase unit DEFAULT_RETRY_CONFIG
           (alwaysFails "permission denied") "save" "t1"
           (replicate 100 (recordedState "t0" (NotFoundError "x") 0))).
  rewrite length_replicate. unfold maxHistorySize. lia.
Defined.

Lemma withRetry_success_after_retries_witness :
  withRetry asciiToLowerCase DEFAULT_RETRY_CONFIG []
            (failsThenSucceeds 2 "socket hang up" 7%nat) "load" "t1"
  = RetryRun.mk (Returns 7%nat) []
                [Attempt; Sleep 1000; Attempt; Sleep 2000; Attempt].
Proof.
  rewrite (withRetry_success_after_retries asciiToLowerCase nat DEFAULT_RETRY_CONFIG
             (failsThenSucceeds 2 "socket hang up" 7%nat) "load" "t1" [] 2 7%nat).
  - reflexivity.
  - cbn. lia.
  - intros i Hi. destruct i as [|[|i]]; [reflexivity | reflexivity | lia].
  - reflexivity.
Defined.

Lemma withRetry_throws_final_witness :
  RetryRun.events
    (withRetry asciiToLowerCase DEFAULT_RETRY_CONFIG []
       (fun _ =>
          settledOf
            (RetryRun.completion
               (withRetry asciiToLowerCase DEFAULT_RETRY_CONFIG []
                  (alwaysFails "socket hang up") "inner" "t1")))
       "outer" "t2")
  = [Attempt].
Proof.
  destruct (withRetry_throws_final asciiToLowerCase unit DEFAULT_RETRY_CONFIG
              (alwaysFails "socket hang up") "inner" "t1" []
              DEFAULT_RETRY_CONFIG []
              (fun _ =>
                 settledOf
                   (RetryRun.completion
                      (withRetry asciiToLowerCase DEFAULT_RETRY_CONFIG []
                         (alwaysFails "socket hang up") "inner" "t1")))
              "outer" "t2") as [Hev _].
  - cbn. lia.
  - cbn. lia.
  - reflexivity.
  - exact Hev.
Defined.

Lemma withRetry_negative_maxRetries_witness :
  attemptsMade
    (RetryRun.events
       (withRetry asciiToLowerCase (RetryConfig.mk (-1) 1000 10000 2) []
          (alwaysFails "socket hang up") "load" "t1"))
  = 0%nat.
Proof.
  apply (withRetry_negative_maxRetries asciiToLowerCase unit
           (RetryConfig.mk (-1) 1000 10000 2) (alwaysFails "socket hang up")
           "load" "t1" []).
  cbn. lia.
Defined.

(** ** Backoff delays *)

Lemma Qmult_le_compat_nonneg_l (z x y : Q) :
  (0 <= z)%Q -> (x <= y)%Q -> (z * x <= z * y)%Q.
Proof.
  intros Hz Hxy. rewrite (Qmult_comm z x), (Qmult_comm z y).
  apply Qmult_le_compat_r; assumption.
Qed.

(** X6.  With a base delay that is not negative and a multiplier of at
    least 1, the delays never decrease from one retry to the next, are
    never negative, and never exceed [maxDelay]. *)
Theorem calculateDelay_monotone_bounded (config : RetryConfig.t) (k1 k2 : Z) :
  (0 <= RetryConfig.baseDelay config)%Q ->
  (1 <= RetryConfig.backoffMultiplier config)%Q ->
  (0 <= RetryConfig.maxDelay config)%Q ->
  (k1 <= k2)%Z ->
  (0 <= calculateDelay config k1)%Q
  /\ (calculateDelay config k1 <= calculateDelay config k2)%Q
  /\ (calculateDelay config k2 <= RetryConfig.maxDelay config)%Q.
Proof.
  intros Hbase Hmult Hmax Hk. unfold calculateDelay. cbn zeta.
  assert (Hpos : (0 <= RetryConfig.backoffMultiplier config)%Q)
    by (apply Qle_trans with 1%Q; [discriminate | assumption]).
  split; [|split].
  - apply Q.min_glb; [|assumption].
    apply Qmult_le_0_compat; [assumption|]. apply Qpower_0_le. assumption.
  - apply Q.min_le_compat_r. apply Qmult_le_compat_nonneg_l; [assumption|].
    apply Qpower_le_compat_l; [lia | assumption].
  - apply Q.le_min_r.
Qed.

Lemma calculateDelay_monotone_bounded_witness :
  (calculateDelay DEFAULT_RETRY_CONFIG 2 <= calculateDelay DEFAULT_RETRY_CONFIG 7)%Q.
Proof.
  apply (calculateDelay_monotone_bounded DEFAULT_RETRY_CONFIG 2 7).
  - cbn. discriminate.
  - cbn. discriminate.
  - cbn. discriminate.
  - lia.
Defined.

(** ** The classified error *)

(** X7.  For an error that is not yet classified, the classified error
    is retryable exactly when its kind is network or storage; it keeps the
    error it came from as [originalError] unless its kind is not-found;
    and its message is one of four fixed network texts, the fixed parse or
    storage text, or, for not-found and unknown, the message it was given. *)
Theorem normalizeError_wellformed (toLowerCase : string -> string) (m : string) :
  let a := normalizeError toLowerCase (PlainError m) in
  (AppErrorFields.retryable a = true
   <-> AppErrorFields.type a = NETWORK \/ AppErrorFields.type a = STORAGE)
  /\ AppErrorFields.originalError a
     = match AppErrorFields.type a with
       | NOT_FOUND => None
       | _ => Some (PlainError m)
       end
  /\ match AppErrorFields.type a with
     | NETWORK => In (AppErrorFields.message a) networkMessages
                  /\ AppErrorFields.name a = "NetworkError"
     | PARSE => AppErrorFields.message a = "数据解析失败"
                /\ AppErrorFields.name a = "ParseError"
     | STORAGE => AppErrorFields.message a = "存储操作失败"
                  /\ AppErrorFields.name a = "StorageError"
     | NOT_FOUND => AppErrorFields.message a = m
                    /\ AppErrorFields.name a = "NotFoundError"
     | UNKNOWN => AppErrorFields.message a = m
                  /\ AppErrorFields.name a = "AppError"
     end.
Proof.
  cbn zeta. rewrite normalizeError_cascade. cbn zeta.
  destruct (existsb (includes (toLowerCase m)) networkWords).
  { cbn. split; [split; [auto | reflexivity]|]. split; [reflexivity|].
    split; [|reflexivity]. unfold getNetworkErrorMessage, networkMessages.
    cbn [errorMessage].
    destruct (includes (toLowerCase m) "timeout"); [cbn; tauto|].
    destruct (includes (toLowerCase m) "econnrefused"); [cbn; tauto|].
    destruct (includes (toLowerCase m) "enotfound"); cbn; tauto. }
  destruct (existsb (includes (toLowerCase m)) parseWords).
  { cbn. split; [split; [discriminate | intros [H|H]; discriminate]|].
    repeat split. }
  destruct (existsb (includes (toLowerCase m)) storageWords).
  { cbn. split; [split; [auto | reflexivity]|]. repeat split. }
  destruct (existsb (includes (toLowerCase m)) notFoundWords).
  { cbn. split; [split; [discriminate | intros [H|H]; discriminate]|].
    repeat split. }
  cbn. split; [split; [discriminate | intros [H|H]; discriminate]|].
  repeat split.
Qed.

(** ** Quote maps and valuations *)

Lemma fold_insert_lookup (quotes : list StockQuote.t) (code : string) :
  forall m : gmap string StockQuote.t,
    fold_left (fun m quote => <[StockQuote.code quote := quote]> m) quotes m !! code
    = match lastQuoteFor code quotes with
      | Some q => Some q
      | None => m !! code
      end.
Proof.
  unfold lastQuoteFor.
  induction quotes as [|q rest IH]; intros m; cbn [fold_left List.filter];
    [reflexivity|].
  rewrite IH. destruct (String.eqb_spec (StockQuote.code q) code) as [Heq|Hne].
  - destruct (List.filter _ rest) as [|q2 rest2] eqn:Hf.
    + cbn. rewrite <- Heq. apply lookup_insert_eq.
    + change (last (q :: q2 :: rest2)) with (last (q2 :: rest2)).
      destruct (last (q2 :: rest2)) eqn:Hl; [reflexivity|].
      apply last_None in Hl. discriminate.
  - destruct (last (List.filter _ rest)); [reflexivity|].
    apply lookup_insert_ne. assumption.
Qed.

Lemma quoteMapOf_lookup (quotes : list StockQuote.t) (code : string) :
  quoteMapOf quotes !! code = lastQuoteFor code quotes.
Proof.
  unfold quoteMapOf. rewrite fold_insert_lookup, lookup_empty.
  destruct (lastQuoteFor code quotes); reflexivity.
Qed.

Lemma newQuoteMap_quoteMapOf (quotes : list StockQuote.t) :
  newQuoteMap quotes = quoteMapOf quotes.
Proof.
  unfold newQuoteMap, quoteMapOf. generalize (∅ : gmap string StockQuote.t).
  induction quotes as [|q rest IH]; intros m; cbn; [reflexivity|]. apply IH.
Qed.

Lemma lastQuoteFor_Some (code : string) (quotes : list StockQuote.t)
    (q : StockQuote.t) :
  lastQuoteFor code quotes = Some q -> In q quotes /\ StockQuote.code q = code.
Proof.
  unfold lastQuoteFor. intros Hl.
  assert (Hin : In q (List.filter (fun q => String.eqb (StockQuote.code q) code) quotes)).
  { apply list_elem_of_In. apply last_Some in Hl as [l' ->].
    apply elem_of_app. right. left. }
  apply List.filter_In in Hin as [Hin Heq]. apply String.eqb_eq in Heq. auto.
Qed.

Lemma lastQuoteFor_None (code : string) (quotes : list StockQuote.t) :
  lastQuoteFor code quotes = None
  <-> forall q, In q quotes -> StockQuote.code q <> code.
Proof.
  unfold lastQuoteFor. rewrite last_None. split.
  - intros Hnil q Hin Heq.
    assert (Hf : In q (List.filter (fun q => String.eqb (StockQuote.code q) code) quotes))
      by (apply List.filter_In; split; [assumption | apply String.eqb_eq; assumption]).
    rewrite Hnil in Hf. inversion Hf.
  - intros Hall. destruct (List.filter _ quotes) as [|q rest] eqn:Hf; [reflexivity|].
    assert (Hin : In q (List.filter (fun q => String.eqb (StockQuote.code q) code) quotes))
      by (rewrite Hf; left; reflexivity).
    apply List.filter_In in Hin as [Hin Heq]. apply String.eqb_eq in Heq.
    exfalso. exact (Hall q Hin Heq).
Qed.

(** X8.  In the map that the calculator builds from a quote list, and in
    the one that the refresh builds, a code is bound to the last quote of
    the list that carries it, and to nothing if no quote carries it; what
    is found under a code is a quote of the list with that code. *)
Theorem quoteMap_last_wins (quotes : list StockQuote.t) (code : string) :
  quoteMapOf quotes !! code = lastQuoteFor code quotes
  /\ newQuoteMap quotes !! code = lastQuoteFor code quotes
  /\ (forall q, quoteMapOf quotes !! code = Some q ->
                In q quotes /\ StockQuote.code q = code)
  /\ (quoteMapOf quotes !! code = None
      <-> forall q, In q quotes -> StockQuote.code q <> code).
Proof.
  split; [apply quoteMapOf_lookup|].
  split; [rewrite newQuoteMap_quoteMapOf; apply quoteMapOf_lookup|].
  split.
  - intros q Hq. rewrite quoteMapOf_lookup in Hq. apply lastQuoteFor_Some. exact Hq.
  - rewrite quoteMapOf_lookup. apply lastQuoteFor_None.
Qed.

Lemma matchedHoldings_full (quoteMap : gmap string StockQuote.t)
    (holdings : list Holding.t) :
  length (matchedHoldings quoteMap holdings) = length holdings
  <-> forall h, In h holdings -> is_Some (quoteMap !! Holding.stockCode h).
Proof.
  induction holdings as [|h rest IH].
  - cbn. split; [intros _ h []| reflexivity].
  - pose proof (matchedHoldings_length_le quoteMap rest) as Hle.
    unfold matchedHoldings in *. cbn [omap list_omap length].
    destruct (quoteMap !! Holding.stockCode h) as [q|] eqn:Hq; cbn [fmap option_fmap option_map length].
    + split.
      * intros Hlen h' [<-|Hin]; [rewrite Hq; eauto|].
        apply IH; [lia | assumption].
      * intros Hall. f_equal. apply IH. intros h' Hin. apply Hall. right. exact Hin.
    + split; [lia|]. intros Hall.
      destruct (Hall h (or_introl eq_refl)) as [q Hsome]. congruence.
Qed.

Lemma calculateWeightedChange_isComplete (holdings : list Holding.t)
    (quoteMap : gmap string StockQuote.t) :
  WeightedChange.isComplete (calculateWeightedChange holdings quoteMap) = true
  <-> holdings <> []
      /\ forall h, In h holdings -> is_Some (quoteMap !! Holding.stockCode h).
Proof.
  unfold calculateWeightedChange.
  pose proof (weightedChangeLoop_spec quoteMap holdings 0%Q 0%nat) as Hloop.
  cbn zeta in Hloop.
  destruct (weightedChangeLoop quoteMap holdings 0%Q 0%nat) as [totalChange matchedCount].
  cbn [fst snd] in Hloop. destruct Hloop as [_ Hc].
  cbn [WeightedChange.isComplete].
  rewrite andb_true_iff, Nat.eqb_eq, Nat.ltb_lt, <- matchedHoldings_full, Hc.
  destruct holdings as [|h rest].
  - cbn [length]. split; intros [H1 H2]; [lia | congruence].
  - split; intros [H1 H2]; cbn [length] in *;
      (split; [try discriminate; lia | lia]).
Qed.

(** X9.  The valuation computed from a quote list is flagged complete
    exactly when the fund has at least one holding and every holding's
    code is the code of some quote of the list. *)
Theorem calculateValuation_complete_iff (now : string) (fund : FundDetail.t)
    (quotes : list StockQuote.t) :
  Valuation.isComplete (calculateValuation now fund quotes) = true
  <-> FundDetail.holdings fund <> []
      /\ forall h, In h (FundDetail.holdings fund) ->
                   exists q, In q quotes /\ StockQuote.code q = Holding.stockCode h.
Proof.
  unfold calculateValuation. cbn [Valuation.isComplete].
  rewrite calculateWeightedChange_isComplete. split; intros [Hne Hall]; split; auto.
  - intros h Hin. destruct (Hall h Hin) as [q Hq].
    rewrite quoteMapOf_lookup in Hq. apply lastQuoteFor_Some in Hq. eauto.
  - intros h Hin. destruct (Hall h Hin) as (q & Hq & Hcode).
    destruct (quoteMapOf quotes !! Holding.stockCode h) as [q'|] eqn:Hl; [eauto|].
    rewrite quoteMapOf_lookup in Hl.
    exfalso. exact (proj1 (lastQuoteFor_None _ _) Hl q Hq Hcode).
Qed.

Lemma weightedChangeLoop_unmatched (quoteMap : gmap string StockQuote.t)
    (holdings : list Holding.t) :
  (forall h, In h holdings -> quoteMap !! Holding.stockCode h = None) ->
  forall totalChange matchedCount,
    weightedChangeLoop quoteMap holdings totalChange matchedCount
    = (totalChange, matchedCount).
Proof.
  induction holdings as [|h rest IH]; intros Hnone totalChange matchedCount;
    cbn [weightedChangeLoop]; [reflexivity|].
  rewrite (Hnone h (or_introl eq_refl)). apply IH.
  intros h' Hin. apply Hnone. right. exact Hin.
Qed.

(** X10.  When no quote of the list carries the code of any holding (in
    particular when the list is empty or the fund has no holding), the
    computed change is 0, the estimated value is the net value, and the
    result is flagged incomplete. *)
Theorem calculateValuation_without_quotes (now : string) (fund : FundDetail.t)
    (quotes : list StockQuote.t) :
  (forall h q, In h (FundDetail.holdings fund) -> In q quotes ->
               StockQuote.code q <> Holding.stockCode h) ->
  let v := calculateValuation now fund quotes in
  Valuation.estimatedChange v = 0%Q
  /\ (Valuation.estimatedValue v == FundDetail.netValue fund)%Q
  /\ Valuation.isComplete v = false
  /\ Valuation.updateTime v = now.
Proof.
  intros Hnone. cbn zeta. unfold calculateValuation, calculateWeightedChange.
  rewrite weightedChangeLoop_unmatched.
  - cbn [Valuation.estimatedChange Valuation.estimatedValue Valuation.isComplete
         Valuation.updateTime WeightedChange.estimatedChange
         WeightedChange.isComplete].
    split; [reflexivity|]. split; [unfold calculateEstimatedValue; field|].
    split; [|reflexivity].
    destruct (FundDetail.holdings fund); reflexivity.
  - intros h Hin. rewrite quoteMapOf_lookup. apply lastQuoteFor_None.
    intros q Hq. apply Hnone; assumption.
Qed.

Lemma calculateValuation_without_quotes_witness :
  Valuation.estimatedChange
    (calculateValuation "t1"
       (FundDetail.mk "000001" "sample" "" 1.5 "2026-01-02"
                      [Holding.mk "600000" "bank" 60 2 10])
       [StockQuote.mk "000002" "other" 10 3 0])
  = 0%Q.
Proof.
  apply (calculateValuation_without_quotes "t1"
           (FundDetail.mk "000001" "sample" "" 1.5 "2026-01-02"
                          [Holding.mk "600000" "bank" 60 2 10])
           [StockQuote.mk "000002" "other" 10 3 0]).
  intros h q [<-|[]] [<-|[]]. discriminate.
Defined.

(** ** Bounded batch executor: the chunks *)

Section BatchChunks.

Context {T R : Type}.
Variable fn : T -> option R.

Lemma chunksFrom_concat (size : nat) :
  (1 <= size)%nat ->
  forall fuel (l : list T), (length l <= fuel)%nat ->
                            concat (chunksFrom fuel size l) = l.
Proof.
  intros Hsize. induction fuel as [|fuel IH]; intros l Hlen.
  - destruct l; [reflexivity | cbn in Hlen; lia].
  - destruct l as [|x l]; [reflexivity|].
    cbn [chunksFrom concat]. rewrite IH.
    + apply take_drop.
    + rewrite length_drop. cbn [length] in *. lia.
Qed.

Lemma chunksFrom_sizes (size : nat) :
  (1 <= size)%nat ->
  forall fuel (l : list T),
    Forall (fun b => (1 <= length b <= size)%nat) (chunksFrom fuel size l).
Proof.
  intros Hsize. induction fuel as [|fuel IH]; intros l; [constructor|].
  destruct l as [|x l]; [constructor|].
  cbn [chunksFrom]. constructor; [|apply IH].
  rewrite length_take. cbn [length]. lia.
Qed.

(** Every chunk but the last holds exactly [size] items. *)
Lemma chunksFrom_full (size : nat) :
  forall fuel (l : list T) j b,
    chunksFrom fuel size l !! j = Some b ->
    (S j < length (chunksFrom fuel size l))%nat ->
    length b = size.
Proof.
  induction fuel as [|fuel IH]; intros l j b Hj Hnext; [discriminate|].
  destruct l as [|x l]; [discriminate|].
  cbn [chunksFrom] in *. destruct j as [|j].
  - cbn in Hj. injection Hj as <-. cbn [length] in Hnext.
    destruct (chunksFrom fuel size (drop size (x :: l))) as [|b2 rest] eqn:Hrest;
      [cbn in Hnext; lia|].
    rewrite length_take.
    destruct (Nat.le_gt_cases size (length (x :: l))) as [Hle|Hgt]; [lia|].
    rewrite drop_ge in Hrest by lia.
    destruct fuel; discriminate.
  - cbn in Hj. cbn [length] in Hnext. eapply IH; [exact Hj | lia].
Qed.

Lemma startedChunks_prefix (chs : list (list T)) :
  startedChunks fn chs `prefix_of` chs.
Proof.
  induction chs as [|b rest IH]; cbn; [reflexivity|].
  destruct (mapM fn b).
  - apply prefix_cons. exact IH.
  - exists rest. reflexivity.
Qed.

Lemma startedChunks_all (chs : list (list T)) :
  Forall (fun b => is_Some (mapM fn b)) chs -> startedChunks fn chs = chs.
Proof.
  induction 1 as [|b rest [rs Hb] Hrest IH]; cbn; [reflexivity|].
  rewrite Hb, IH. reflexivity.
Qed.

Lemma startedChunks_failing (chs : list (list T)) :
  ~ Forall (fun b => is_Some (mapM fn b)) chs ->
  exists earlier failing,
    startedChunks fn chs = earlier ++ [failing]
    /\ Forall (fun b => is_Some (mapM fn b)) earlier
    /\ mapM fn failing = None.
Proof.
  induction chs as [|b rest IH]; intros Hnot.
  - exfalso. apply Hnot. constructor.
  - cbn. destruct (mapM fn b) as [rs|] eqn:Hb.
    + destruct IH as (earlier & failing & Heq & Hearlier & Hfail).
      * intros Hall. apply Hnot. constructor; [eauto | assumption].
      * exists (b :: earlier), failing. rewrite Heq.
        split; [reflexivity|]. split; [constructor; eauto | assumption].
    + exists [], b. split; [reflexivity|]. split; [constructor | assumption].
Qed.

Lemma mapM_concat_Some (chs : list (list T)) :
  is_Some (mapM fn (concat chs)) <-> Forall (fun b => is_Some (mapM fn b)) chs.
Proof.
  induction chs as [|b rest IH]; cbn [concat].
  - split; [constructor | intros _; cbn; eauto].
  - rewrite mapM_app. rewrite Forall_cons. rewrite <- IH.
    destruct (mapM fn b) as [rb|]; [|split; [intros [? ?]; discriminate
                                            | intros [[? ?] _]; discriminate]].
    destruct (mapM fn (concat rest)) as [rr|];
      split; try (intros [? ?]; discriminate); eauto.
    intros [_ [? ?]]. discriminate.
Qed.

(** The instrumented loop gives the result of the loop itself and starts
    the chunks of the remaining items up to the first failing one. *)
Lemma batchExecuteTrace_spec (items : list T) (concurrency : nat) :
  (1 <= concurrency)%nat ->
  forall fuel i results started,
    (length items - i <= fuel)%nat ->
    batchExecuteTrace fuel items fn concurrency i results started
    = (batchExecuteLoop fuel items fn concurrency i results,
       started ++ startedChunks fn (chunksFrom fuel concurrency (drop i items))).
Proof.
  intros Hc. induction fuel as [|fuel IH]; intros i results started Hfuel;
    cbn [batchExecuteTrace batchExecuteLoop chunksFrom];
    destruct (Nat.ltb_spec i (length items)) as [Hlt|Hge]; try lia.
  - cbn. rewrite app_nil_r. reflexivity.
  - destruct (drop i items) as [|x rest] eqn:Hdrop.
    { apply (f_equal length) in Hdrop. rewrite length_drop in Hdrop.
      cbn in Hdrop. lia. }
    rewrite <- Hdrop. unfold promiseAll, slice.
    replace (i + concurrency - i)%nat with concurrency by lia.
    cbn [startedChunks].
    destruct (mapM fn (take concurrency (drop i items))) as [batchResults|];
      [|reflexivity].
    rewrite IH by lia. rewrite drop_drop, <- app_assoc. reflexivity.
  - rewrite drop_ge by lia. cbn. rewrite app_nil_r. reflexivity.
Qed.

Lemma batchExecuteStarted_spec (items : list T) (concurrency : nat) :
  (1 <= concurrency)%nat ->
  batchExecuteStarted items fn concurrency
  = startedChunks fn (chunks concurrency items).
Proof.
  intros Hc. unfold batchExecuteStarted, chunks.
  rewrite (batchExecuteTrace_spec items concurrency Hc) by lia.
  cbn [snd app]. rewrite drop_0. reflexivity.
Qed.

(** X12.  For a ceiling of at least 1 the executor cuts the items into
    consecutive chunks that together are the items in order; no chunk is
    empty or holds more than the ceiling, and all but the last hold exactly
    the ceiling.  The chunks it starts are a prefix of these, and when the
    batch resolves it has started all of them. *)
Theorem batchExecute_chunks (items : list T) (concurrency : nat) :
  (1 <= concurrency)%nat ->
  fst (batchExecuteTrace (length items) items fn concurrency 0 [] [])
  = batchExecute items fn concurrency
  /\ concat (chunks concurrency items) = items
  /\ Forall (fun b => (1 <= length b <= concurrency)%nat) (chunks concurrency items)
  /\ (forall j b, chunks concurrency items !! j = Some b ->
                  (S j < length (chunks concurrency items))%nat ->
                  length b = concurrency)
  /\ batchExecuteStarted items fn concurrency `prefix_of` chunks concurrency items
  /\ (forall results,
        batchExecute items fn concurrency = BatchResolved results ->
        batchExecuteStarted items fn concurrency = chunks concurrency items).
Proof.
  intros Hc.
  split; [rewrite (batchExecuteTrace_spec items concurrency Hc) by lia; reflexivity|].
  split; [apply chunksFrom_concat; [assumption | lia]|].
  split; [apply chunksFrom_sizes; assumption|].
  split; [apply chunksFrom_full|].
  rewrite (batchExecuteStarted_spec items concurrency Hc).
  split; [apply startedChunks_prefix|].
  intros results Hres. rewrite (batchExecute_settle fn items concurrency Hc) in Hres.
  apply startedChunks_all. apply mapM_concat_Some.
  unfold chunks. rewrite chunksFrom_concat by (assumption || lia).
  destruct (mapM fn items); [eauto | discriminate].
Qed.

(** X13.  For a ceiling of at least 1, when the batch rejects, the last
    chunk started is one in which an operation failed; it was started
    whole, every operation of the chunks before it succeeded, and no later
    chunk was started. *)
Theorem batchExecute_rejection (items : list T) (concurrency : nat) :
  (1 <= concurrency)%nat ->
  batchExecute items fn concurrency = BatchRejected ->
  exists earlier failing later,
    batchExecuteStarted items fn concurrency = earlier ++ [failing]
    /\ chunks concurrency items = earlier ++ [failing] ++ later
    /\ Forall (fun b => is_Some (mapM fn b)) earlier
    /\ (exists item, In item failing /\ fn item = None).
Proof.
  intros Hc Hrej. rewrite (batchExecute_settle fn items concurrency Hc) in Hrej.
  rewrite (batchExecuteStarted_spec items concurrency Hc).
  destruct (startedChunks_failing (chunks concurrency items))
    as (earlier & failing & Heq & Hearlier & Hfail).
  - intros Hall. apply mapM_concat_Some in Hall.
    unfold chunks in Hall. rewrite chunksFrom_concat in Hall by (assumption || lia).
    destruct Hall as [rs Hrs]. rewrite Hrs in Hrej. discriminate.
  - destruct (startedChunks_prefix (chunks concurrency items)) as [later Hlater].
    exists earlier, failing, later. split; [exact Heq|].
    split; [rewrite Hlater at 1; rewrite Heq, <- app_assoc; reflexivity|].
    split; [exact Hearlier|].
    apply mapM_None in Hfail. apply List.Exists_exists in Hfail as (item & Hin & Hnone).
    exists item. split; assumption.
Qed.

(** X14.  With a ceiling of 0 and at least one item the loop never ends:
    whatever bound is put on its turns, it is still pending, and no
    operation is ever called; an empty item list resolves at once. *)
Theorem batchExecute_zero_concurrency (items : list T) (fuel : nat) :
  items <> [] ->
  batchExecuteLoop fuel items fn 0 0 [] = BatchPending
  /\ Forall (fun b => b = []) (snd (batchExecuteTrace fuel items fn 0 0 [] []))
  /\ batchExecute (@nil T) fn 0 = BatchResolved [].
Proof.
  intros Hne.
  assert (Hlt : (0 < length items)%nat) by (destruct items; [congruence | cbn; lia]).
  split; [apply batchExecuteLoop_zero; assumption|].
  split; [|reflexivity].
  assert (Hgen : forall started,
             Forall (fun b : list T => b = []) started ->
             Forall (fun b : list T => b = [])
                    (snd (batchExecuteTrace fuel items fn 0 0 [] started))).
  { induction fuel as [|fuel' IH]; intros started Hstarted;
      cbn [batchExecuteTrace];
      destruct (Nat.ltb_spec 0 (length items)); try lia; [exact Hstarted|].
    unfold promiseAll, slice. cbn [Nat.add Nat.sub take mapM].
    cbn. apply IH. apply Forall_app. split; [assumption | repeat constructor]. }
  apply Hgen. constructor.
Qed.

End BatchChunks.

Lemma batchExecute_chunks_witness :
  batchExecuteStarted [1; 2; 3; 4; 5]%nat (fun n => Some (10 * n)%nat) 2
  = [[1; 2]; [3; 4]; [5]]%nat.
Proof.
  destruct (batchExecute_chunks (fun n => Some (10 * n)%nat) [1; 2; 3; 4; 5]%nat 2)
    as (_ & _ & _ & _ & _ & Hall); [lia|].
  rewrite (Hall [10; 20; 30; 40; 50]%nat); reflexivity.
Defined.

Lemma batchExecute_rejection_witness :
  exists earlier failing later,
    batchExecuteStarted [1; 2; 3; 4; 5]%nat
      (fun n => if Nat.eqb n 3 then None else Some n) 2
    = earlier ++ [failing]
    /\ chunks 2 [1; 2; 3; 4; 5]%nat = earlier ++ [failing] ++ later.
Proof.
  destruct (batchExecute_rejection (fun n => if Nat.eqb n 3 then None else Some n)
              [1; 2; 3; 4; 5]%nat 2)
    as (earlier & failing & later & Hstarted & Hchunks & _).
  - lia.
  - reflexivity.
  - exists earlier, failing, later. split; assumption.
Defined.

Lemma batchExecute_zero_concurrency_witness :
  batchExecuteLoop 1000 [1; 2; 3]%nat (fun n => Some n) 0 0 [] = BatchPending.
Proof.
  apply (batchExecute_zero_concurrency (fun n => Some n) [1; 2; 3]%nat 1000).
  discriminate.
Defined.

(** ** Refresh orchestrator: what a cycle changes *)

Lemma updateHolding_identity (quoteMap : gmap string StockQuote.t) (h : Holding.t) :
  holdingIdentity (updateHolding quoteMap h) = holdingIdentity h.
Proof. reflexivity. Qed.

Lemma mergeFund_identity now quoteMap hasStockQuotes fund fundValuation :
  fundIdentity (mergeFund now quoteMap hasStockQuotes fund fundValuation)
  = fundIdentity fund.
Proof.
  unfold mergeFund, fundIdentity.
  destruct fundValuation as [v|]; destruct hasStockQuotes;
    cbn [Fund.code Fund.name Fund.holdings]; try reflexivity;
    rewrite map_map; reflexivity.
Qed.

Lemma mergeFunds_identity now quoteMap hasStockQuotes (watchlist : list Fund.t)
    valuations :
  forall index,
    map fundIdentity (mergeFunds now quoteMap hasStockQuotes watchlist valuations index)
    = map fundIdentity watchlist.
Proof.
  induction watchlist as [|fund rest IH]; intros index; cbn [mergeFunds map];
    [reflexivity|].
  rewrite mergeFund_identity, IH. reflexivity.
Qed.

Lemma someTradingDay_true (getFundValuation : string -> option FundValuation.t)
    (watchlist : list Fund.t) :
  someTradingDay (map (fun fund => getFundValuation (Fund.code fund)) watchlist) = true
  <-> SomeLiveSession getFundValuation watchlist.
Proof.
  unfold someTradingDay, SomeLiveSession. rewrite existsb_exists. split.
  - intros (ov & Hin & Hday). apply in_map_iff in Hin as (fund & <- & Hin).
    destruct (getFundValuation (Fund.code fund)) as [v|] eqn:Hv; [|discriminate].
    exists fund, v. auto.
  - intros (fund & v & Hin & Hv & Hday).
    exists (Some v). split; [|exact Hday].
    apply in_map_iff. exists fund. split; assumption.
Qed.

Section RefreshCycle.

Variable getFundValuation : string -> option FundValuation.t.
Variable requestQuotes : list string -> list StockQuote.t.
Variable saveWatchlist : list Fund.t -> option Thrown.
Variable now : nat -> string.

Let refresh := updateAllValuations getFundValuation requestQuotes saveWatchlist now.
Let valuationsOf (watchlist : list Fund.t) : list (option FundValuation.t) :=
  map (fun fund => getFundValuation (Fund.code fund)) watchlist.
Let quotesOf (watchlist : list Fund.t) : list StockQuote.t :=
  getStockQuotes requestQuotes (collectStockCodes watchlist).
Let mergedOf (watchlist : list Fund.t) : list Fund.t :=
  mergeFunds now (newQuoteMap (quotesOf watchlist))
             (Nat.ltb 0 (length (quotesOf watchlist))) watchlist
             (valuationsOf watchlist) 0.

(** The three ways a refresh can go. *)
Lemma refresh_cases (watchlist : list Fund.t) :
  (watchlist = [] /\ refresh watchlist = RefreshRun.mk (RefreshReturns []) [])
  \/ (watchlist <> []
      /\ someTradingDay (valuationsOf watchlist) = false
      /\ refresh watchlist
         = RefreshRun.mk (RefreshReturns watchlist)
             (map (fun fund => GetFundValuation (Fund.code fund)) watchlist))
  \/ (watchlist <> []
      /\ someTradingDay (valuationsOf watchlist) = true
      /\ refresh watchlist
         = RefreshRun.mk
             (match saveWatchlist (mergedOf watchlist) with
              | Some reason => RefreshThrows reason
              | None => RefreshReturns (mergedOf watchlist)
              end)
             (map (fun fund => GetFundValuation (Fund.code fund)) watchlist
              ++ [GetStockQuotes (collectStockCodes watchlist);
                  SaveWatchlist (mergedOf watchlist)])).
Proof.
  destruct watchlist as [|fund rest] eqn:Hw; [left; split; reflexivity|].
  rewrite <- Hw. assert (Hne : watchlist <> []) by (rewrite Hw; discriminate).
  right. destruct (someTradingDay (valuationsOf watchlist)) eqn:Hday; [right|left].
  - split; [assumption|]. split; [reflexivity|].
    apply (refresh_trading getFundValuation requestQuotes saveWatchlist now
             watchlist Hday).
  - split; [assumption|]. split; [reflexivity|].
    apply (refresh_not_trading getFundValuation requestQuotes saveWatchlist now
             watchlist Hne Hday).
Qed.

(** A refresh that returns in a cycle with a live session returns the
    merged set. *)
Lemma refresh_returns_merged (watchlist funds : list Fund.t) :
  SomeLiveSession getFundValuation watchlist ->
  RefreshRun.completion (refresh watchlist) = RefreshReturns funds ->
  funds = mergedOf watchlist.
Proof.
  intros Hlive Hret. apply someTradingDay_true in Hlive. fold (valuationsOf watchlist) in Hlive.
  destruct (refresh_cases watchlist)
    as [[Hw Hrun] | [(Hne & Hday & Hrun) | (Hne & Hday & Hrun)]].
  - subst watchlist. discriminate.
  - congruence.
  - rewrite Hrun in Hret. cbn [RefreshRun.completion] in Hret.
    destruct (saveWatchlist (mergedOf watchlist)); [discriminate|].
    injection Hret as <-. reflexivity.
Qed.

(** X15.  The set that a refresh returns, and the set that it saves, has
    the funds of the tracked set in the same order, each with its code,
    its name and its holdings' codes, names and weights: a refresh adds,
    drops or reorders neither funds nor holdings. *)
Theorem refresh_preserves_identity (watchlist funds : list Fund.t) :
  RefreshRun.completion (refresh watchlist) = RefreshReturns funds
  \/ In (SaveWatchlist funds) (RefreshRun.events (refresh watchlist)) ->
  map fundIdentity funds = map fundIdentity watchlist.
Proof.
  intros Hfunds.
  destruct (refresh_cases watchlist)
    as [[Hw Hrun] | [(Hne & Hday & Hrun) | (Hne & Hday & Hrun)]];
    rewrite Hrun in Hfunds; cbn [RefreshRun.completion RefreshRun.events] in Hfunds.
  - destruct Hfunds as [Heq|[]]. injection Heq as <-. subst watchlist. reflexivity.
  - destruct Hfunds as [Heq|Hin]; [injection Heq as <-; reflexivity|].
    apply in_map_iff in Hin as (fund & Heq & _). discriminate.
  - assert (Hm : funds = mergedOf watchlist).
    { destruct Hfunds as [Heq|Hin].
      - destruct (saveWatchlist (mergedOf watchlist)); [discriminate|].
        injection Heq as <-. reflexivity.
      - apply in_app_iff in Hin as [Hin|[Heq|[Heq|[]]]].
        + apply in_map_iff in Hin as (fund & Heq & _). discriminate.
        + discriminate.
        + injection Heq as <-. reflexivity. }
    rewrite Hm. apply mergeFunds_identity.
Qed.

(** X16.  In a cycle with a live session, a fund that has a primary
    valuation is published with the estimated value, the estimated change
    and the update time of that valuation, whatever the quotes say; its
    net value and net-value date are replaced by those of the valuation
    only when the valuation is flagged as the real value. *)
Theorem refresh_prefers_valuation (watchlist funds : list Fund.t) (i : nat)
    (fund : Fund.t) (v : FundValuation.t) :
  SomeLiveSession getFundValuation watchlist ->
  watchlist !! i = Some fund ->
  getFundValuation (Fund.code fund) = Some v ->
  RefreshRun.completion (refresh watchlist) = RefreshReturns funds ->
  exists fund',
    funds !! i = Some fund'
    /\ Fund.estimatedValue fund' = FundValuation.estimatedValue v
    /\ Fund.estimatedChange fund' = FundValuation.estimatedChange v
    /\ Fund.updateTime fund' = FundValuation.updateTime v
    /\ Fund.isRealValue fund' = Some (FundValuation.isRealValue v)
    /\ Fund.netValue fund'
       = (if FundValuation.isRealValue v
          then FundValuation.netValue v else Fund.netValue fund)
    /\ Fund.netValueDate fund'
       = (if FundValuation.isRealValue v
          then FundValuation.netValueDate v else Fund.netValueDate fund).
Proof.
  intros Hlive Hi Hv Hret.
  rewrite (refresh_returns_merged watchlist funds Hlive Hret).
  unfold mergedOf. rewrite (mergeFunds_lookup _ _ _ _ _ 0 i fund Hi).
  cbn [Nat.add]. unfold valuationsOf. rewrite list_lookup_fmap, Hi. cbn [fmap option_fmap option_map mjoin option_join].
  rewrite Hv. eexists. split; [reflexivity|]. cbn. repeat split.
Qed.




(** X19.  A refresh saves at most once and asks for quotes at most once;
    what it saves is what it returns, unless the storage refuses it, in
    which case the refresh throws what the storage threw. *)
Theorem refresh_saves_what_it_returns (watchlist : list Fund.t) :
  (length (List.filter isSaveWatchlist (RefreshRun.events (refresh watchlist))) <= 1)%nat
  /\ (length (List.filter isGetStockQuotes (RefreshRun.events (refresh watchlist))) <= 1)%nat
  /\ (forall saved,
        In (SaveWatchlist saved) (RefreshRun.events (refresh watchlist)) ->
        RefreshRun.completion (refresh watchlist) = RefreshReturns saved
        \/ exists reason,
             saveWatchlist saved = Some reason
             /\ RefreshRun.completion (refresh watchlist) = RefreshThrows reason)
  /\ (forall codes,
        In (GetStockQuotes codes) (RefreshRun.events (refresh watchlist)) ->
        codes = collectStockCodes watchlist).
Proof.
  assert (Hfetch : forall l : list Fund.t,
             List.filter isSaveWatchlist
               (map (fun fund => GetFundValuation (Fund.code fund)) l) = []
             /\ List.filter isGetStockQuotes
                  (map (fun fund => GetFundValuation (Fund.code fund)) l) = []).
  { induction l as [|f l [IH1 IH2]]; split; cbn; auto. }
  destruct (refresh_cases watchlist)
    as [[Hw Hrun] | [(Hne & Hday & Hrun) | (Hne & Hday & Hrun)]];
    rewrite Hrun; cbn [RefreshRun.completion RefreshRun.events].
  - cbn. repeat split; try lia; intros ? [].
  - destruct (Hfetch watchlist) as [H1 H2]. rewrite H1, H2. cbn.
    repeat split; try lia; intros x Hin;
      apply in_map_iff in Hin as (fund & Heq & _); discriminate.
  - destruct (Hfetch watchlist) as [H1 H2].
    rewrite !List.filter_app, H1, H2. cbn.
    repeat split; try lia.
    + intros saved Hin. apply in_app_iff in Hin as [Hin|[Heq|[Heq|[]]]].
      * apply in_map_iff in Hin as (fund & Heq & _). discriminate.
      * discriminate.
      * injection Heq as <-.
        destruct (saveWatchlist (mergedOf watchlist)) as [reason|] eqn:Hsave;
          [right; eauto | left; reflexivity].
    + intros codes Hin. apply in_app_iff in Hin as [Hin|[Heq|[Heq|[]]]].
      * apply in_map_iff in Hin as (fund & Heq & _). discriminate.
      * injection Heq as <-. reflexivity.
      * discriminate.
Qed.

End RefreshCycle.

Lemma refresh_preserves_identity_witness :
  map fundIdentity
    [ mergeFund (fixedClock 0) (newQuoteMap (oneQuote ["600000"])) true
                (sampleFund "000001") (onlyFirstValued "000001")
    ; mergeFund (fixedClock 1) (newQuoteMap (oneQuote ["600000"])) true
                (sampleFund "000002") None ]
  = map fundIdentity [sampleFund "000001"; sampleFund "000002"].
Proof.
  apply (refresh_preserves_identity onlyFirstValued oneQuote saveSucceeds fixedClock
           [sampleFund "000001"; sampleFund "000002"]).
  left. reflexivity.
Defined.

Lemma refresh_prefers_valuation_witness :
  exists fund',
    [ mergeFund (fixedClock 0) (newQuoteMap (oneQuote ["600000"])) true
                (sampleFund "000001") (onlyFirstValued "000001")
    ; mergeFund (fixedClock 1) (newQuoteMap (oneQuote ["600000"])) true
                (sampleFund "000002") None ] !! 0%nat = Some fund'
    /\ Fund.estimatedValue fund' = 1.52%Q.
Proof.
  destruct (refresh_prefers_valuation onlyFirstValued oneQuote saveSucceeds fixedClock
              [sampleFund "000001"; sampleFund "000002"]
              [ mergeFund (fixedClock 0) (newQuoteMap (oneQuote ["600000"])) true
                          (sampleFund "000001") (onlyFirstValued "000001")
              ; mergeFund (fixedClock 1) (newQuoteMap (oneQuote ["600000"])) true
                          (sampleFund "000002") None ]
              0 (sampleFund "000001")
              (FundValuation.mk 1.5 "2026-01-02" 1.52 1.3 "2026-01-05 10:00" false true))
    as (fund' & Hi & Hvalue & _).
  - exists (sampleFund "000001"),
      (FundValuation.mk 1.5 "2026-01-02" 1.52 1.3 "2026-01-05 10:00" false true).
    split; [left; reflexivity|]. split; reflexivity.
  - reflexivity.
  - reflexivity.
  - reflexivity.
  - exists fund'. split; [exact Hi | exact Hvalue].
Defined.


(** ** The codes for which quotes are asked *)

Lemma setAdd_elem (s : list string) (x y : string) :
  y ∈ setAdd s x <-> y ∈ s \/ y = x.
Proof.
  unfold setAdd. destruct (decide (x ∈ s)) as [Hin|Hnot].
  - split; [auto|]. intros [H| ->]; assumption.
  - rewrite elem_of_app, list_elem_of_singleton. reflexivity.
Qed.

Lemma setAdd_NoDup (s : list string) (x : string) :
  NoDup s -> NoDup (setAdd s x).
Proof.
  intros Hs. unfold setAdd. destruct (decide (x ∈ s)) as [Hin|Hnot]; [assumption|].
  apply NoDup_app. split; [assumption|]. split.
  - intros y Hy Hy'. apply list_elem_of_singleton in Hy'. subst y. contradiction.
  - apply NoDup_singleton.
Qed.

Lemma addHoldings_spec (holdings : list Holding.t) :
  forall acc,
    NoDup acc ->
    let r := fold_left (fun acc holding => setAdd acc (Holding.stockCode holding))
                       holdings acc in
    NoDup r
    /\ forall c, c ∈ r <-> c ∈ acc \/ exists h, In h holdings /\ Holding.stockCode h = c.
Proof.
  induction holdings as [|h rest IH]; intros acc Hacc; cbn [fold_left].
  - split; [assumption|]. intros c. split; [auto|]. intros [H|(h & [] & _)]. exact H.
  - destruct (IH (setAdd acc (Holding.stockCode h)) (setAdd_NoDup _ _ Hacc))
      as [Hnd Hmem].
    split; [exact Hnd|]. intros c. rewrite Hmem, setAdd_elem. split.
    + intros [[H|H]|(h' & Hin & Hc)]; [auto | |].
      * right. exists h. split; [left; reflexivity | congruence].
      * right. exists h'. split; [right; exact Hin | exact Hc].
    + intros [H|(h' & [<-|Hin] & Hc)]; [auto | auto |].
      right. exists h'. auto.
Qed.

Lemma collectFrom_spec (watchlist : list Fund.t) :
  forall acc,
    NoDup acc ->
    let r := fold_left
               (fun acc fund =>
                  fold_left (fun acc holding => setAdd acc (Holding.stockCode holding))
                            (Fund.holdings fund) acc)
               watchlist acc in
    NoDup r
    /\ forall c, c ∈ r
                 <-> c ∈ acc
                     \/ exists fund h, In fund watchlist /\ In h (Fund.holdings fund)
                                       /\ Holding.stockCode h = c.
Proof.
  induction watchlist as [|fund rest IH]; intros acc Hacc; cbn [fold_left].
  - split; [assumption|]. intros c. split; [auto|].
    intros [H|(fund & h & [] & _)]. exact H.
  - destruct (addHoldings_spec (Fund.holdings fund) acc Hacc) as [Hnd1 Hmem1].
    destruct (IH _ Hnd1) as [Hnd Hmem].
    split; [exact Hnd|]. intros c. rewrite Hmem, Hmem1. split.
    + intros [[H|(h & Hin & Hc)]|(fund' & h & Hf & Hin & Hc)]; [auto | |].
      * right. exists fund, h. split; [left; reflexivity | auto].
      * right. exists fund', h. split; [right; exact Hf | auto].
    + intros [H|(fund' & h & [<-|Hf] & Hin & Hc)]; [auto | |].
      * left. right. exists h. auto.
      * right. exists fund', h. auto.
Qed.

(** X18.  The codes for which the refresh asks quotes are the stock codes
    of the holdings of the tracked funds, each of them once. *)
Theorem collectStockCodes_spec (watchlist : list Fund.t) :
  NoDup (collectStockCodes watchlist)
  /\ forall c, c ∈ collectStockCodes watchlist
               <-> exists fund h, In fund watchlist /\ In h (Fund.holdings fund)
                                  /\ Holding.stockCode h = c.
Proof.
  destruct (collectFrom_spec watchlist [] (NoDup_nil_2)) as [Hnd Hmem].
  split; [exact Hnd|]. intros c. unfold collectStockCodes. rewrite Hmem.
  split; [intros [H|H]; [inversion H | exact H] | auto].
Qed.

(** ** Update scheduler: cycles and the status *)

(** X20.  A cycle neither reads nor changes [isRunning]: run on a
    scheduler that has been stopped in the meantime (a retry timer that
    fires, a refresh that was under way) it has the same effects and
    leaves the same status, [isRunning] apart, as on a running one. *)
Theorem executeUpdate_ignores_running (config : SchedulerConfig.t)
    (status : SchedulerStatus.t) (running force : bool) (now : JsDate.t)
    (cycle : Settled (list Fund.t)) (finishedAt : string) :
  let r1 := executeUpdate config status force now cycle finishedAt in
  let r2 := executeUpdate config (setRunning status running) force now cycle
                          finishedAt in
  snd r2 = snd r1
  /\ fst r2 = setRunning (fst r1) running
  /\ SchedulerStatus.isRunning (fst r1) = SchedulerStatus.isRunning status.
Proof.
  unfold executeUpdate, handleUpdateError, setRunning. cbn zeta.
  destruct (negb force && negb (isMarketOpen now)); [repeat split|].
  destruct cycle as [funds|error]; [repeat split|].
  cbn [SchedulerStatus.consecutiveErrors SchedulerStatus.isRunning
       SchedulerStatus.lastUpdateTime SchedulerStatus.lastError].
  destruct (_ <? _)%Z; repeat split.
Qed.

Lemma executeUpdate_consistent (config : SchedulerConfig.t)
    (status : SchedulerStatus.t) (c : Cycle.t) :
  StatusConsistent status ->
  let r := executeUpdate config status (Cycle.force c) (Cycle.now c)
                         (Cycle.outcome c) (Cycle.finishedAt c) in
  StatusConsistent (fst r)
  /\ length (snd r) = (if ranCycle c then 1 else 0)%nat
  /\ SchedulerStatus.isRunning (fst r) = SchedulerStatus.isRunning status.
Proof.
  intros [Hpos Hiff]. unfold executeUpdate, handleUpdateError, ranCycle,
    StatusConsistent. cbn zeta.
  destruct (Cycle.force c); cbn [negb andb orb].
  - destruct (Cycle.outcome c) as [funds|error].
    + cbn. repeat split; auto; lia.
    + cbn [SchedulerStatus.consecutiveErrors].
      destruct (_ <? _)%Z; cbn; repeat split; try lia; try discriminate.
  - destruct (isMarketOpen (Cycle.now c)); cbn [negb].
    + destruct (Cycle.outcome c) as [funds|error].
      * cbn. repeat split; auto; lia.
      * cbn [SchedulerStatus.consecutiveErrors].
        destruct (_ <? _)%Z; cbn; repeat split; try lia; try discriminate.
    + cbn. repeat split; try tauto.
Qed.

(** X21.  Through any sequence of cycles the status stays consistent:
    the failure counter is never negative and the last error is empty
    exactly while the counter is 0.  Every cycle that is not skipped by
    the market-hours check has exactly one effect (a notification or a
    retry timer), a skipped one has none, and no cycle changes
    [isRunning]. *)
Theorem runCycles_consistent (config : SchedulerConfig.t)
    (status : SchedulerStatus.t) (cycles : list Cycle.t) :
  StatusConsistent status ->
  let r := runCycles config status cycles in
  StatusConsistent (fst r)
  /\ length (snd r) = length (List.filter ranCycle cycles)
  /\ SchedulerStatus.isRunning (fst r) = SchedulerStatus.isRunning status.
Proof.
  revert status. induction cycles as [|c rest IH]; intros status Hcons.
  - cbn. auto.
  - cbn [runCycles List.filter].
    pose proof (executeUpdate_consistent config status c Hcons) as Hstep.
    cbn zeta in Hstep.
    destruct (executeUpdate config status (Cycle.force c) (Cycle.now c)
                            (Cycle.outcome c) (Cycle.finishedAt c))
      as [status1 effects1].
    cbn [fst snd] in Hstep. destruct Hstep as (Hc1 & Hlen1 & Hrun1).
    specialize (IH status1 Hc1). cbn zeta in IH.
    destruct (runCycles config status1 rest) as [status2 effects2].
    cbn [fst snd] in *. destruct IH as (Hc2 & Hlen2 & Hrun2).
    split; [exact Hc2|]. split; [|congruence].
    rewrite length_app, Hlen1, Hlen2. destruct (ranCycle c); cbn; lia.
Qed.

Lemma runCycles_consistent_witness :
  StatusConsistent
    (fst (runCycles DEFAULT_CONFIG initialStatus
            [failingCycle "timeout"; passingCycle; failingCycle "timeout"])).
Proof.
  apply (runCycles_consistent DEFAULT_CONFIG initialStatus
           [failingCycle "timeout"; passingCycle; failingCycle "timeout"]).
  split; [cbn; lia|]. cbn. tauto.
Defined.

(** ** Update scheduler: the life cycle *)

Lemma filter_other_id (id : nat) :
  List.filter (fun x => negb (Nat.eqb x id)) [id] = [].
Proof. cbn. rewrite Nat.eqb_refl. reflexivity. Qed.

Lemma start_consistent (freshId : nat) (s : Scheduler.t) (armed : list nat) :
  TimerConsistent s armed ->
  TimerConsistent (fst (start freshId s)) (armedTimers (snd (start freshId s)) armed).
Proof.
  intros [Harmed Hiff]. unfold start.
  destruct (SchedulerStatus.isRunning (Scheduler.status s)) eqn:Hrun.
  - cbn. split; [assumption|]. rewrite Hrun. exact Hiff.
  - assert (Hnone : Scheduler.intervalId s = None).
    { destruct (Scheduler.intervalId s) as [id|] eqn:Hid; [|reflexivity].
      assert (false = true) by (apply Hiff; eauto). discriminate. }
    rewrite Hnone in Harmed. subst armed. cbn.
    split; [reflexivity|]. split; eauto.
Qed.

Lemma stop_consistent (s : Scheduler.t) (armed : list nat) :
  TimerConsistent s armed ->
  TimerConsistent (fst (stop s)) (armedTimers (snd (stop s)) armed).
Proof.
  intros [Harmed Hiff]. unfold stop.
  destruct (SchedulerStatus.isRunning (Scheduler.status s)) eqn:Hrun; cbn [negb].
  - destruct (Scheduler.intervalId s) as [id|] eqn:Hid; subst armed; cbn.
    + rewrite Nat.eqb_refl. cbn. split; [reflexivity|].
      split; [discriminate | intros [? ?]; discriminate].
    + split; [reflexivity|]. split; [discriminate | intros [? ?]; discriminate].
  - cbn. split; [assumption|]. rewrite Hrun. exact Hiff.
Qed.

Lemma updateConfig_consistent (freshId : nat) (config : PartialSchedulerConfig.t)
    (s : Scheduler.t) (armed : list nat) :
  TimerConsistent s armed ->
  TimerConsistent (fst (updateConfig freshId config s))
                  (armedTimers (snd (updateConfig freshId config s)) armed).
Proof.
  intros [Harmed Hiff]. unfold updateConfig, start, stop. cbn zeta.
  destruct (SchedulerStatus.isRunning (Scheduler.status s)) eqn:Hrun; cbn.
  - destruct (Scheduler.intervalId s) as [id|] eqn:Hid; subst armed; cbn.
    + rewrite Nat.eqb_refl. cbn. split; [reflexivity|]. split; eauto.
    + split; [reflexivity|]. split; eauto.
  - unfold TimerConsistent. cbn [Scheduler.intervalId Scheduler.status].
    split; [exact Harmed|]. rewrite Hrun. exact Hiff.
Qed.

Lemma armedTimers_app (e1 e2 : list TimerEffect) :
  forall armed, armedTimers (e1 ++ e2) armed = armedTimers e2 (armedTimers e1 armed).
Proof.
  induction e1 as [|e e1 IH]; intros armed; [reflexivity|].
  destruct e; cbn; apply IH.
Qed.

Lemma call_counters (c : SchedulerCall) (s : Scheduler.t) :
  let status' := Scheduler.status (fst (call c s)) in
  SchedulerStatus.lastUpdateTime status'
  = SchedulerStatus.lastUpdateTime (Scheduler.status s)
  /\ SchedulerStatus.lastError status' = SchedulerStatus.lastError (Scheduler.status s)
  /\ SchedulerStatus.consecutiveErrors status'
     = SchedulerStatus.consecutiveErrors (Scheduler.status s).
Proof.
  destruct c as [freshId| |freshId config]; cbn zeta;
    unfold call, updateConfig, start, stop; cbn zeta;
    destruct (SchedulerStatus.isRunning (Scheduler.status s)) eqn:Hrun;
    cbn; try rewrite Hrun; cbn; auto.
Qed.

Lemma calls_consistent (cs : list SchedulerCall) :
  forall (s : Scheduler.t) (armed : list nat),
    TimerConsistent s armed ->
    let r := calls cs s in
    TimerConsistent (fst r) (armedTimers (snd r) armed)
    /\ SchedulerStatus.lastUpdateTime (Scheduler.status (fst r))
       = SchedulerStatus.lastUpdateTime (Scheduler.status s)
    /\ SchedulerStatus.lastError (Scheduler.status (fst r))
       = SchedulerStatus.lastError (Scheduler.status s)
    /\ SchedulerStatus.consecutiveErrors (Scheduler.status (fst r))
       = SchedulerStatus.consecutiveErrors (Scheduler.status s).
Proof.
  induction cs as [|c rest IH]; intros s armed Hcons; cbn zeta.
  - cbn. auto.
  - cbn [calls].
    assert (Hstep : TimerConsistent (fst (call c s))
                                    (armedTimers (snd (call c s)) armed)).
    { destruct c as [freshId| |freshId config]; cbn [call].
      - apply start_consistent. exact Hcons.
      - apply stop_consistent. exact Hcons.
      - apply updateConfig_consistent. exact Hcons. }
    pose proof (call_counters c s) as Hcount. cbn zeta in Hcount.
    destruct (call c s) as [s1 effects1]. cbn [fst snd] in Hstep, Hcount.
    specialize (IH s1 _ Hstep). cbn zeta in IH.
    destruct (calls rest s1) as [s2 effects2]. cbn [fst snd] in *.
    rewrite armedTimers_app.
    destruct IH as (H1 & H2 & H3 & H4). destruct Hcount as (G2 & G3 & G4).
    repeat split; try apply H1; congruence.
Qed.

(** X22.  A new scheduler has no periodic timer armed and does not
    run.  Whatever calls of [start], [stop] and [updateConfig] are then
    made, in any order, at most one periodic timer is armed afterwards:
    the one in [intervalId] when the scheduler runs, none when it does
    not; and these calls leave the update time, the last error and the
    failure counter as they were. *)
Theorem scheduler_lifecycle (config : PartialSchedulerConfig.t)
    (cs : list SchedulerCall) :
  TimerConsistent (newScheduler config) []
  /\ (forall (s : Scheduler.t) (armed : list nat),
        TimerConsistent s armed ->
        let r := calls cs s in
        armedTimers (snd r) armed
        = match Scheduler.intervalId (fst r) with Some id => [id] | None => [] end
        /\ (SchedulerStatus.isRunning (Scheduler.status (fst r)) = true
            <-> is_Some (Scheduler.intervalId (fst r)))
        /\ SchedulerStatus.lastUpdateTime (Scheduler.status (fst r))
           = SchedulerStatus.lastUpdateTime (Scheduler.status s)
        /\ SchedulerStatus.lastError (Scheduler.status (fst r))
           = SchedulerStatus.lastError (Scheduler.status s)
        /\ SchedulerStatus.consecutiveErrors (Scheduler.status (fst r))
           = SchedulerStatus.consecutiveErrors (Scheduler.status s)).
Proof.
  split.
  - split; [reflexivity|]. cbn. split; [discriminate | intros [? ?]; discriminate].
  - intros s armed Hcons. cbn zeta.
    destruct (calls_consistent cs s armed Hcons) as ([H1 H2] & H3 & H4 & H5).
    repeat split; try assumption; try apply H2.
Qed.

Lemma scheduler_lifecycle_witness :
  armedTimers
    (snd (calls [CallStart 1; CallStart 2;
                 CallUpdateConfig 3 (PartialSchedulerConfig.mk (Some 30000%Q) None None);
                 CallStop; CallStop; CallStart 4]
                (newScheduler (PartialSchedulerConfig.mk None None None))))
    []
  = [4%nat].
Proof.
  destruct (scheduler_lifecycle (PartialSchedulerConfig.mk None None None)
              [CallStart 1; CallStart 2;
               CallUpdateConfig 3 (PartialSchedulerConfig.mk (Some 30000%Q) None None);
               CallStop; CallStop; CallStart 4]) as [Hnew Hcalls].
  destruct (Hcalls _ _ Hnew) as (Harmed & _).
  rewrite Harmed. reflexivity.
Defined.

(** Stopping twice is stopping once and starting twice is starting
    once: the second call changes nothing and touches no timer. *)
Theorem stop_start_idempotent (s : Scheduler.t) (id1 id2 : nat) :
  stop (fst (stop s)) = (fst (stop s), [])
  /\ start id2 (fst (start id1 s)) = (fst (start id1 s), [])
  /\ SchedulerStatus.isRunning (Scheduler.status (fst (stop s))) = false
  /\ SchedulerStatus.isRunning (Scheduler.status (fst (start id1 s))) = true.
Proof.
  unfold stop, start.
  destruct (SchedulerStatus.isRunning (Scheduler.status s)) eqn:Hrun;
    cbn; rewrite ?Hrun; cbn; repeat split.
Qed.

(** X23.  [updateConfig] on a running scheduler clears the periodic
    timer and arms a new one with the interval of the new configuration,
    launching an update in between; the scheduler still runs afterwards.
    On a stopped scheduler it only replaces the configuration. *)
Theorem updateConfig_restarts (freshId : nat) (config : PartialSchedulerConfig.t)
    (s : Scheduler.t) (old : nat) :
  Scheduler.intervalId s = Some old ->
  SchedulerStatus.isRunning (Scheduler.status s) = true ->
  let merged := mergeSchedulerConfig (Scheduler.config s) config in
  updateConfig freshId config s
  = ({| Scheduler.config := merged
      ; Scheduler.intervalId := Some freshId
      ; Scheduler.status := setRunning (Scheduler.status s) true |},
     [ClearInterval old; LaunchUpdate;
      SetInterval freshId (SchedulerConfig.updateInterval merged)])
  /\ updateConfig freshId config (fst (stop s))
     = ({| Scheduler.config := merged
         ; Scheduler.intervalId := None
         ; Scheduler.status := setRunning (Scheduler.status s) false |}, []).
Proof.
  intros Hid Hrun. unfold updateConfig, start, stop. cbn zeta.
  rewrite Hrun. cbn. rewrite Hid. split; reflexivity.
Qed.

Lemma updateConfig_restarts_witness :
  snd (updateConfig 2 (PartialSchedulerConfig.mk (Some 30000%Q) None None)
                    (fst (start 1 (newScheduler
                                     (PartialSchedulerConfig.mk None None None)))))
  = [ClearInterval 1; LaunchUpdate; SetInterval 2 30000%Q].
Proof.
  destruct (updateConfig_restarts 2 (PartialSchedulerConfig.mk (Some 30000%Q) None None)
              (fst (start 1 (newScheduler
                               (PartialSchedulerConfig.mk None None None)))) 1)
    as [Hrun _].
  - reflexivity.
  - reflexivity.
  - rewrite Hrun. reflexivity.
Defined.

(** ** Stock quote fetcher *)

Lemma parseQuoteItems_spec (items : list (option QuoteItem.t)) :
  forall quotes,
    parseQuoteItems items quotes = quotes ++ map quoteOfItem (itemsBeforeNull items).
Proof.
  induction items as [|[item|] rest IH]; intros quotes; cbn.
  - rewrite app_nil_r. reflexivity.
  - rewrite IH, <- app_assoc. reflexivity.
  - rewrite app_nil_r. reflexivity.
Qed.

Lemma parseQuotes_spec (diff : option (list (option QuoteItem.t))) :
  parseQuotes diff
  = match diff with
    | Some items => map quoteOfItem (itemsBeforeNull items)
    | None => []
    end.
Proof. destruct diff as [items|]; [apply parseQuoteItems_spec | reflexivity]. Qed.

(** X24.  The quote fetcher asks nothing for an empty code list.
    Otherwise it sends the same request at most three times, waiting one
    second after each of the first two failures; it returns what the
    first answer holds (one quote per entry of the answer up to the first
    [null] entry, none if the answer has no list) and the empty list when
    the three requests fail.  It never throws. *)
Theorem fetchStockQuotes_spec
    (request : nat -> string -> HttpResult (option (list (option QuoteItem.t))))
    (codes : list string) :
  let secids := joinSecIds codes in
  let get := HttpGet secids in
  fetchStockQuotes request [] = ([], [])
  /\ (length (List.filter isHttpGet (snd (fetchStockQuotes request codes))) <= 3)%nat
  /\ (codes <> [] ->
      forall data, request 0%nat secids = HttpOk data ->
                   fetchStockQuotes request codes = (parseQuotes data, [get]))
  /\ (codes <> [] ->
      request 0%nat secids = HttpFailed ->
      forall data, request 1%nat secids = HttpOk data ->
                   fetchStockQuotes request codes
                   = (parseQuotes data, [get; Wait 1000; get]))
  /\ (codes <> [] ->
      request 0%nat secids = HttpFailed ->
      request 1%nat secids = HttpFailed ->
      forall data, request 2%nat secids = HttpOk data ->
                   fetchStockQuotes request codes
                   = (parseQuotes data, [get; Wait 1000; get; Wait 1000; get]))
  /\ (codes <> [] ->
      request 0%nat secids = HttpFailed ->
      request 1%nat secids = HttpFailed ->
      request 2%nat secids = HttpFailed ->
      fetchStockQuotes request codes
      = ([], [get; Wait 1000; get; Wait 1000; get]))
  /\ (forall data,
        parseQuotes data
        = match data with
          | Some items => map quoteOfItem (itemsBeforeNull items)
          | None => []
          end).
Proof.
  cbn zeta. split; [reflexivity|].
  split.
  { unfold fetchStockQuotes. destruct codes as [|c rest]; [cbn; lia|].
    cbn [length Nat.eqb]. cbn [quoteAttempts stockMaxRetries Nat.leb Nat.eqb].
    destruct (request 0%nat _); [cbn; lia|].
    destruct (request 1%nat _); [cbn; lia|].
    destruct (request 2%nat _); cbn; lia. }
  split; [|split; [|split; [|split]]].
  - intros Hne data H0. unfold fetchStockQuotes.
    destruct codes as [|c rest]; [congruence|].
    cbn [length Nat.eqb quoteAttempts stockMaxRetries Nat.leb].
    rewrite H0. reflexivity.
  - intros Hne H0 data H1. unfold fetchStockQuotes.
    destruct codes as [|c rest]; [congruence|].
    cbn [length Nat.eqb quoteAttempts stockMaxRetries Nat.leb].
    rewrite H0, H1. reflexivity.
  - intros Hne H0 H1 data H2. unfold fetchStockQuotes.
    destruct codes as [|c rest]; [congruence|].
    cbn [length Nat.eqb quoteAttempts stockMaxRetries Nat.leb].
    rewrite H0, H1, H2. reflexivity.
  - intros Hne H0 H1 H2. unfold fetchStockQuotes.
    destruct codes as [|c rest]; [congruence|].
    cbn [length Nat.eqb quoteAttempts stockMaxRetries Nat.leb].
    rewrite H0, H1, H2. reflexivity.
  - apply parseQuotes_spec.
Qed.

Lemma fetchStockQuotes_spec_witness :
  fetchStockQuotes
    (fun attempt _ =>
       if Nat.eqb attempt 0 then HttpFailed
       else HttpOk (Some [Some (QuoteItem.mk (Some 11%Q) (Some 3%Q) None
                                             (Some "600000") None);
                          None;
                          Some (QuoteItem.mk None None None (Some "000001") None)]))
    ["600000"; "sz000001"]
  = ([StockQuote.mk "600000" "" 11 3 0],
     [HttpGet "1.600000,0.000001"; Wait 1000; HttpGet "1.600000,0.000001"]).
Proof.
  destruct (fetchStockQuotes_spec
              (fun attempt _ =>
                 if Nat.eqb attempt 0 then HttpFailed
                 else HttpOk (Some [Some (QuoteItem.mk (Some 11%Q) (Some 3%Q) None
                                                       (Some "600000") None);
                                    None;
                                    Some (QuoteItem.mk None None None
                                                       (Some "000001") None)]))
              ["600000"; "sz000001"]) as (_ & _ & _ & Hsecond & _).
  rewrite (Hsecond ltac:(discriminate) eq_refl _ eq_refl). reflexivity.
Defined.




(** ** Fund fetcher *)

(** X26.  The valuation built from the provider's data is flagged as the
    real value exactly when its net-value date is today.  A fund merged
    with such a valuation shows the net value of the provider as its
    estimated value too, dated today; merged with a valuation that is not
    the real value it keeps its own net value and date and shows the
    provider's estimate. *)
Theorem real_value_published (parseFloat : string -> option Q)
    (today nowIso : string) (data : JsonpData.t) (now : string)
    (quoteMap : gmap string StockQuote.t) (hasStockQuotes : bool) (fund : Fund.t) :
  let v := valuationOfData parseFloat today nowIso data in
  let fund' := mergeFund now quoteMap hasStockQuotes fund (Some v) in
  (FundValuation.isRealValue v = true <-> orEmpty (JsonpData.jzrq data) = today)
  /\ (FundValuation.isRealValue v = true ->
      Fund.estimatedValue fund' = Fund.netValue fund'
      /\ Fund.netValue fund' = floatOr0 parseFloat (JsonpData.dwjz data)
      /\ Fund.netValueDate fund' = today
      /\ Fund.isRealValue fund' = Some true)
  /\ (FundValuation.isRealValue v = false ->
      Fund.netValue fund' = Fund.netValue fund
      /\ Fund.netValueDate fund' = Fund.netValueDate fund
      /\ Fund.estimatedValue fund' = floatOr0 parseFloat (JsonpData.gsz data)
      /\ Fund.isRealValue fund' = Some false).
Proof.
  cbn zeta. unfold valuationOfData, mergeFund.
  cbn [FundValuation.isRealValue FundValuation.netValue FundValuation.netValueDate
       FundValuation.estimatedValue Fund.estimatedValue Fund.netValue
       Fund.netValueDate Fund.isRealValue].
  destruct (String.eqb_spec (orEmpty (JsonpData.jzrq data)) today) as [Heq|Hne].
  - split; [tauto|]. split; [|discriminate]. intros _. repeat split. exact Heq.
  - split; [split; [discriminate | contradiction]|].
    split; [discriminate|]. intros _. repeat split.
Qed.

Lemma real_value_published_witness :
  Fund.estimatedValue
    (mergeFund "t1" ∅ false (sampleFund "000001")
       (Some (valuationOfData sampleParseFloat "2026-01-05" "t0"
                (JsonpData.mk (Some "1.5230") (Some "1.5300") (Some "0.46")
                              (Some "2026-01-05") (Some "2026-01-05 15:00")))))
  = 1.523%Q.
Proof.
  destruct (real_value_published sampleParseFloat "2026-01-05" "t0"
              (JsonpData.mk (Some "1.5230") (Some "1.5300") (Some "0.46")
                            (Some "2026-01-05") (Some "2026-01-05 15:00"))
              "t1" ∅ false (sampleFund "000001")) as (_ & Hreal & _).
  destruct (Hreal eq_refl) as (Hest & Hnet & _).
  rewrite Hest, Hnet. reflexivity.
Defined.

(** X27.  [getFundDetail] succeeds exactly when the search request
    succeeds and its answer lists an entry with the requested code and
    category 700; the detail then carries the requested code, the net
    value that was fetched and the holdings that were fetched.  In every
    other case it throws an error whose message is the not-found text
    followed by the code. *)
Theorem getFundDetail_spec (code : string)
    (response : HttpResult (option (list SearchItem.t)))
    (netValueInfo : Q * string) (holdings : list Holding.t) :
  let found :=
    exists datas item,
      response = HttpOk (Some datas) /\ In item datas
      /\ SearchItem.CODE item = code /\ SearchItem.CATEGORY item = 700%Z in
  (found ->
   exists detail,
     getFundDetail code response netValueInfo holdings = Fulfilled detail
     /\ FundDetail.code detail = code
     /\ FundDetail.netValue detail = fst netValueInfo
     /\ FundDetail.netValueDate detail = snd netValueInfo
     /\ FundDetail.holdings detail = holdings)
  /\ (~ found ->
      getFundDetail code response netValueInfo holdings
      = Rejected (ThrownError (PlainError ("未找到基金: " ++ code)%string))).
Proof.
  cbn zeta. unfold getFundDetail, parseSearchResult. split.
  - intros (datas & item & -> & Hin & Hcode & Hcat).
    destruct datas as [|d0 rest]; [contradiction|].
    destruct (List.find _ (d0 :: rest)) as [fund|] eqn:Hfind.
    + apply List.find_some in Hfind as [_ Hf].
      apply andb_true_iff in Hf as [Hc _]. apply String.eqb_eq in Hc.
      eexists. split; [reflexivity|]. cbn. repeat split. exact Hc.
    + exfalso. pose proof (List.find_none _ _ Hfind item Hin) as Hnone.
      cbn beta in Hnone. rewrite Hcode, String.eqb_refl, Hcat in Hnone. discriminate.
  - intros Hnot. destruct response as [[datas|]|]; try reflexivity.
    destruct datas as [|d0 rest]; [reflexivity|].
    destruct (List.find _ (d0 :: rest)) as [fund|] eqn:Hfind; [|reflexivity].
    exfalso. apply Hnot. apply List.find_some in Hfind as [Hin Hf].
    apply andb_true_iff in Hf as [Hc Hcat].
    apply String.eqb_eq in Hc. apply Z.eqb_eq in Hcat.
    exists (d0 :: rest), fund. auto.
Qed.

Lemma getFundDetail_spec_witness :
  exists detail,
    getFundDetail "000001"
      (HttpOk (Some [SearchItem.mk "000001" "" 700 (Some "华夏成长") None]))
      (1.5%Q, "2026-01-02") []
    = Fulfilled detail
    /\ FundDetail.code detail = "000001".
Proof.
  destruct (getFundDetail_spec "000001"
              (HttpOk (Some [SearchItem.mk "000001" "" 700 (Some "华夏成长") None]))
              (1.5%Q, "2026-01-02") []) as [Hfound _].
  destruct Hfound as (detail & Hd & Hc & _).
  - exists [SearchItem.mk "000001" "" 700 (Some "华夏成长") None],
           (SearchItem.mk "000001" "" 700 (Some "华夏成长") None).
    split; [reflexivity|]. split; [left; reflexivity|]. split; reflexivity.
  - exists detail. split; assumption.
Defined.

(** ** IPC handlers *)

Lemma existsb_code (code : string) (watchlist : list Fund.t) :
  existsb (fun f => String.eqb (Fund.code f) code) watchlist = true
  <-> In code (fundCodes watchlist).
Proof.
  unfold fundCodes. rewrite existsb_exists, in_map_iff.
  split; intros (f & H1 & H2).
  - apply String.eqb_eq in H2. eauto.
  - exists f. split; [assumption | apply String.eqb_eq; assumption].
Qed.

Lemma findIndex_None (code : string) (watchlist : list Fund.t) :
  findIndex code watchlist = None <-> ~ In code (fundCodes watchlist).
Proof.
  induction watchlist as [|f rest IH]; cbn.
  - split; [intros _ [] | reflexivity].
  - destruct (String.eqb_spec (Fund.code f) code) as [Heq|Hne].
    + split; [discriminate | intros H; exfalso; apply H; left; exact Heq].
    + destruct (findIndex code rest) as [i|]; cbn.
      * split; [discriminate|]. intros H. exfalso.
        assert (Hnone : (@None nat) <> Some i) by discriminate.
        apply Hnone. symmetry. apply IH. intros Hin. apply H. right. exact Hin.
      * split; [|reflexivity]. intros _ [H|H]; [contradiction|].
        apply (proj1 IH eq_refl). exact H.
Qed.

Lemma findIndex_Some (code : string) (watchlist : list Fund.t) :
  forall index,
    findIndex code watchlist = Some index ->
    exists before fund after,
      watchlist = before ++ fund :: after
      /\ length before = index
      /\ Fund.code fund = code
      /\ ~ In code (fundCodes before)
      /\ splice1 index watchlist = before ++ after.
Proof.
  induction watchlist as [|f rest IH]; intros index Hfind; [discriminate|].
  cbn in Hfind. destruct (String.eqb_spec (Fund.code f) code) as [Heq|Hne].
  - injection Hfind as <-. exists [], f, rest. cbn.
    repeat split; auto; unfold splice1; cbn; rewrite ?drop_0; reflexivity.
  - destruct (findIndex code rest) as [i|] eqn:Hrest; [|discriminate].
    cbn in Hfind. injection Hfind as <-.
    destruct (IH i eq_refl) as (before & fund & after & Hw & Hlen & Hcode & Hnot & Hsp).
    exists (f :: before), fund, after. cbn [length app fundCodes map].
    split; [rewrite Hw; reflexivity|]. split; [lia|]. split; [exact Hcode|].
    split.
    + intros [H|H]; [contradiction | exact (Hnot H)].
    + unfold splice1 in *. cbn [take drop app]. rewrite Hsp. reflexivity.
Qed.

Lemma NoDup_codes_removed (before after : list Fund.t) (fund : Fund.t) :
  NoDup (fundCodes (before ++ fund :: after)) ->
  ~ In (Fund.code fund) (fundCodes (before ++ after)).
Proof.
  unfold fundCodes. rewrite !map_app. cbn [map]. intros Hnd Hin.
  apply NoDup_app in Hnd as (_ & Hdisj & Hrest).
  apply NoDup_cons in Hrest as [Hnotin _].
  apply in_app_iff in Hin as [Hin|Hin].
  - apply (Hdisj (Fund.code fund)); [apply list_elem_of_In; exact Hin | left].
  - apply Hnotin. apply list_elem_of_In. exact Hin.
Qed.

Section HandlerProperties.

Variable saveWatchlist : list Fund.t -> option Thrown.
Variable fetchDetail : string -> Settled FundDetail.t.
Variable fetchValuation : string -> option FundValuation.t.
Variable fetchQuotes : list string -> list StockQuote.t.
Variable now : string.


(** X29.  [handleFundRemove] refuses a code that is not tracked and
    stores nothing.  For a tracked code it stores the list without the
    first fund that has the code, the others in their order; when the
    tracked codes are all different the code is gone from what is stored. *)
Theorem handleFundRemove_spec (watchlist : list Fund.t) (code : string) :
  let remove := handleFundRemove (Fulfilled watchlist) saveWatchlist code in
  (~ In code (fundCodes watchlist) ->
   remove = (ipcFail "该基金不在自选列表中", [LoadWatchlist]))
  /\ (In code (fundCodes watchlist) ->
      exists before fund after,
        watchlist = before ++ fund :: after
        /\ Fund.code fund = code
        /\ ~ In code (fundCodes before)
        /\ storedBy (snd remove) = Some (before ++ after)
        /\ (saveWatchlist (before ++ after) = None -> fst remove = ipcOk None)
        /\ (NoDup (fundCodes watchlist) ->
            ~ In code (fundCodes (before ++ after)))).
Proof.
  cbn zeta. unfold handleFundRemove. split.
  - intros Hnot. apply findIndex_None in Hnot. rewrite Hnot. reflexivity.
  - intros Hin. destruct (findIndex code watchlist) as [index|] eqn:Hfind.
    + destruct (findIndex_Some code watchlist index Hfind)
        as (before & fund & after & Hw & _ & Hcode & Hnot & Hsp).
      exists before, fund, after. rewrite Hsp.
      split; [exact Hw|]. split; [exact Hcode|]. split; [exact Hnot|].
      split; [destruct (saveWatchlist (before ++ after)); reflexivity|].
      split; [intros Hsave; rewrite Hsave; reflexivity|].
      intros Hnd. rewrite Hw in Hnd. rewrite <- Hcode.
      apply NoDup_codes_removed. exact Hnd.
    + exfalso. apply (proj1 (findIndex_None code watchlist)); assumption.
Qed.

(** X30.  Removing a fund right after adding it gives back the list that
    was tracked before: if the code was not tracked, its detail carries
    the code and the storage accepts the save, then what the removal
    stores, from the list that the addition stored, is the original
    list. *)
Theorem add_then_remove (watchlist : list Fund.t) (code : string)
    (detail : FundDetail.t) :
  ~ In code (fundCodes watchlist) ->
  fetchDetail code = Fulfilled detail ->
  FundDetail.code detail = code ->
  exists added,
    storedBy (snd (handleFundAdd (Fulfilled watchlist) saveWatchlist fetchDetail
                                 fetchValuation fetchQuotes now code))
    = Some added
    /\ storedBy (snd (handleFundRemove (Fulfilled added) saveWatchlist code))
       = Some watchlist.
Proof.
  intros Hnot Hdetail Hcode.
  set (fund := newFund now detail (fetchValuation code)
                 (fetchQuotes (map Holding.stockCode (FundDetail.holdings detail)))).
  assert (Hfc : Fund.code fund = code).
  { subst fund. unfold newFund. destruct (fetchValuation code); exact Hcode. }
  exists (watchlist ++ [fund]). split.
  - unfold handleFundAdd.
    replace (existsb _ watchlist) with false
      by (symmetry; apply not_true_is_false; rewrite existsb_code; exact Hnot).
    rewrite Hdetail. cbn zeta. fold fund.
    destruct (saveWatchlist (watchlist ++ [fund])); reflexivity.
  - unfold handleFundRemove.
    assert (Hfind : findIndex code (watchlist ++ [fund]) = Some (length watchlist)).
    { clear - Hnot Hfc. induction watchlist as [|f rest IH]; cbn.
      - rewrite Hfc, String.eqb_refl. reflexivity.
      - destruct (String.eqb_spec (Fund.code f) code) as [Heq|Hne].
        + exfalso. apply Hnot. left. exact Heq.
        + rewrite IH; [reflexivity|]. intros Hin. apply Hnot. right. exact Hin. }
    rewrite Hfind.
    assert (Hsp : splice1 (length watchlist) (watchlist ++ [fund]) = watchlist).
    { unfold splice1. rewrite take_app_length.
      rewrite drop_app_ge by lia.
      replace (S (length watchlist) - length watchlist)%nat with 1%nat by lia.
      cbn. apply app_nil_r. }
    rewrite Hsp. destruct (saveWatchlist watchlist); reflexivity.
Qed.

End HandlerProperties.


Lemma handleFundRemove_spec_witness :
  exists before fund after,
    [sampleFund "000001"; sampleFund "000002"] = before ++ fund :: after
    /\ storedBy (snd (handleFundRemove
                        (Fulfilled [sampleFund "000001"; sampleFund "000002"])
                        saveSucceeds "000002"))
       = Some (before ++ after).
Proof.
  destruct (handleFundRemove_spec saveSucceeds
              [sampleFund "000001"; sampleFund "000002"] "000002") as (_ & Hin).
  destruct Hin as (before & fund & after & Hw & _ & _ & Hstored & _).
  - right. left. reflexivity.
  - exists before, fund, after. split; assumption.
Defined.

Lemma add_then_remove_witness :
  exists added,
    storedBy (snd (handleFundAdd (Fulfilled [sampleFund "000002"]) saveSucceeds
                                 detailFound noValuation noQuotes "t1" "000001"))
    = Some added
    /\ storedBy (snd (handleFundRemove (Fulfilled added) saveSucceeds "000001"))
       = Some [sampleFund "000002"].
Proof.
  apply (add_then_remove saveSucceeds detailFound noValuation noQuotes "t1"
           [sampleFund "000002"] "000001" (sampleDetail "000001")).
  - intros [H|[]]. discriminate.
  - reflexivity.
  - reflexivity.
Defined.

Lemma quoteMap_last_wins_witness :
  In (StockQuote.mk "600000" "bank" 12 4 0)
     [StockQuote.mk "600000" "bank" 11 3 0; StockQuote.mk "600000" "bank" 12 4 0]
  /\ StockQuote.code (StockQuote.mk "600000" "bank" 12 4 0) = "600000".
Proof.
  destruct (quoteMap_last_wins
              [StockQuote.mk "600000" "bank" 11 3 0;
               StockQuote.mk "600000" "bank" 12 4 0] "600000") as (_ & _ & Hsome & _).
  apply Hsome. reflexivity.
Defined.

Lemma refresh_saves_what_it_returns_witness :
  RefreshRun.completion
    (updateAllValuations onlyFirstValued noQuotes saveSucceeds fixedClock
       [sampleFund "000001"; sampleFund "000002"])
  = RefreshReturns
      [ mergeFund (fixedClock 0) (newQuoteMap []) false (sampleFund "000001")
                  (onlyFirstValued "000001")
      ; sampleFund "000002" ].
Proof.
  destruct (refresh_saves_what_it_returns onlyFirstValued noQuotes saveSucceeds
              fixedClock [sampleFund "000001"; sampleFund "000002"])
    as (_ & _ & Hsaved & _).
  destruct (Hsaved
              [ mergeFund (fixedClock 0) (newQuoteMap []) false (sampleFund "000001")
                          (onlyFirstValued "000001")
              ; sampleFund "000002" ])
    as [Hret | (reason & Hsave & _)].
  - right. right. right. left. reflexivity.
  - exact Hret.
  - discriminate.
Defined.

